(** * enex2notion: the upload pipeline of [cli_upload.py]

    A shallow embedding of [DoneFile], [EnexUploader] and [_upload_note],
    together with the properties of the completion ledger, the per-note
    pipeline and the semaphore-bounded dispatch of worker threads. *)

From Stdlib Require Import Ascii String List Bool Arith Lia.
From stdpp Require Import base option list gmap strings pretty.


(** ** Python text: whitespace, [str.strip], universal newlines *)

Module PyStr.

Definition LF : ascii := "010"%char.
Definition CR : ascii := "013"%char.

(** [str.isspace] on one code point below 256: TAB..CR, FS..US, SPACE,
    NEL (0x85) and NBSP (0xA0). *)
Definition isspace (c : ascii) : bool :=
  let n := nat_of_ascii c in
  (((9 <=? n) && (n <=? 13)) || ((28 <=? n) && (n <=? 32))
   || (n =? 133) || (n =? 160))%nat.

Fixpoint lstrip (s : string) : string :=
  match s with
  | EmptyString => EmptyString
  | String c s' => if isspace c then lstrip s' else s
  end.

Fixpoint rstrip (s : string) : string :=
  match s with
  | EmptyString => EmptyString
  | String c s' =>
      match rstrip s' with
      | EmptyString => if isspace c then EmptyString else String c EmptyString
      | r => String c r
      end
  end.

(** [s.strip()] *)
Definition strip (s : string) : string := lstrip (rstrip s).

(** Reading in text mode translates "\r\n" and a lone "\r" to "\n";
    [pendingcr] records that the previous character was a "\r". *)
Fixpoint translate_newlines (pendingcr : bool) (s : string) : string :=
  match s with
  | EmptyString => EmptyString
  | String c s' =>
      if Ascii.eqb c CR then String LF (translate_newlines true s')
      else if Ascii.eqb c LF then
        if pendingcr then translate_newlines false s'
        else String LF (translate_newlines false s')
      else String c (translate_newlines false s')
  end.

(** The lines of a translated text, each with its terminating "\n" (the
    last one without, when the text does not end in a newline). *)
Fixpoint splitlines (s : string) : list string :=
  match s with
  | EmptyString => []
  | String c s' =>
      if Ascii.eqb c LF then String LF EmptyString :: splitlines s'
      else match splitlines s' with
           | [] => [String c EmptyString]
           | l :: ls => String c l :: ls
           end
  end.

(** [for line in f] over a file opened with [open(path, "r")]. *)
Definition readlines (content : string) : list string :=
  splitlines (translate_newlines false content).

(** A string without line break... *)
Definition no_linebreak (s : string) : bool :=
  forallb (fun c => negb (Ascii.eqb c CR) && negb (Ascii.eqb c LF))
          (list_ascii_of_string s).

(** ... and without whitespace around it either: what a hex digest is. *)
Definition clean_token (s : string) : bool :=
  no_linebreak s && String.eqb (strip s) s.

(** The text is empty or its last line is complete. *)

Definition ends_line (content : string) : Prop :=
  content = EmptyString \/ exists c0, content = c0 +:+ String LF EmptyString.

End PyStr.

(** ** Exceptions and results *)

Inductive exn :=
| NoteUploadFailException
| ValueError (msg : string)
| OtherException (cls : string)   (* any other subclass of [Exception] *)
| SystemExiting (cls : string).   (* [BaseException] outside [Exception] *)

Inductive outcome (A : Type) :=
| Return (a : A)
| Raise (e : exn).
Arguments Return {A} a.
Arguments Raise {A} e.

(** ** The file system seen by [open] *)

(** What is known of a path: a regular file with its content, or a path
    whose directory does not exist.  A path without entry has no file, in a
    directory that exists.  Permissions and device errors are left out: a
    file that is there can be read and appended to. *)
Inductive entry :=
| File (content : string)
| NoDirectory.

Record FileSystem := mkFS { entries : gmap string entry }.

(** [fs !! p]: the content of the file at [p], when there is one. *)
#[global] Instance fs_lookup : Lookup string string FileSystem :=
  fun p fs =>
    match entries fs !! p with
    | Some (File c) => Some c
    | _ => None
    end.

#[global] Instance fs_empty : Empty FileSystem := mkFS ∅.

#[global] Instance fs_singleton : SingletonM string string FileSystem :=
  fun p c => mkFS {[ p := File c ]}.

(** The file at [p] gets the content [c]. *)
Definition write_file (p c : string) (fs : FileSystem) : FileSystem :=
  mkFS (<[p := File c]> (entries fs)).

(** No file can be created at [p]. *)
Definition missing_dir (p : string) (fs : FileSystem) : bool :=
  match entries fs !! p with
  | Some NoDirectory => true
  | _ => false
  end.

(** ** [class DoneFile] *)

Module DoneFile.

Record t := mk { path : string; done_hashes : gset string }.

(** [{line.strip() for line in f}] *)
Definition load (content : string) : gset string :=
  list_to_set (map PyStr.strip (PyStr.readlines content)).

(** [__init__]: a missing file raises [FileNotFoundError] in [open], which
    is caught and gives the empty set. *)
Definition init (p : string) (fs : FileSystem) : t :=
  match fs !! p with
  | Some content => mk p (load content)
  | None => mk p ∅
  end.

(** [__contains__] *)
Definition contains (note_hash : string) (d : t) : bool :=
  bool_decide (note_hash ∈ done_hashes d).

(** [with open(self.path, "a") as f: f.write(data)]: writes at the end of
    the file, creates the file when it is missing, and raises
    [FileNotFoundError] when there is no directory to create it in. *)
Definition append_file (p : string) (data : string) (fs : FileSystem)
  : outcome unit * FileSystem :=
  match entries fs !! p with
  | Some (File c) => (Return tt, write_file p (c +:+ data) fs)
  | None => (Return tt, write_file p data fs)
  | Some NoDirectory => (Raise (OtherException "FileNotFoundError"), fs)
  end.

(** [add]: the token enters the set (line 38) before the file is opened
    (line 39), so it stays there when [open] raises. *)
Definition add (note_hash : string) (d : t) (fs : FileSystem)
  : outcome unit * (t * FileSystem) :=
  let d' := mk (path d) ({[note_hash]} ∪ done_hashes d) in
  let '(o, fs') :=
    append_file (path d) (note_hash +:+ String PyStr.LF EmptyString) fs in
  (o, (d', fs')).

(** [add] of each token of [ts], in order, each call on its own: a call
    that raises does not keep the next ones from being made. *)
Fixpoint add_all (ts : list string) (d : t) (fs : FileSystem)
  : t * FileSystem :=
  match ts with
  | [] => (d, fs)
  | h :: ts' => add_all ts' (add h d fs).2.1 (add h d fs).2.2
  end.

End DoneFile.


(** ** Classes of exceptions *)

(** [isinstance(e, Exception)], what [except Exception] tests. *)
Definition is_Exception (e : exn) : bool :=
  match e with
  | SystemExiting _ => false
  | _ => true
  end.

(** [isinstance(e, NoteUploadFailException)] *)
Definition is_NoteUploadFail (e : exn) : bool :=
  match e with
  | NoteUploadFailException => true
  | _ => false
  end.

Definition exn_str (e : exn) : string :=
  match e with
  | NoteUploadFailException => "NoteUploadFailException"
  | ValueError msg => msg
  | OtherException cls => cls
  | SystemExiting cls => cls
  end.

(** ** Data *)

(** Modelled from the spec: [EvernoteNote] of [enex_types.py], which is not
    part of the sources: a note has a stable content hash (its completion
    token), a title, a mutable list of tags and opaque content. *)
Record EvernoteNote := mkNote {
  note_hash : string;
  title : string;
  tags : list string;
  content : string
}.

(** Modelled from the spec: [Rules] of [utils_static.py], which is not part
    of the sources: an optional tag to force onto every note; the other
    options only reach the translation. *)
Record Rules := mkRules {
  tag : option string;
  other_options : list string
}.

(** Opaque collaborators' data. *)
Inductive Block := block (repr : string).
Inductive Container := Page (id : string) | Database (id : string).

Inductive level := DEBUG | INFO | WARNING | ERROR.

(** What a run leaves behind: log records and calls to the collaborators. *)
Inductive event :=
| Log (lv : level) (msg : string)
| CallParse (note : EvernoteNote) (rules : Rules)
| CallUpload (root : Container) (note : EvernoteNote) (blocks : list Block).

Definition is_upload (e : event) : bool :=
  match e with CallUpload _ _ _ => true | _ => false end.
Definition is_parse (e : event) : bool :=
  match e with CallParse _ _ => true | _ => false end.
Definition is_log (lv : level) (e : event) : bool :=
  match e, lv with
  | Log DEBUG _, DEBUG | Log INFO _, INFO
  | Log WARNING _, WARNING | Log ERROR _, ERROR => true
  | _, _ => false
  end.

(** Number of calls to the upload collaborator recorded in a trace. *)
Definition upload_attempts (tr : list event) : nat :=
  length (filter (fun e => is_upload e = true) tr).
Definition parse_calls (tr : list event) : nat :=
  length (filter (fun e => is_parse e = true) tr).
Definition logs_at (lv : level) (tr : list event) : nat :=
  length (filter (fun e => is_log lv e = true) tr).

(** ** The collaborators imported by [cli_upload.py] *)

Module Collab.

(** [upload_note] talks to the destination store: its result depends on
    the store, modelled as the number of upload calls made before. *)
Class t := mk {
  parse_note : EvernoteNote -> Rules -> outcome (list Block);
  upload_note : nat -> Container -> EvernoteNote -> list Block -> outcome unit;
  get_notebook_database : string -> string -> outcome Container;
  get_notebook_page : string -> string -> outcome Container;
  count_notes : string -> nat;
  iter_notes : string -> list EvernoteNote;
  stem : string -> string
}.

End Collab.

(** ** [threading.BoundedSemaphore] *)

Module BoundedSemaphore.

Record t := mk { value : nat; initial_value : nat }.

Definition init (n : nat) : t := mk n n.

(** [acquire()] returns only when the value is positive. *)
Definition acquire (s : t) : option t :=
  match value s with
  | O => None
  | S v => Some (mk v (initial_value s))
  end.

(** [release(n)] *)
Definition release (n : nat) (s : t) : outcome unit * t :=
  if (n <? 1)%nat then (Raise (ValueError "n must be one or more"), s)
  else if (initial_value s <? value s + n)%nat
       then (Raise (ValueError "Semaphore released too many times"), s)
       else (Return tt, mk (value s + n) (initial_value s)).

End BoundedSemaphore.

(** ** The state of a run *)

(** [self.done_hashes = DoneFile(done_file) if done_file else set()] *)
Inductive ledger :=
| LedgerFile (d : DoneFile.t)
| LedgerSet (s : gset string).

Definition ledger_tokens (l : ledger) : gset string :=
  match l with
  | LedgerFile d => DoneFile.done_hashes d
  | LedgerSet s => s
  end.

Record EnexUploaderObj := mkUploader {
  import_root : option string;
  mode : string;
  rules : Rules;
  done_hashes : ledger;
  notebook_notes_count : option nat;
  parallelism : nat;
  semaphore : BoundedSemaphore.t
}.

(** Note objects live in a heap, so that a copy and its original differ. *)
Record State := mkState {
  fs : FileSystem;
  heap : gmap nat EvernoteNote;
  trace : list event;
  self : EnexUploaderObj
}.

Definition set_fs (f : FileSystem) (st : State) : State :=
  mkState f (heap st) (trace st) (self st).
Definition set_heap (h : gmap nat EvernoteNote) (st : State) : State :=
  mkState (fs st) h (trace st) (self st).
Definition set_trace (tr : list event) (st : State) : State :=
  mkState (fs st) (heap st) tr (self st).
Definition set_self (u : EnexUploaderObj) (st : State) : State :=
  mkState (fs st) (heap st) (trace st) u.

Definition set_done_hashes (l : ledger) (u : EnexUploaderObj) : EnexUploaderObj :=
  mkUploader (import_root u) (mode u) (rules u) l (notebook_notes_count u)
             (parallelism u) (semaphore u).
Definition set_notebook_notes_count (c : option nat) (u : EnexUploaderObj)
  : EnexUploaderObj :=
  mkUploader (import_root u) (mode u) (rules u) (done_hashes u) c
             (parallelism u) (semaphore u).
Definition set_semaphore (s : BoundedSemaphore.t) (u : EnexUploaderObj)
  : EnexUploaderObj :=
  mkUploader (import_root u) (mode u) (rules u) (done_hashes u)
             (notebook_notes_count u) (parallelism u) s.

(** ** A state and exception monad *)

Definition M (A : Type) : Type := State -> outcome A * State.

Definition ret {A} (a : A) : M A := fun st => (Return a, st).
Definition raise {A} (e : exn) : M A := fun st => (Raise e, st).
Definition bind {A B} (m : M A) (k : A -> M B) : M B :=
  fun st =>
    match m st with
    | (Return a, st1) => k a st1
    | (Raise e, st1) => (Raise e, st1)
    end.

Notation "x <- m ;; k" := (bind m (fun x => k))
  (at level 100, m at next level, right associativity).
Notation "m ;; k" := (bind m (fun _ => k))
  (at level 100, right associativity).

(** [try: body / except <handles> as e: handler e] *)
Definition try_except {A} (body : M A) (handles : exn -> bool)
           (handler : exn -> M A) : M A :=
  fun st =>
    match body st with
    | (Raise e, st1) => if handles e then handler e st1 else (Raise e, st1)
    | r => r
    end.

(** [try: body / finally: fin]: the clause runs on every exit of the body;
    an exception of the clause replaces the body's result. *)
Definition try_finally {A} (body : M A) (fin : M unit) : M A :=
  fun st =>
    let '(o, st1) := body st in
    match fin st1 with
    | (Return _, st2) => (o, st2)
    | (Raise e, st2) => (Raise e, st2)
    end.

Definition emit (e : event) : M unit :=
  fun st => (Return tt, set_trace (trace st ++ [e]) st).

(** [logger.<level>(msg)] *)
Definition logger (lv : level) (msg : string) : M unit := emit (Log lv msg).

(** Reading an object through its reference. *)
Definition deref (l : nat) : M EvernoteNote :=
  fun st =>
    match heap st !! l with
    | Some n => (Return n, st)
    | None => (Raise (OtherException "ReferenceError"), st)
    end.

(** [copy.deepcopy(note)]: a new object with the same fields. *)
Definition deepcopy (l : nat) : M nat :=
  n <- deref l ;;
  fun st =>
    let l' := fresh (dom (heap st)) in
    (Return l', set_heap (<[l' := n]> (heap st)) st).

(** [note.tags.append(t)] *)
Definition tags_append (l : nat) (t : string) : M unit :=
  n <- deref l ;;
  fun st =>
    (Return tt,
     set_heap (<[l := mkNote (note_hash n) (title n) (tags n ++ [t]) (content n)]>
                 (heap st)) st).

(** [note_hash in self.done_hashes] *)
Definition ledger_contains (h : string) : M bool :=
  fun st =>
    match done_hashes (self st) with
    | LedgerFile d => (Return (DoneFile.contains h d), st)
    | LedgerSet s => (Return (bool_decide (h ∈ s)), st)
    end.

(** [self.done_hashes.add(note_hash)]: with a [DoneFile] the call ends as
    [DoneFile.add] does; [set.add] always returns. *)
Definition ledger_add (h : string) : M unit :=
  fun st =>
    match done_hashes (self st) with
    | LedgerFile d =>
        let '(o, (d', fs')) := DoneFile.add h d (fs st) in
        (o, set_fs fs' (set_self (set_done_hashes (LedgerFile d') (self st)) st))
    | LedgerSet s =>
        (Return tt,
         set_self (set_done_hashes (LedgerSet ({[h]} ∪ s)) (self st)) st)
    end.

(** [self.semaphore.release(n)] *)
Definition semaphore_release (n : nat) : M unit :=
  fun st =>
    let '(o, s') := BoundedSemaphore.release n (semaphore (self st)) in
    (o, set_self (set_semaphore s' (self st)) st).

(** Python truth value of [rules.tag]. *)
Definition truthy_tag (r : Rules) : option string :=
  match tag r with
  | Some EmptyString => None
  | t => t
  end.

Definition str_of_count (c : option nat) : string :=
  match c with
  | Some n => pretty n
  | None => "None"
  end.

Section Pipeline.

Context `{C : Collab.t}.

(** The call [upload_note(notebook_root, note, note_blocks)] of the
    collaborator, recorded in the trace. *)
Definition call_upload (root : Container) (l : nat) (blocks : list Block)
  : M unit :=
  n <- deref l ;;
  fun st =>
    (Collab.upload_note (upload_attempts (trace st)) root n blocks,
     set_trace (trace st ++ [CallUpload root n blocks]) st).

(** The call [parse_note(note, self.rules)] of the collaborator. *)
Definition call_parse (l : nat) : M (list Block) :=
  n <- deref l ;;
  fun st =>
    (Collab.parse_note n (rules (self st)),
     set_trace (trace st ++ [CallParse n (rules (self st))]) st).

Definition retry_warning (l : nat) : M unit :=
  n <- deref l ;;
  logger WARNING
    ("Failed to upload note '" +:+ title n +:+ "' to Notion! Retrying...").

(** One turn of [for attempt in range(5)] in [_upload_note], then the
    remaining turns. *)
Fixpoint _upload_note_loop (attempts : list nat) (root : Container)
         (l : nat) (blocks : list Block) : M unit :=
  match attempts with
  | [] => ret tt
  | attempt :: rest =>
      try_except
        (call_upload root l blocks)           (* then [break] *)
        is_NoteUploadFail
        (fun e =>
           if (attempt =? 4)%nat then raise e
           else retry_warning l ;;
                _upload_note_loop rest root l blocks)   (* [continue] *)
  end.

Definition _upload_note (root : Container) (l : nat) (blocks : list Block)
  : M unit :=
  _upload_note_loop (seq 0 5) root l blocks.

End Pipeline.

Module EnexUploader.

(** [__init__] *)
Definition init (import_root : option string) (mode : string)
           (done_file : option string) (rules : Rules) (parallelism : nat)
           (fs : FileSystem) : EnexUploaderObj :=
  mkUploader import_root mode rules
             (match done_file with
              | Some p => LedgerFile (DoneFile.init p fs)
              | None => LedgerSet ∅
              end)
             None parallelism (BoundedSemaphore.init parallelism).

Section Methods.

Context `{C : Collab.t}.

Definition _parse_note (l : nat) : M (list Block) :=
  try_except
    (call_parse l)
    is_Exception
    (fun e =>
       n <- deref l ;;
       logger ERROR ("Failed to parse note '" +:+ title n +:+ "'") ;;
       logger DEBUG (exn_str e) ;;
       ret []).

(** The rule of lines 84-85. *)
Definition apply_tag_rule (l : nat) : M unit :=
  n <- deref l ;;
  fun st =>
    match truthy_tag (rules (self st)) with
    | Some t =>
        if bool_decide (t ∈ tags n) then (Return tt, st)
        else tags_append l t st
    | None => (Return tt, st)
    end.

Definition upload_note (notebook_root : option Container) (l : nat)
           (note_idx : nat) : M unit :=
  n <- deref l ;;
  found <- ledger_contains (note_hash n) ;;
  if (found : bool) then
    logger DEBUG ("Skipping note '" +:+ title n +:+ "' (already uploaded)")
  else
    apply_tag_rule l ;;
    n <- deref l ;;
    logger DEBUG ("Parsing note '" +:+ title n +:+ "'") ;;
    note_blocks <- _parse_note l ;;
    match note_blocks with
    | [] => logger DEBUG ("Skipping note '" +:+ title n +:+ "' (no blocks)")
    | _ :: _ =>
        match notebook_root with
        | Some root =>
            (fun st =>
               logger INFO
                 ("Uploading note " +:+ pretty note_idx +:+ " out of "
                  +:+ str_of_count (notebook_notes_count (self st))
                  +:+ " '" +:+ title n +:+ "'") st) ;;
            _upload_note root l note_blocks ;;
            n <- deref l ;;
            ledger_add (note_hash n)
        | None => ret tt
        end
    end.

Definition upload_note_with_release (notebook_root : option Container)
           (l : nat) (note_idx : nat) : M unit :=
  try_finally
    (l' <- deepcopy l ;; upload_note notebook_root l' note_idx)
    (semaphore_release 1).

Definition _get_notebook_root (notebook_title : string)
  : M (option Container) :=
  fun st =>
    match import_root (self st) with
    | None => (Return None, st)
    | Some r =>
        match
          (if String.eqb (mode (self st)) "DB"
           then Collab.get_notebook_database r notebook_title
           else Collab.get_notebook_page r notebook_title)
        with
        | Return c => (Return (Some c), st)
        | Raise e => (Raise e, st)
        end
    end.

End Methods.

End EnexUploader.

(** ** Vocabulary of the statements *)

(** The note as lines 84-85 leave it. *)
Definition with_tag (r : Rules) (n : EvernoteNote) : EvernoteNote :=
  match truthy_tag r with
  | Some t =>
      if bool_decide (t ∈ tags n) then n
      else mkNote (note_hash n) (title n) (tags n ++ [t]) (content n)
  | None => n
  end.

Definition add_trace (evs : list event) (st : State) : State :=
  set_trace (trace st ++ evs) st.

Definition retry_msg (n : EvernoteNote) : string :=
  "Failed to upload note '" +:+ title n +:+ "' to Notion! Retrying...".

(** [k] failed attempts, each followed by its warning. *)
Fixpoint retry_events (root : Container) (n : EvernoteNote)
         (blocks : list Block) (k : nat) : list event :=
  match k with
  | O => []
  | S k' =>
      CallUpload root n blocks :: Log WARNING (retry_msg n)
      :: retry_events root n blocks k'
  end.

(** An upload result that the [except NoteUploadFailException] clause takes. *)
Definition caught (o : outcome unit) : bool :=
  match o with
  | Raise e => is_NoteUploadFail e
  | Return _ => false
  end.

Definition tokens (st : State) : gset string :=
  ledger_tokens (done_hashes (self st)).

Definition skip_done_msg (n : EvernoteNote) : string :=
  "Skipping note '" +:+ title n +:+ "' (already uploaded)".
Definition parsing_msg (n : EvernoteNote) : string :=
  "Parsing note '" +:+ title n +:+ "'".
Definition skip_empty_msg (n : EvernoteNote) : string :=
  "Skipping note '" +:+ title n +:+ "' (no blocks)".
Definition parse_fail_msg (n : EvernoteNote) : string :=
  "Failed to parse note '" +:+ title n +:+ "'".
Definition uploading_msg (idx : nat) (count : option nat) (n : EvernoteNote)
  : string :=
  "Uploading note " +:+ pretty idx +:+ " out of " +:+ str_of_count count
  +:+ " '" +:+ title n +:+ "'".

(** The state when the translation has been called: the rule applied to the
    note at [l], the call recorded. *)
Definition parsed_state (l : nat) (n : EvernoteNote) (st : State) : State :=
  add_trace [Log DEBUG (parsing_msg n);
             CallParse (with_tag (rules (self st)) n) (rules (self st))]
            (set_heap (<[l := with_tag (rules (self st)) n]> (heap st)) st).

(** The file behind the ledger cannot be opened for appending: it is
    missing, and so is its directory.  A ledger held in a [set] has no file. *)
Definition ledger_blocked (st : State) : bool :=
  match done_hashes (self st) with
  | LedgerFile d => missing_dir (DoneFile.path d) (fs st)
  | LedgerSet _ => false
  end.



(** The files after [self.done_hashes.add(h)]: the line of [h] at the end of
    the ledger's file, when that file can be opened. *)
Definition fs_after_add (h : string) (st : State) : FileSystem :=
  match done_hashes (self st) with
  | LedgerFile d =>
      if missing_dir (DoneFile.path d) (fs st) then fs st
      else write_file (DoneFile.path d)
             (default EmptyString (fs st !! DoneFile.path d)
              +:+ h +:+ String PyStr.LF EmptyString) (fs st)
  | LedgerSet _ => fs st
  end.

(** How [self.done_hashes.add(h)] ends. *)
Definition add_outcome (st : State) : outcome unit :=
  if ledger_blocked st then Raise (OtherException "FileNotFoundError")
  else Return tt.

(** The private copy that a worker makes of the note at [l]. *)
Definition copy_loc (st : State) : nat := fresh (dom (heap st)).
Definition copied_state (l : nat) (n : EvernoteNote) (st : State) : State :=
  set_heap (<[copy_loc st := n]> (heap st)) st.

(** The thread's target ended by raising: the exception is uncaught. *)
Definition escapes {A} (o : outcome A) : Prop := exists e, o = Raise e.

(** The collaborator calls of an event are about note [n]. *)
Definition about_note (n : EvernoteNote) (e : event) : Prop :=
  match e with
  | CallParse m _ => m = n
  | CallUpload _ m _ => m = n
  | Log _ _ => True
  end.

(** ** [upload_notebook]: the coordinator, its worker threads, the semaphore

    Threads interleave at the granularity of the steps below. The ledger
    operations are single steps: [DoneFile] runs each of them under its
    lock. *)

Module Dispatch.

(** Where a worker is in [upload_note_with_release]. [l] is its private
    copy of the note. *)
Inductive worker_pc :=
| WStart                    (* started; [copy.deepcopy(note)] comes next *)
| WCheck (l : nat)          (* line 80, the test of the ledger *)
| WParse (l : nat)          (* lines 84-92, the rule and the translation *)
| WUpload (root : Container) (l : nat) (blocks : list Block) (attempt : nat)
                            (* one turn of the loop of [_upload_note] *)
| WCommit (l : nat)         (* line 101, [self.done_hashes.add] *)
| WFinally (o : outcome unit) (* the body is left; [release()] comes next *)
| WDone (o : outcome unit). (* the thread has ended *)

(** The arguments given to the thread, and its position. *)
Record worker := mkWorker {
  w_root : option Container;
  w_note : nat;
  w_idx : nat;
  w_pc : worker_pc
}.

(** Where the main thread is in [upload_notebook]. *)
Inductive coord_pc :=
| CStart (enex_file : string)               (* lines 59-62 *)
| CNext (root : option Container) (pending : list EvernoteNote) (note_idx : nat)
                                            (* the iterator is asked *)
| CAcquire (root : option Container) (l : nat) (pending : list EvernoteNote)
           (note_idx : nat)                 (* line 64 *)
| CSpawn (root : option Container) (l : nat) (pending : list EvernoteNote)
         (note_idx : nat)                   (* lines 65-66 *)
| CDrain (i : nat)                          (* line 70, [i] turns left *)
| CRelease                                  (* line 71 *)
| CDone (o : outcome unit).                 (* returned, or raised *)

Record system := mkSystem {
  shared : State;
  coord : coord_pc;
  workers : list worker
}.

Inductive tid := Main | Thread (i : nat).

Definition set_pc (pc : worker_pc) (w : worker) : worker :=
  mkWorker (w_root w) (w_note w) (w_idx w) pc.

(** The worker has started and has not released its slot. *)
Definition active (w : worker) : bool :=
  match w_pc w with
  | WDone _ => false
  | _ => true
  end.

Definition active_count (ws : list worker) : nat :=
  length (filter (fun w => active w = true) ws).

(** [self.semaphore.acquire()], where it does not block. *)
Definition semaphore_acquire (st : State) : option State :=
  match BoundedSemaphore.acquire (semaphore (self st)) with
  | Some s' => Some (set_self (set_semaphore s' (self st)) st)
  | None => None
  end.

Section Steps.

Context `{C : Collab.t}.

(** Lines 80-82. *)
Definition check_ledger (l : nat) : M bool :=
  n <- deref l ;;
  found <- ledger_contains (note_hash n) ;;
  if (found : bool) then
    logger DEBUG ("Skipping note '" +:+ title n +:+ "' (already uploaded)") ;;
    ret true
  else ret false.

(** Lines 84-98: the blocks to upload and where, if any. *)
Definition translate (root : option Container) (l : nat) (note_idx : nat)
  : M (option (Container * list Block)) :=
  EnexUploader.apply_tag_rule l ;;
  n <- deref l ;;
  logger DEBUG ("Parsing note '" +:+ title n +:+ "'") ;;
  note_blocks <- EnexUploader._parse_note l ;;
  match note_blocks with
  | [] =>
      logger DEBUG ("Skipping note '" +:+ title n +:+ "' (no blocks)") ;;
      ret None
  | _ :: _ =>
      match root with
      | Some r =>
          (fun st =>
             logger INFO
               ("Uploading note " +:+ pretty note_idx +:+ " out of "
                +:+ str_of_count (notebook_notes_count (self st))
                +:+ " '" +:+ title n +:+ "'") st) ;;
          ret (Some (r, note_blocks))
      | None => ret None
      end
  end.

(** One step of a worker; [None] when the thread has ended. *)
Definition worker_step (w : worker) (st : State)
  : option (worker_pc * State) :=
  match w_pc w with
  | WStart =>
      match deepcopy (w_note w) st with
      | (Return l, st') => Some (WCheck l, st')
      | (Raise e, st') => Some (WFinally (Raise e), st')
      end
  | WCheck l =>
      match check_ledger l st with
      | (Return true, st') => Some (WFinally (Return tt), st')
      | (Return false, st') => Some (WParse l, st')
      | (Raise e, st') => Some (WFinally (Raise e), st')
      end
  | WParse l =>
      match translate (w_root w) l (w_idx w) st with
      | (Return (Some (r, blocks)), st') => Some (WUpload r l blocks 0, st')
      | (Return None, st') => Some (WFinally (Return tt), st')
      | (Raise e, st') => Some (WFinally (Raise e), st')
      end
  | WUpload r l blocks attempt =>
      match call_upload r l blocks st with
      | (Return _, st') => Some (WCommit l, st')          (* [break] *)
      | (Raise e, st') =>
          if is_NoteUploadFail e then
            if (attempt =? 4)%nat then Some (WFinally (Raise e), st')
            else
              match retry_warning l st' with
              | (Return _, st'') => Some (WUpload r l blocks (S attempt), st'')
              | (Raise e', st'') => Some (WFinally (Raise e'), st'')
              end
          else Some (WFinally (Raise e), st')
      end
  | WCommit l =>
      match (n <- deref l ;; ledger_add (note_hash n)) st with
      | (o, st') => Some (WFinally o, st')
      end
  | WFinally o =>
      match semaphore_release 1 st with
      | (Return _, st') => Some (WDone o, st')
      | (Raise e, st') => Some (WDone (Raise e), st')
      end
  | WDone _ => None
  end.

(** Lines 59-62. *)
Definition start_notebook (enex_file : string) : M (option Container) :=
  logger INFO ("Processing notebook '" +:+ Collab.stem enex_file +:+ "'...") ;;
  (fun st =>
     (Return tt,
      set_self (set_notebook_notes_count
                  (Some (Collab.count_notes enex_file)) (self st)) st)) ;;
  EnexUploader._get_notebook_root (Collab.stem enex_file).

(** The iterator yields a new note object. *)
Definition alloc_note (n : EvernoteNote) (st : State) : nat * State :=
  let l := fresh (dom (heap st)) in
  (l, set_heap (<[l := n]> (heap st)) st).

(** One step of the main thread; [None] when it waits for the semaphore
    or has left [upload_notebook]. *)
Definition coord_step (s : system) : option system :=
  let st := shared s in
  match coord s with
  | CStart enex_file =>
      match start_notebook enex_file st with
      | (Return root, st') =>
          Some (mkSystem st' (CNext root (Collab.iter_notes enex_file) 1)
                         (workers s))
      | (Raise e, st') => Some (mkSystem st' (CDone (Raise e)) (workers s))
      end
  | CNext root [] _ =>
      Some (mkSystem st (CDrain (parallelism (self st))) (workers s))
  | CNext root (n :: pending) note_idx =>
      let '(l, st') := alloc_note n st in
      Some (mkSystem st' (CAcquire root l pending note_idx) (workers s))
  | CAcquire root l pending note_idx =>
      match semaphore_acquire st with
      | Some st' =>
          Some (mkSystem st' (CSpawn root l pending note_idx) (workers s))
      | None => None
      end
  | CSpawn root l pending note_idx =>
      Some (mkSystem st (CNext root pending (S note_idx))
                     (workers s ++ [mkWorker root l note_idx WStart]))
  | CDrain (S i) =>
      match semaphore_acquire st with
      | Some st' => Some (mkSystem st' (CDrain i) (workers s))
      | None => None
      end
  | CDrain O => Some (mkSystem st CRelease (workers s))
  | CRelease =>
      match semaphore_release (parallelism (self st)) st with
      | (o, st') => Some (mkSystem st' (CDone o) (workers s))
      end
  | CDone _ => None
  end.

Definition step_thread (t : tid) (s : system) : option system :=
  match t with
  | Main => coord_step s
  | Thread i =>
      match workers s !! i with
      | Some w =>
          match worker_step w (shared s) with
          | Some (pc, st') =>
              Some (mkSystem st' (coord s) (<[i := set_pc pc w]> (workers s)))
          | None => None
          end
      | None => None
      end
  end.

(** Any thread that can move may move. *)
Definition step (s s' : system) : Prop :=
  exists t, step_thread t s = Some s'.

Definition reachable (s s' : system) : Prop := rtc step s s'.

(** The run that a schedule picks; a thread that cannot move is skipped. *)
Fixpoint run_schedule (sched : list tid) (s : system) : system :=
  match sched with
  | [] => s
  | t :: sched' =>
      match step_thread t s with
      | Some s' => run_schedule sched' s'
      | None => run_schedule sched' s
      end
  end.

(** A worker alone, up to [fuel] steps. *)
Fixpoint run_worker (fuel : nat) (w : worker) (st : State)
  : worker * State :=
  match fuel with
  | O => (w, st)
  | S fuel' =>
      match worker_step w st with
      | Some (pc, st') => run_worker fuel' (set_pc pc w) st'
      | None => (w, st)
      end
  end.

End Steps.

(** A call of [upload_notebook] on an uploader whose earlier threads have
    all ended and whose semaphore is full. *)
Definition ready (s : system) : Prop :=
  (exists enex_file, coord s = CStart enex_file)
  /\ Forall (fun w => active w = false) (workers s)
  /\ BoundedSemaphore.value (semaphore (self (shared s)))
     = parallelism (self (shared s))
  /\ BoundedSemaphore.initial_value (semaphore (self (shared s)))
     = parallelism (self (shared s)).

(** The first call, on a new uploader. *)
Definition init (u : EnexUploaderObj) (fs0 : FileSystem) (enex_file : string)
  : system :=
  mkSystem (mkState fs0 ∅ [] u) (CStart enex_file) [].

(** Slots that the main thread holds. *)
Definition held (c : coord_pc) (p : nat) : nat :=
  match c with
  | CSpawn _ _ _ _ => 1
  | CDrain i => p - i
  | CRelease => p
  | _ => 0
  end.

Definition finished (s : system) : Prop :=
  exists o, coord s = CDone o.

End Dispatch.

(** ** Relations and invariants of the runs *)

(** What a computation leaves related, whatever its result. *)
Definition preserves {A} (R : State -> State -> Prop) (m : M A) : Prop :=
  forall st, R st (m st).2.

(** The steps that leave the uploader's settings and its semaphore alone. *)
Definition same_config (st st' : State) : Prop :=
  semaphore (self st') = semaphore (self st)
  /\ parallelism (self st') = parallelism (self st)
  /\ rules (self st') = rules (self st)
  /\ import_root (self st') = import_root (self st)
  /\ mode (self st') = mode (self st).

(** No object is lost. *)
Definition keeps_alloc (st st' : State) : Prop :=
  forall l, is_Some (heap st !! l) -> is_Some (heap st' !! l).

(** The slots of the semaphore: free, taken by running workers, or in the
    hands of the main thread. *)
Definition slots_inv (p : nat) (s : Dispatch.system) : Prop :=
  let u := self (Dispatch.shared s) in
  parallelism u = p
  /\ BoundedSemaphore.initial_value (semaphore u) = p
  /\ BoundedSemaphore.value (semaphore u)
     + Dispatch.active_count (Dispatch.workers s)
     + Dispatch.held (Dispatch.coord s) p = p
  /\ match Dispatch.coord s with
     | Dispatch.CDrain i => i <= p
     | Dispatch.CStart _ | Dispatch.CDone _ =>
         Dispatch.active_count (Dispatch.workers s) = 0
     | _ => True
     end.

Section Reaches.

Context `{C : Collab.t}.

(** Left alone, the worker [w] in state [st] gets to the position [pc] in
    state [st'] within [k] steps. *)
Definition reaches_in (k : nat) (w : Dispatch.worker) (st : State)
           (pc : Dispatch.worker_pc) (st' : State) : Prop :=
  exists j, j <= k /\ forall fuel,
    Dispatch.run_worker (j + fuel) w st
    = Dispatch.run_worker fuel (Dispatch.set_pc pc w) st'.

End Reaches.

(** *** Resuming from the ledger *)

Definition hash_at (st : State) (l : nat) : option string :=
  note_hash <$> heap st !! l.

(** No object is lost or changes its hash. *)
Definition keeps_hashes (st st' : State) : Prop :=
  forall l h, hash_at st l = Some h -> hash_at st' l = Some h.

(** A step that works on note objects and logs, makes no upload call and
    leaves the uploader and the files alone. *)
Definition quiet (st st' : State) : Prop :=
  keeps_hashes st st'
  /\ self st' = self st
  /\ fs st' = fs st
  /\ exists evs, trace st' = trace st ++ evs
                 /\ Forall (fun e => is_upload e = false) evs.

Definition note_hashes (ns : list EvernoteNote) : gset string :=
  list_to_set (map note_hash ns).

(** An upload call for a note of the batch that the ledger did not hold when
    the run began. *)
Definition fresh_upload (L0 H : gset string) (e : event) : Prop :=
  match e with
  | CallUpload _ m _ => note_hash m ∈ H /\ note_hash m ∉ L0
  | _ => True
  end.

(** What is known of a worker: its note is of the batch, its copy has the
    same hash, and past the test of the ledger that hash was not in the
    ledger when the run began. *)
Definition worker_inv (L0 H : gset string) (st : State) (w : Dispatch.worker)
  : Prop :=
  exists h, hash_at st (Dispatch.w_note w) = Some h /\ h ∈ H
    /\ match Dispatch.w_pc w with
       | Dispatch.WCheck l => hash_at st l = Some h
       | Dispatch.WParse l | Dispatch.WUpload _ l _ _ | Dispatch.WCommit l =>
           hash_at st l = Some h /\ h ∉ L0
       | _ => True
       end.

Definition coord_inv (H : gset string) (file : string) (st : State)
           (c : Dispatch.coord_pc) : Prop :=
  match c with
  | Dispatch.CStart f => f = file
  | Dispatch.CNext _ pending _ =>
      Forall (fun n => note_hash n ∈ H) pending
  | Dispatch.CAcquire _ l pending _ | Dispatch.CSpawn _ l pending _ =>
      (exists h, hash_at st l = Some h /\ h ∈ H)
      /\ Forall (fun n => note_hash n ∈ H) pending
  | _ => True
  end.

Section RunInv.

Context `{C : Collab.t}.

(** Kept by every step of a run over [file] that began with the tokens
    [L0] in the ledger. *)
Definition run_inv (L0 : gset string) (file : string) (s : Dispatch.system)
  : Prop :=
  let H := note_hashes (Collab.iter_notes file) in
  let st := Dispatch.shared s in
  L0 ⊆ tokens st
  /\ tokens st ⊆ L0 ∪ H
  /\ coord_inv H file st (Dispatch.coord s)
  /\ Forall (worker_inv L0 H st) (Dispatch.workers s)
  /\ Forall (fresh_upload L0 H) (trace st).

End RunInv.

(** The in-memory ledger is what a reload of its file gives, and the file
    can be opened for appending. *)
Definition coherent (p : string) (st : State) : Prop :=
  exists d, done_hashes (self st) = LedgerFile d
    /\ DoneFile.path d = p
    /\ missing_dir p (fs st) = false
    /\ PyStr.ends_line (default EmptyString (fs st !! p))
    /\ DoneFile.done_hashes d = DoneFile.load (default EmptyString (fs st !! p)).

(** A step that makes no upload call and leaves the ledger, its file and the
    settings alone. *)
Definition calm (st st' : State) : Prop :=
  keeps_hashes st st'
  /\ done_hashes (self st') = done_hashes (self st)
  /\ fs st' = fs st
  /\ import_root (self st') = import_root (self st)
  /\ rules (self st') = rules (self st)
  /\ exists evs, trace st' = trace st ++ evs
                 /\ Forall (fun e => is_upload e = false) evs.

(** The ledger does not hold the note of this upload call. *)
Definition not_reuploaded (L : gset string) (e : event) : Prop :=
  match e with
  | CallUpload _ m _ => note_hash m ∉ L
  | _ => True
  end.

(** A process that calls [upload_notebook file] once, with the ledger file
    [p]. *)
Definition process_start (root : option string) (mode : string) (p : string)
           (r : Rules) (par : nat) (file : string) (fs0 : FileSystem)
  : Dispatch.system :=
  Dispatch.init (EnexUploader.init root mode (Some p) r par fs0) fs0 file.

(** ** Concrete collaborators and notes, for running the model *)

Module Sample.

Definition note1 : EvernoteNote := mkNote "9f86d081" "First" ["inbox"] "<p>1</p>".
Definition note2 : EvernoteNote := mkNote "2c26b46b" "Second" [] "<p>2</p>".
Definition note3 : EvernoteNote := mkNote "fcde2b2e" "Third" ["evernote"] "<p>3</p>".
Definition empty_note : EvernoteNote := mkNote "e3b0c442" "Empty" [] "".
Definition broken_note : EvernoteNote := mkNote "ba7816bf" "Broken" [] "<<".

Definition forced : Rules := mkRules (Some "evernote") [].
Definition no_rules : Rules := mkRules None [].

(** Translation gives one block per non-empty content and fails on "<<". *)
Definition parse (n : EvernoteNote) (r : Rules) : outcome (list Block) :=
  if String.eqb (content n) "" then Return []
  else if String.eqb (content n) "<<" then Raise (OtherException "ValueError")
  else Return [block (content n)].

(** The first [k] upload calls fail with [e], the later ones succeed. *)
Definition failing (e : exn) (k : nat) : Collab.t :=
  Collab.mk parse
    (fun i _ _ _ => if (i <? k)%nat then Raise e else Return tt)
    (fun root title => Return (Database title))
    (fun root title => Return (Page title))
    (fun _ => 3)
    (fun _ => [note1; note2; note3])
    (fun path => path).

Definition flaky (k : nat) : Collab.t := failing NoteUploadFailException k.

Definition uploader (r : Rules) (p : nat) (fs : FileSystem) : EnexUploaderObj :=
  EnexUploader.init (Some "root") "DB" (Some "done.txt") r p fs.

Definition start (r : Rules) (p : nat) (n : EvernoteNote) : State :=
  mkState ∅ {[ 0 := n ]} [] (uploader r p ∅).

(** A ledger file that already lists the first note. *)
Definition seeded_fs : FileSystem :=
  {[ "done.txt" := "9f86d081" +:+ String PyStr.LF EmptyString ]}.

Definition seeded (n : EvernoteNote) : State :=
  mkState seeded_fs {[ 0 := n ]} [] (uploader no_rules 2 seeded_fs).



(** A worker holds one of the two slots. *)
Definition running (r : Rules) (n : EvernoteNote) : State :=
  set_self (set_semaphore (BoundedSemaphore.mk 1 2) (uploader r 2 ∅))
           (start r 2 n).

(** Translation always gives a block. *)
Definition reliable : Collab.t :=
  Collab.mk (fun n _ => Return [block (content n)])
    (fun _ _ _ _ => Return tt)
    (fun root title => Return (Database title))
    (fun root title => Return (Page title))
    (fun _ => 3)
    (fun _ => [note1; note2; note3])
    (fun path => path).

(** A notebook with one note that has no content. *)
Definition hollow : Collab.t :=
  Collab.mk parse
    (fun _ _ _ _ => Return tt)
    (fun root title => Return (Database title))
    (fun root title => Return (Page title))
    (fun _ => 1)
    (fun _ => [empty_note])
    (fun path => path).

(** The main thread and three workers in turn, [k] times. *)
Definition round_robin (k : nat) : list Dispatch.tid :=
  concat (replicate k [Dispatch.Main; Dispatch.Thread 0; Dispatch.Thread 1;
                       Dispatch.Thread 2]).

Definition first_call (r : Rules) (p : nat) (fs : FileSystem) : Dispatch.system :=
  Dispatch.init (uploader r p fs) fs "notebook.enex".

End Sample.

(** ** Vocabulary of the further properties *)

(** The line terminators that reading in text mode accepts. *)
Inductive eol := EolLF | EolCRLF | EolCR.

Definition eol_str (e : eol) : string :=
  match e with
  | EolLF => String PyStr.LF EmptyString
  | EolCRLF => String PyStr.CR (String PyStr.LF EmptyString)
  | EolCR => String PyStr.CR EmptyString
  end.

(** A text file of the given lines, each with its own terminator. *)
Fixpoint write_lines (ls : list (string * eol)) : string :=
  match ls with
  | [] => EmptyString
  | (t, e) :: ls' => t +:+ eol_str e +:+ write_lines ls'
  end.

(** What a hex digest is: not empty, no line break, no whitespace around. *)
Definition digest_like (t : string) : Prop :=
  PyStr.clean_token t = true /\ t <> EmptyString.


(** The ledger and the files after [self.done_hashes.add(h)] for each [h] of
    [hs], in order. *)
Definition ledger_after (hs : list string) (l : ledger) (f : FileSystem)
  : ledger * FileSystem :=
  match l with
  | LedgerFile d =>
      (LedgerFile (DoneFile.add_all hs d f).1, (DoneFile.add_all hs d f).2)
  | LedgerSet s => (LedgerSet (fold_left (fun acc h => {[h]} ∪ acc) hs s), f)
  end.

(** The ledger and the files differ by [add]s only. *)
Definition only_adds (st st' : State) : Prop :=
  exists hs,
    (done_hashes (self st'), fs st')
    = ledger_after hs (done_hashes (self st)) (fs st).

(** *** Runs of [upload_notebook] *)

(** The steps that a worker has left at most: the copy, the test of the
    ledger, the translation, 5 upload calls, the [add], the release. *)
Definition worker_fuel (pc : Dispatch.worker_pc) : nat :=
  match pc with
  | Dispatch.WStart => 10
  | Dispatch.WCheck _ => 9
  | Dispatch.WParse _ => 8
  | Dispatch.WUpload _ _ _ attempt => 7 - attempt
  | Dispatch.WCommit _ => 2
  | Dispatch.WFinally _ => 1
  | Dispatch.WDone _ => 0
  end.

Definition fuel_of (w : Dispatch.worker) : nat :=
  worker_fuel (Dispatch.w_pc w).

(** The attempt number of a worker in the loop of [_upload_note] is one of
    [range(5)]. *)
Definition attempt_ok (w : Dispatch.worker) : Prop :=
  match Dispatch.w_pc w with
  | Dispatch.WUpload _ _ _ attempt => attempt <= 4
  | _ => True
  end.

Section Fuel.

Context `{C : Collab.t}.

(** The steps that the main thread has left at most, with those of the
    workers that it will start: 3 of its own and 10 of the worker for each
    note to come. *)
Definition coord_fuel (p : nat) (c : Dispatch.coord_pc) : nat :=
  match c with
  | Dispatch.CStart f => 13 * length (Collab.iter_notes f) + p + 4
  | Dispatch.CNext _ pending _ => 13 * length pending + p + 3
  | Dispatch.CAcquire _ _ pending _ => 13 * length pending + p + 15
  | Dispatch.CSpawn _ _ pending _ => 13 * length pending + p + 14
  | Dispatch.CDrain i => i + 2
  | Dispatch.CRelease => 1
  | Dispatch.CDone _ => 0
  end.

Definition run_fuel (p : nat) (s : Dispatch.system) : nat :=
  coord_fuel p (Dispatch.coord s)
  + sum_list_with fuel_of (Dispatch.workers s).

(** A call of [upload_notebook file] with no slot at all: where the main
    thread can be. *)
Definition starved (file : string) (ws0 : list Dispatch.worker)
           (s : Dispatch.system) : Prop :=
  let st := Dispatch.shared s in
  BoundedSemaphore.value (semaphore (self st)) = 0
  /\ parallelism (self st) = 0
  /\ Dispatch.workers s = ws0
  /\ Forall (fun w => Dispatch.active w = false) ws0
  /\ match Dispatch.coord s with
     | Dispatch.CStart f =>
         f = file /\ exists root, (Dispatch.start_notebook f st).1 = Return root
     | Dispatch.CNext _ pending _ => pending = Collab.iter_notes file
     | Dispatch.CAcquire _ _ _ _ => Collab.iter_notes file <> []
     | Dispatch.CSpawn _ _ _ _ => False
     | Dispatch.CDrain i => i = 0 /\ Collab.iter_notes file = []
     | Dispatch.CRelease => Collab.iter_notes file = []
     | Dispatch.CDone o =>
         Collab.iter_notes file = []
         /\ o = Raise (ValueError "n must be one or more")
     end.

End Fuel.

(** What is kept while the threads run: the accounting of the slots, and
    the attempt numbers. *)
Definition timed (p : nat) (s : Dispatch.system) : Prop :=
  slots_inv p s /\ Forall attempt_ok (Dispatch.workers s).

(** No thread can move. *)
Definition stuck `{C : Collab.t} (s : Dispatch.system) : Prop :=
  forall t, Dispatch.step_thread t s = None.

(** *** Which worker gets which note *)

(** The private copy that a worker holds, where it has one. *)
Definition copy_of (pc : Dispatch.worker_pc) : option nat :=
  match pc with
  | Dispatch.WCheck l | Dispatch.WParse l | Dispatch.WUpload _ l _ _
  | Dispatch.WCommit l => Some l
  | _ => None
  end.

(** The note object that the main thread has taken from the iterator and
    not yet given to a worker. *)
Definition in_hand (c : Dispatch.coord_pc) : option nat :=
  match c with
  | Dispatch.CAcquire _ l _ _ | Dispatch.CSpawn _ l _ _ => Some l
  | _ => None
  end.

(** Only the object at [l] may have changed, and it is still there. *)
Definition touches (l : nat) (st st' : State) : Prop :=
  (forall l0, l0 <> l -> heap st' !! l0 = heap st !! l0)
  /\ (is_Some (heap st !! l) -> is_Some (heap st' !! l)).

(** The workers started by this call: the [i]-th one (from 0) was given the
    container, the index [i + 1] and the [i]-th note of the notebook, and
    that note object is as the iterator made it. *)
Definition assigned (root : option Container) (N : list EvernoteNote)
           (st : State) (new : list Dispatch.worker) : Prop :=
  forall i w, new !! i = Some w ->
    Dispatch.w_root w = root /\ Dispatch.w_idx w = S i
    /\ exists n, N !! i = Some n /\ heap st !! Dispatch.w_note w = Some n.

(** The copy of a worker is an object of its own: it is not a note object
    of the iterator, and no other worker has it. *)
Definition unshared (st : State) (c : Dispatch.coord_pc)
           (new : list Dispatch.worker) : Prop :=
  forall i w l, new !! i = Some w -> copy_of (Dispatch.w_pc w) = Some l ->
    is_Some (heap st !! l)
    /\ in_hand c <> Some l
    /\ forall j w', new !! j = Some w' ->
         Dispatch.w_note w' <> l
         /\ (j <> i -> copy_of (Dispatch.w_pc w') <> Some l).

Section Order.

Context `{C : Collab.t}.

(** Where the main thread is in the notebook when it has started [k]
    workers. *)
Definition iterating (root : option Container) (N : list EvernoteNote)
           (st : State) (c : Dispatch.coord_pc) (k : nat) : Prop :=
  k <= length N
  /\ match c with
     | Dispatch.CStart f =>
         k = 0 /\ Collab.iter_notes f = N
         /\ (Dispatch.start_notebook f st).1 = Return root
     | Dispatch.CNext r pending idx =>
         r = root /\ idx = S k /\ drop k N = pending
     | Dispatch.CAcquire r l pending idx | Dispatch.CSpawn r l pending idx =>
         r = root /\ idx = S k
         /\ exists n, drop k N = n :: pending /\ heap st !! l = Some n
     | Dispatch.CDrain _ | Dispatch.CRelease | Dispatch.CDone _ =>
         k = length N
     end.

(** Kept by every step of a call of [upload_notebook] on the notes [N],
    on an uploader whose earlier workers [ws0] have ended. *)
Definition dispatched (root : option Container) (N : list EvernoteNote)
           (ws0 : list Dispatch.worker) (s : Dispatch.system) : Prop :=
  Forall (fun w => Dispatch.active w = false) ws0
  /\ exists new,
       Dispatch.workers s = ws0 ++ new
       /\ assigned root N (Dispatch.shared s) new
       /\ iterating root N (Dispatch.shared s) (Dispatch.coord s) (length new)
       /\ unshared (Dispatch.shared s) (Dispatch.coord s) new.

End Order.

(** *** Dry runs *)

(** The worker is not in the upload stage. *)
Definition before_upload (w : Dispatch.worker) : Prop :=
  match Dispatch.w_pc w with
  | Dispatch.WUpload _ _ _ _ | Dispatch.WCommit _ => False
  | _ => True
  end.

Section DryRun.

Context `{C : Collab.t}.

(** Kept by every step of a call of [upload_notebook] without a
    destination container, begun in state [st0]. *)
Definition rehearsal (N : list EvernoteNote) (ws0 : list Dispatch.worker)
           (st0 : State) (s : Dispatch.system) : Prop :=
  dispatched None N ws0 s
  /\ calm st0 (Dispatch.shared s)
  /\ Forall before_upload (Dispatch.workers s).

End DryRun.

(** *** The upload calls of a notebook *)

(** The upload calls that a worker can still make. *)
Definition upload_budget (w : Dispatch.worker) : nat :=
  match Dispatch.w_pc w with
  | Dispatch.WStart | Dispatch.WCheck _ | Dispatch.WParse _ => 5
  | Dispatch.WUpload _ _ _ attempt => 5 - attempt
  | _ => 0
  end.

Section Budget.

Context `{C : Collab.t}.

(** The upload calls that the workers still to be started can make. *)
Definition iterator_budget (c : Dispatch.coord_pc) : nat :=
  match c with
  | Dispatch.CStart f => 5 * length (Collab.iter_notes f)
  | Dispatch.CNext _ pending _ => 5 * length pending
  | Dispatch.CAcquire _ _ pending _ | Dispatch.CSpawn _ _ pending _ =>
      5 * length pending + 5
  | _ => 0
  end.

(** The upload calls made so far and those that can still come. *)
Definition upload_bound (s : Dispatch.system) : nat :=
  upload_attempts (trace (Dispatch.shared s))
  + iterator_budget (Dispatch.coord s)
  + sum_list_with upload_budget (Dispatch.workers s).

End Budget.

(** *** Progress of a notebook when some notes fail *)

(** The note objects are the same, unchanged. *)
Definition same_heap (st st' : State) : Prop := heap st' = heap st.

(** The rules stay and the ledger does not shrink. *)
Definition grows (st st' : State) : Prop :=
  rules (self st') = rules (self st) /\ tokens st ⊆ tokens st'.

Section Partial.

Context `{C : Collab.t}.

(** The translation of the note, with the tag rule applied, gives
    blocks. *)
Definition uploadable (r : Rules) (n : EvernoteNote) : bool :=
  match Collab.parse_note (with_tag r n) r with
  | Return (_ :: _) => true
  | _ => false
  end.

(** The destination store takes every upload. *)
Definition uploads_succeed : Prop :=
  forall i c m blocks, Collab.upload_note i c m blocks = Return tt.

(** What is known of the worker of note [n]: before the translation its
    copy is the note; in the upload stage its copy is the note with the
    rule applied, and the translation gave blocks; when it leaves the
    body, and the store takes every upload, the token of a note with
    blocks is in the ledger. *)
Definition worker_progress (r : Rules) (st : State) (w : Dispatch.worker)
           (n : EvernoteNote) : Prop :=
  match Dispatch.w_pc w with
  | Dispatch.WStart => True
  | Dispatch.WCheck l | Dispatch.WParse l => heap st !! l = Some n
  | Dispatch.WUpload _ l _ _ | Dispatch.WCommit l =>
      heap st !! l = Some (with_tag r n) /\ uploadable r n = true
  | Dispatch.WFinally _ | Dispatch.WDone _ =>
      uploads_succeed -> uploadable r n = true -> note_hash n ∈ tokens st
  end.

(** Kept by every step of a call of [upload_notebook] on the notes [N]
    with the rules [r], begun with the tokens [L0] in the ledger and [k0]
    earlier workers. *)
Definition progress (r : Rules) (L0 : gset string) (N : list EvernoteNote)
           (k0 : nat) (s : Dispatch.system) : Prop :=
  rules (self (Dispatch.shared s)) = r
  /\ L0 ⊆ tokens (Dispatch.shared s)
  /\ tokens (Dispatch.shared s)
     ⊆ L0 ∪ note_hashes (filter (fun n => uploadable r n = true) N)
  /\ forall i w n,
       Dispatch.workers s !! (k0 + i) = Some w -> N !! i = Some n ->
       worker_progress r (Dispatch.shared s) w n.

End Partial.

(** *** A notebook whose notes are all uploaded *)

Section Resuming.

Context `{C : Collab.t}.

(** Every upload call that can be made for the note [n] with the rules [r]
    and the container [c] returns. *)
Definition upload_accepted (r : Rules) (c : Container) (n : EvernoteNote)
  : Prop :=
  forall i blocks,
    Collab.parse_note (with_tag r n) r = Return blocks ->
    Collab.upload_note i c (with_tag r n) blocks = Return tt.

(** What is known of the worker of note [n] when the translation of [n]
    gives blocks and its uploads are accepted: the copy it works on, the
    blocks it uploads, and the token in the ledger once it has left the
    body. *)
Definition worker_resume (r : Rules) (c : Container) (st : State)
           (w : Dispatch.worker) (n : EvernoteNote) : Prop :=
  match Dispatch.w_pc w with
  | Dispatch.WStart => True
  | Dispatch.WCheck l | Dispatch.WParse l => heap st !! l = Some n
  | Dispatch.WUpload c' l blocks _ =>
      c' = c /\ heap st !! l = Some (with_tag r n)
      /\ Collab.parse_note (with_tag r n) r = Return blocks
  | Dispatch.WCommit l => heap st !! l = Some (with_tag r n)
  | Dispatch.WFinally _ | Dispatch.WDone _ => note_hash n ∈ tokens st
  end.

(** Kept by every step of a call of [upload_notebook] on the notes [N]
    with the rules [r], the container [c] and the ledger file [p], after
    [k0] earlier workers. *)
Definition resuming (r : Rules) (c : Container) (p : string)
           (N : list EvernoteNote) (k0 : nat) (s : Dispatch.system) : Prop :=
  rules (self (Dispatch.shared s)) = r
  /\ coherent p (Dispatch.shared s)
  /\ forall i w n,
       Dispatch.workers s !! (k0 + i) = Some w -> N !! i = Some n ->
       worker_resume r c (Dispatch.shared s) w n.

End Resuming.

(** *** The result of [upload_notebook], and its order with one slot *)

(** [upload_notebook] has not raised. *)
Definition returns_normally (s : Dispatch.system) : Prop :=
  forall o, Dispatch.coord s = Dispatch.CDone o -> o = Return tt.

(** Every worker but the one started last has ended. *)
Definition one_at_a_time (s : Dispatch.system) : Prop :=
  forall i w, Dispatch.workers s !! i = Some w ->
    Dispatch.active w = true -> S i = length (Dispatch.workers s).

(** ** Further collaborators and files, for running the model *)

Module Scenario.

(** The translation is interrupted from the keyboard. *)
Definition interrupted : Collab.t :=
  Collab.mk (fun _ _ => Raise (SystemExiting "KeyboardInterrupt"))
    (fun _ _ _ _ => Return tt)
    (fun root title => Return (Database title))
    (fun root title => Return (Page title))
    (fun _ => 1)
    (fun _ => [Sample.note1])
    (fun path => path).

(** The destination cannot be found. *)
Definition no_root : Collab.t :=
  Collab.mk Sample.parse
    (fun _ _ _ _ => Return tt)
    (fun root title => Raise (OtherException "NotionError"))
    (fun root title => Raise (OtherException "NotionError"))
    (fun _ => 3)
    (fun _ => [Sample.note1; Sample.note2; Sample.note3])
    (fun path => path).

(** A notebook without notes. *)
Definition blank : Collab.t :=
  Collab.mk Sample.parse
    (fun _ _ _ _ => Return tt)
    (fun root title => Return (Database title))
    (fun root title => Return (Page title))
    (fun _ => 0)
    (fun _ => [])
    (fun path => path).

(** A ledger file written on another system: one line ends in "\r\n", one
    in "\r", one in "\n". *)
Definition mixed_lines : list (string * eol) :=
  [("9f86d081", EolCRLF); ("2c26b46b", EolCR); ("fcde2b2e", EolLF)].

(** A ledger file whose last line has lost its newline. *)
Definition cut_fs : FileSystem :=
  {[ "done.txt" := "9f86d081" +:+ String PyStr.LF "2c26b46b" ]}.

(** An uploader without an import root: a dry run. *)
Definition dry (p : nat) (fs : FileSystem) : Dispatch.system :=
  Dispatch.init
    (EnexUploader.init None "DB" (Some "done.txt") Sample.no_rules p fs)
    fs "notebook.enex".

(** A notebook in which one note cannot be translated and one has no
    content. *)
Definition mixed : Collab.t :=
  Collab.mk Sample.parse
    (fun _ _ _ _ => Return tt)
    (fun root title => Return (Database title))
    (fun root title => Return (Page title))
    (fun _ => 4)
    (fun _ => [Sample.note1; Sample.broken_note; Sample.empty_note;
               Sample.note2])
    (fun path => path).

(** The main thread and four workers in turn, [k] times. *)
Definition round_robin4 (k : nat) : list Dispatch.tid :=
  concat (replicate k [Dispatch.Main; Dispatch.Thread 0; Dispatch.Thread 1;
                       Dispatch.Thread 2; Dispatch.Thread 3]).

End Scenario.
(** * Properties *)

(** ** Text helpers *)

Example strip_ex : PyStr.strip "  ab c
" = "ab c".
Proof. reflexivity. Qed.

Example readlines_ex :
  PyStr.readlines ("a" +:+ String PyStr.CR (String PyStr.LF "b") +:+ String PyStr.LF "c")
  = [String "a" (String PyStr.LF ""); String "b" (String PyStr.LF ""); "c"].
Proof. reflexivity. Qed.

Lemma append_cons (c : ascii) (s r : string) :
  String c s +:+ r = String c (s +:+ r).
Proof. reflexivity. Qed.

Lemma append_nil_l (r : string) : EmptyString +:+ r = r.
Proof. reflexivity. Qed.

Ltac str_simpl := rewrite ?append_cons, ?append_nil_l.

Lemma append_nil_r (s : string) : s +:+ EmptyString = s.
Proof. induction s as [|c s IH]; str_simpl; [reflexivity | now rewrite IH]. Qed.

Lemma append_assoc (a b c : string) : (a +:+ b) +:+ c = a +:+ b +:+ c.
Proof. induction a as [|x a IH]; str_simpl; [reflexivity | now rewrite IH]. Qed.

Lemma rstrip_snoc_space (s : string) (c : ascii) :
  PyStr.isspace c = true ->
  PyStr.rstrip (s +:+ String c EmptyString) = PyStr.rstrip s.
Proof.
  intros Hc. induction s as [|a s IH].
  - str_simpl. simpl. now rewrite Hc.
  - change ((String a s) +:+ String c EmptyString)
      with (String a (s +:+ String c EmptyString)).
    cbn [PyStr.rstrip]. now rewrite IH.
Qed.

(** Stripping a line read from the file removes its terminator. *)
Lemma strip_line (t : string) :
  PyStr.strip (t +:+ String PyStr.LF EmptyString) = PyStr.strip t.
Proof. unfold PyStr.strip. now rewrite rstrip_snoc_space. Qed.

Lemma no_linebreak_cons (c : ascii) (t : string) :
  PyStr.no_linebreak (String c t) = true ->
  Ascii.eqb c PyStr.CR = false /\ Ascii.eqb c PyStr.LF = false
  /\ PyStr.no_linebreak t = true.
Proof.
  unfold PyStr.no_linebreak. simpl. intros H.
  apply andb_true_iff in H as [Hc Ht].
  apply andb_true_iff in Hc as [Hcr Hlf].
  apply negb_true_iff in Hcr, Hlf. auto.
Qed.

Lemma translate_clean (t r : string) :
  PyStr.no_linebreak t = true ->
  PyStr.translate_newlines false (t +:+ r)
  = t +:+ PyStr.translate_newlines false r.
Proof.
  induction t as [|c t IH]; intros Ht; [reflexivity|].
  apply no_linebreak_cons in Ht as (Hcr & Hlf & Ht).
  str_simpl. cbn [PyStr.translate_newlines].
  now rewrite Hcr, Hlf, IH.
Qed.

Lemma translate_after_newline (c0 r : string) (b : bool) :
  PyStr.translate_newlines b (c0 +:+ String PyStr.LF r)
  = PyStr.translate_newlines b (c0 +:+ String PyStr.LF EmptyString)
    +:+ PyStr.translate_newlines false r.
Proof.
  revert b. induction c0 as [|c c0 IH]; intros b.
  - str_simpl. destruct b; reflexivity.
  - change ((String c c0) +:+ String PyStr.LF r)
      with (String c (c0 +:+ String PyStr.LF r)).
    str_simpl.
    cbn [PyStr.translate_newlines].
    destruct (Ascii.eqb c PyStr.CR); [now rewrite IH|].
    destruct (Ascii.eqb c PyStr.LF); [destruct b|]; now rewrite IH.
Qed.

Lemma translate_ends_newline (c0 : string) (b : bool) :
  (b = true /\ c0 = EmptyString)
  \/ exists T0, PyStr.translate_newlines b (c0 +:+ String PyStr.LF EmptyString)
                = T0 +:+ String PyStr.LF EmptyString.
Proof.
  assert (Hcons : forall x s,
            (exists T0, s = T0 +:+ String PyStr.LF EmptyString) ->
            exists T0, String x s = T0 +:+ String PyStr.LF EmptyString).
  { intros x s [T0 ->]. now exists (String x T0). }
  revert b. induction c0 as [|c c0 IH]; intros b.
  - str_simpl. destruct b; [now left | right; now exists EmptyString].
  - right.
    str_simpl.
    cbn [PyStr.translate_newlines].
    destruct (Ascii.eqb c PyStr.CR).
    { destruct (IH true) as [[_ ->] | H]; [now exists EmptyString|].
      now apply Hcons. }
    destruct (Ascii.eqb c PyStr.LF).
    + destruct b.
      * destruct (IH false) as [[? _] | H]; [discriminate | exact H].
      * destruct (IH false) as [[? _] | H]; [discriminate | now apply Hcons].
    + destruct (IH false) as [[? _] | H]; [discriminate | now apply Hcons].
Qed.

Lemma splitlines_newline_nonempty (T0 : string) :
  PyStr.splitlines (T0 +:+ String PyStr.LF EmptyString) <> [].
Proof.
  destruct T0 as [|c T0]; str_simpl; cbn [PyStr.splitlines].
  - discriminate.
  - destruct (Ascii.eqb c PyStr.LF); [discriminate|].
    destruct (PyStr.splitlines _); discriminate.
Qed.

Lemma splitlines_after_newline (T0 u : string) :
  PyStr.splitlines (T0 +:+ String PyStr.LF u)
  = PyStr.splitlines (T0 +:+ String PyStr.LF EmptyString) ++ PyStr.splitlines u.
Proof.
  induction T0 as [|c T0 IH]; str_simpl; cbn [PyStr.splitlines].
  - reflexivity.
  - destruct (Ascii.eqb c PyStr.LF); [now rewrite IH|].
    rewrite IH.
    pose proof (splitlines_newline_nonempty T0) as Hne.
    destruct (PyStr.splitlines (T0 +:+ String PyStr.LF EmptyString));
      [congruence | reflexivity].
Qed.

Lemma splitlines_clean (t : string) :
  PyStr.no_linebreak t = true ->
  PyStr.splitlines (t +:+ String PyStr.LF EmptyString)
  = [t +:+ String PyStr.LF EmptyString].
Proof.
  induction t as [|c t IH]; intros Ht; [reflexivity|].
  apply no_linebreak_cons in Ht as (_ & Hlf & Ht).
  str_simpl. cbn [PyStr.splitlines]. now rewrite Hlf, IH.
Qed.

(** After a complete line, a token written with its newline is read back as
    one more line. *)
Lemma readlines_append_token (old t : string) :
  PyStr.ends_line old -> PyStr.no_linebreak t = true ->
  PyStr.readlines (old +:+ t +:+ String PyStr.LF EmptyString)
  = PyStr.readlines old ++ [t +:+ String PyStr.LF EmptyString].
Proof.
  intros Hold Ht. unfold PyStr.readlines.
  assert (Htok : PyStr.translate_newlines false (t +:+ String PyStr.LF EmptyString)
                 = t +:+ String PyStr.LF EmptyString)
    by now rewrite translate_clean.
  destruct Hold as [-> | [c0 ->]].
  - str_simpl. rewrite Htok. now apply splitlines_clean.
  - rewrite append_assoc. str_simpl.
    rewrite translate_after_newline, Htok.
    destruct (translate_ends_newline c0 false) as [[? _] | [T0 ->]];
      [discriminate|].
    rewrite append_assoc. str_simpl.
    now rewrite splitlines_after_newline, (splitlines_clean t).
Qed.

Lemma load_append_token (old t : string) :
  PyStr.ends_line old -> PyStr.no_linebreak t = true ->
  DoneFile.load (old +:+ t +:+ String PyStr.LF EmptyString)
  = DoneFile.load old ∪ {[PyStr.strip t]}.
Proof.
  intros Hold Ht. unfold DoneFile.load.
  rewrite readlines_append_token by assumption.
  rewrite map_app, list_to_set_app_L. cbn [map list_to_set].
  now rewrite strip_line, (right_id_L ∅ (∪)).
Qed.

Lemma ends_line_append_token (old t : string) :
  PyStr.ends_line (old +:+ t +:+ String PyStr.LF EmptyString).
Proof. right. exists (old +:+ t). now rewrite append_assoc. Qed.

(** ** The completion ledger *)

Lemma clean_token_spec (t : string) :
  PyStr.clean_token t = true ->
  PyStr.no_linebreak t = true /\ PyStr.strip t = t.
Proof.
  unfold PyStr.clean_token. intros H.
  apply andb_true_iff in H as [H1 H2]. now apply String.eqb_eq in H2.
Qed.

(** *** Files *)

Lemma fs_lookup_Some (fs : FileSystem) (p c : string) :
  fs !! p = Some c <-> entries fs !! p = Some (File c).
Proof.
  unfold lookup at 1, fs_lookup.
  destruct (entries fs !! p) as [[c'|]|]; split; congruence.
Qed.

Lemma fs_lookup_write_eq (fs : FileSystem) (p c : string) :
  write_file p c fs !! p = Some c.
Proof. apply fs_lookup_Some. cbn. apply lookup_insert_eq. Qed.

Lemma fs_lookup_write_ne (fs : FileSystem) (p q c : string) :
  q <> p -> write_file p c fs !! q = fs !! q.
Proof.
  intros H. apply option_eq. intros c'. rewrite !fs_lookup_Some. cbn.
  now rewrite lookup_insert_ne by congruence.
Qed.

Lemma missing_dir_lookup (fs : FileSystem) (p : string) :
  missing_dir p fs = true -> fs !! p = None.
Proof.
  unfold missing_dir, lookup at 2, fs_lookup.
  destruct (entries fs !! p) as [[c|]|]; congruence.
Qed.

Lemma missing_dir_file (fs : FileSystem) (p c : string) :
  fs !! p = Some c -> missing_dir p fs = false.
Proof.
  intros H. apply fs_lookup_Some in H. unfold missing_dir. now rewrite H.
Qed.

Lemma missing_dir_write (fs : FileSystem) (p q c : string) :
  missing_dir q (write_file p c fs)
  = if decide (q = p) then false else missing_dir q fs.
Proof.
  unfold missing_dir, write_file. cbn. destruct (decide (q = p)) as [->|Hne].
  - now rewrite lookup_insert_eq.
  - now rewrite lookup_insert_ne by congruence.
Qed.

(** The two ways [open(p, "a")] goes. *)
Lemma append_file_ok (p data : string) (fs : FileSystem) :
  missing_dir p fs = false ->
  DoneFile.append_file p data fs
  = (Return tt, write_file p (default EmptyString (fs !! p) +:+ data) fs).
Proof.
  unfold missing_dir, DoneFile.append_file, lookup at 3, fs_lookup.
  destruct (entries fs !! p) as [[c|]|]; [reflexivity | discriminate | reflexivity].
Qed.

Lemma append_file_fail (p data : string) (fs : FileSystem) :
  missing_dir p fs = true ->
  DoneFile.append_file p data fs
  = (Raise (OtherException "FileNotFoundError"), fs).
Proof.
  unfold missing_dir, DoneFile.append_file.
  destruct (entries fs !! p) as [[c|]|]; [discriminate | reflexivity | discriminate].
Qed.

(** *** [DoneFile.add] *)

Lemma add_path (t : string) (d : DoneFile.t) (fs : FileSystem) :
  DoneFile.path (DoneFile.add t d fs).2.1 = DoneFile.path d.
Proof. unfold DoneFile.add. now destruct (DoneFile.append_file _ _ _). Qed.

Lemma add_hashes (t : string) (d : DoneFile.t) (fs : FileSystem) :
  DoneFile.done_hashes (DoneFile.add t d fs).2.1
  = {[t]} ∪ DoneFile.done_hashes d.
Proof. unfold DoneFile.add. now destruct (DoneFile.append_file _ _ _). Qed.

Lemma add_ok (t : string) (d : DoneFile.t) (fs : FileSystem) :
  missing_dir (DoneFile.path d) fs = false ->
  DoneFile.add t d fs
  = (Return tt,
     (DoneFile.mk (DoneFile.path d) ({[t]} ∪ DoneFile.done_hashes d),
      write_file (DoneFile.path d)
        (default EmptyString (fs !! DoneFile.path d)
         +:+ t +:+ String PyStr.LF EmptyString) fs)).
Proof. intros H. unfold DoneFile.add. now rewrite append_file_ok. Qed.

Lemma add_fail (t : string) (d : DoneFile.t) (fs : FileSystem) :
  missing_dir (DoneFile.path d) fs = true ->
  DoneFile.add t d fs
  = (Raise (OtherException "FileNotFoundError"),
     (DoneFile.mk (DoneFile.path d) ({[t]} ∪ DoneFile.done_hashes d), fs)).
Proof. intros H. unfold DoneFile.add. now rewrite append_file_fail. Qed.

Lemma add_returns (t : string) (d : DoneFile.t) (fs : FileSystem) :
  (DoneFile.add t d fs).1 = Return tt
  <-> missing_dir (DoneFile.path d) fs = false.
Proof.
  destruct (missing_dir (DoneFile.path d) fs) eqn:H.
  - rewrite add_fail by exact H. cbn. split; discriminate.
  - rewrite add_ok by exact H. cbn. split; reflexivity.
Qed.

Lemma add_file (t : string) (d : DoneFile.t) (fs : FileSystem) :
  missing_dir (DoneFile.path d) fs = false ->
  (DoneFile.add t d fs).2.2 !! DoneFile.path d
  = Some (default EmptyString (fs !! DoneFile.path d)
          +:+ t +:+ String PyStr.LF EmptyString).
Proof. intros H. rewrite add_ok by exact H. cbn. apply fs_lookup_write_eq. Qed.

Lemma add_other_files (t : string) (d : DoneFile.t) (fs : FileSystem)
      (p : string) :
  p <> DoneFile.path d -> (DoneFile.add t d fs).2.2 !! p = fs !! p.
Proof.
  intros Hp. destruct (missing_dir (DoneFile.path d) fs) eqn:H.
  - now rewrite add_fail by exact H.
  - rewrite add_ok by exact H. cbn. now apply fs_lookup_write_ne.
Qed.

Lemma add_missing_dir (t : string) (d : DoneFile.t) (fs : FileSystem) :
  missing_dir (DoneFile.path d) (DoneFile.add t d fs).2.2
  = missing_dir (DoneFile.path d) fs.
Proof.
  destruct (missing_dir (DoneFile.path d) fs) eqn:H.
  - now rewrite add_fail by exact H.
  - rewrite add_ok by exact H. cbn. rewrite missing_dir_write.
    now destruct (decide _).
Qed.

Lemma add_all_cons (h : string) (hs : list string) (d : DoneFile.t)
      (f : FileSystem) :
  DoneFile.add_all (h :: hs) d f
  = DoneFile.add_all hs (DoneFile.add h d f).2.1 (DoneFile.add h d f).2.2.
Proof. reflexivity. Qed.

Lemma init_present (p content : string) (fs : FileSystem) :
  fs !! p = Some content ->
  DoneFile.done_hashes (DoneFile.init p fs) = DoneFile.load content.
Proof. intros H. unfold DoneFile.init. now rewrite H. Qed.

Lemma init_missing (p : string) (fs : FileSystem) :
  fs !! p = None -> DoneFile.done_hashes (DoneFile.init p fs) = ∅.
Proof. intros H. unfold DoneFile.init. now rewrite H. Qed.

(** Reloading after a run of [add]s over a log whose last line is complete
    and that can be written: the tokens read before, and the added ones. *)
Lemma add_all_reload (ts : list string) (d : DoneFile.t) (fs : FileSystem) :
  missing_dir (DoneFile.path d) fs = false ->
  PyStr.ends_line (default EmptyString (fs !! DoneFile.path d)) ->
  Forall (fun t => PyStr.clean_token t = true) ts ->
  DoneFile.done_hashes
    (DoneFile.init (DoneFile.path d) (DoneFile.add_all ts d fs).2)
  = DoneFile.load (default EmptyString (fs !! DoneFile.path d))
    ∪ list_to_set ts.
Proof.
  revert d fs. induction ts as [|t ts IH]; intros d fs Hdir Hold Hts.
  - cbn. rewrite (right_id_L ∅ (∪)).
    unfold DoneFile.init. destruct (fs !! DoneFile.path d); reflexivity.
  - inversion Hts as [|? ? Ht Hts']; subst.
    apply clean_token_spec in Ht as [Hnl Hstrip].
    rewrite add_all_cons.
    rewrite <- (add_path t d fs) at 1.
    rewrite IH;
      [|now rewrite add_path, add_missing_dir
       |rewrite add_path, add_file by exact Hdir; apply ends_line_append_token
       | assumption].
    rewrite add_path, add_file by exact Hdir. cbn [from_option id default].
    rewrite load_append_token, Hstrip by assumption.
    cbn [list_to_set]. now rewrite (assoc_L (∪)).
Qed.

(** C3, as stated, fails: a token with whitespace around it is written as it
    is and read back stripped, so the reloaded ledger does not contain it. *)
Lemma C3_padded_token_not_reloaded :
  let d := DoneFile.init "done.txt" ∅ in
  let r := DoneFile.add " a" d ∅ in
  r.1 = Return tt
  /\ " a" ∈ DoneFile.done_hashes r.2.1
  /\ r.2.2 !! "done.txt" = Some (" a" +:+ String PyStr.LF EmptyString)
  /\ " a" ∉ DoneFile.done_hashes (DoneFile.init "done.txt" r.2.2).
Proof.
  cbv zeta. split; [reflexivity|]. split; [|split].
  - cbn. apply elem_of_union_l, elem_of_singleton. reflexivity.
  - reflexivity.
  - erewrite init_present;
      [|exact (add_file " a" (DoneFile.init "done.txt" ∅) ∅ eq_refl)].
    change (DoneFile.load _) with ({["a"]} ∪ (∅ : gset string)).
    rewrite (right_id_L ∅ (∪)), elem_of_singleton. discriminate.
Qed.

(** C3 (amended): [add t] puts [t] in the in-memory set and touches no file
    but the backing one; it returns unless the backing file is missing with
    its directory, and when it has returned [t] and a newline have been
    appended to the backing file; when moreover [t] has no line break and no
    whitespace around it and the log so far is empty or ends in a newline, a
    ledger constructed from the file holds [t] and the tokens read from the
    log before, as a set, and so for every run of such [add]s; when [add]
    raises, it is [FileNotFoundError] and no file has changed; constructing
    from a missing file gives the empty set. *)
Theorem C3_ledger_roundtrip (t : string) (d : DoneFile.t) (fs : FileSystem) :
  let old := default EmptyString (fs !! DoneFile.path d) in
  let r := DoneFile.add t d fs in
  let d' := r.2.1 in
  let fs' := r.2.2 in
  (t ∈ DoneFile.done_hashes d'
   /\ DoneFile.done_hashes d' = {[t]} ∪ DoneFile.done_hashes d)
  /\ (forall p, p <> DoneFile.path d -> fs' !! p = fs !! p)
  /\ (r.1 = Return tt <-> missing_dir (DoneFile.path d) fs = false)
  /\ (r.1 = Return tt ->
      fs' !! DoneFile.path d
      = Some (old +:+ t +:+ String PyStr.LF EmptyString)
      /\ (PyStr.ends_line old -> PyStr.clean_token t = true ->
          DoneFile.done_hashes (DoneFile.init (DoneFile.path d) fs')
          = DoneFile.load old ∪ {[t]})
      /\ (forall ts, PyStr.ends_line old ->
            Forall (fun t => PyStr.clean_token t = true) ts ->
            DoneFile.done_hashes
              (DoneFile.init (DoneFile.path d) (DoneFile.add_all ts d fs).2)
            = DoneFile.load old ∪ list_to_set ts))
  /\ (r.1 <> Return tt ->
      r.1 = Raise (OtherException "FileNotFoundError") /\ fs' = fs)
  /\ (forall p fs0, fs0 !! p = None ->
        DoneFile.done_hashes (DoneFile.init p fs0) = ∅).
Proof.
  cbv zeta. split; [|split; [|split; [|split; [|split]]]].
  - rewrite add_hashes. split; [|reflexivity].
    apply elem_of_union_l, elem_of_singleton. reflexivity.
  - intros p Hp. now apply add_other_files.
  - apply add_returns.
  - intros Hret. apply add_returns in Hret. split; [|split].
    + now apply add_file.
    + intros Hold Ht. apply clean_token_spec in Ht as [Hnl Hstrip].
      rewrite (init_present _ _ _ (add_file t d fs Hret)).
      now rewrite load_append_token, Hstrip.
    + intros ts Hold Hts. now apply add_all_reload.
  - intros Hret. destruct (missing_dir (DoneFile.path d) fs) eqn:Hdir.
    + now rewrite add_fail by exact Hdir.
    + exfalso. apply Hret. now apply add_returns.
  - intros p fs0. apply init_missing.
Qed.

Lemma C3_ledger_roundtrip_witness :
  (DoneFile.add "9f86d081" (DoneFile.init "done.txt" ∅) ∅).1 = Return tt
  /\ (DoneFile.add "9f86d081" (DoneFile.init "done.txt" ∅) ∅).2.2 !! "done.txt"
     = Some ("9f86d081" +:+ String PyStr.LF EmptyString)
  /\ DoneFile.done_hashes
       (DoneFile.init "done.txt"
          (DoneFile.add "9f86d081" (DoneFile.init "done.txt" ∅) ∅).2.2)
     = DoneFile.load EmptyString ∪ {["9f86d081"]}
  /\ DoneFile.done_hashes
       (DoneFile.init "done.txt"
          (DoneFile.add_all ["9f86d081"; "2c26b46b"; "9f86d081"]
             (DoneFile.init "done.txt" ∅) ∅).2)
     = DoneFile.load EmptyString ∪ list_to_set ["9f86d081"; "2c26b46b"; "9f86d081"]
  /\ DoneFile.done_hashes (DoneFile.init "done.txt" ∅) = ∅.
Proof.
  destruct (C3_ledger_roundtrip "9f86d081" (DoneFile.init "done.txt" ∅) ∅)
    as (_ & _ & _ & Hret & _ & Hmiss).
  destruct (Hret eq_refl) as (Hfile & Hone & Hall).
  split; [reflexivity|]. split; [exact Hfile|]. split; [|split].
  - apply Hone; [left; reflexivity | reflexivity].
  - apply Hall; [left; reflexivity | repeat constructor].
  - apply Hmiss. reflexivity.
Defined.

(** ** The per-note pipeline *)

Lemma upload_attempts_app (tr1 tr2 : list event) :
  upload_attempts (tr1 ++ tr2) = upload_attempts tr1 + upload_attempts tr2.
Proof. unfold upload_attempts. now rewrite filter_app, length_app. Qed.

Lemma parse_calls_app (tr1 tr2 : list event) :
  parse_calls (tr1 ++ tr2) = parse_calls tr1 + parse_calls tr2.
Proof. unfold parse_calls. now rewrite filter_app, length_app. Qed.

Lemma logs_at_app (lv : level) (tr1 tr2 : list event) :
  logs_at lv (tr1 ++ tr2) = logs_at lv tr1 + logs_at lv tr2.
Proof. unfold logs_at. now rewrite filter_app, length_app. Qed.

Lemma upload_attempts_cons (e : event) (tr : list event) :
  upload_attempts (e :: tr)
  = (if is_upload e then 1 else 0) + upload_attempts tr.
Proof.
  unfold upload_attempts. rewrite filter_cons.
  destruct (is_upload e); case_decide; try congruence; reflexivity.
Qed.

Lemma parse_calls_cons (e : event) (tr : list event) :
  parse_calls (e :: tr) = (if is_parse e then 1 else 0) + parse_calls tr.
Proof.
  unfold parse_calls. rewrite filter_cons.
  destruct (is_parse e); case_decide; try congruence; reflexivity.
Qed.

Lemma logs_at_cons (lv : level) (e : event) (tr : list event) :
  logs_at lv (e :: tr) = (if is_log lv e then 1 else 0) + logs_at lv tr.
Proof.
  unfold logs_at. rewrite filter_cons.
  destruct (is_log lv e); case_decide; try congruence; reflexivity.
Qed.

Lemma upload_attempts_retry root n blocks k :
  upload_attempts (retry_events root n blocks k) = k.
Proof.
  induction k as [|k IH]; [reflexivity|].
  cbn [retry_events]. rewrite !upload_attempts_cons, IH. reflexivity.
Qed.

Lemma logs_at_warning_retry root n blocks k :
  logs_at WARNING (retry_events root n blocks k) = k.
Proof.
  induction k as [|k IH]; [reflexivity|].
  cbn [retry_events]. rewrite !logs_at_cons, IH. reflexivity.
Qed.

Lemma parse_calls_retry root n blocks k :
  parse_calls (retry_events root n blocks k) = 0.
Proof.
  induction k as [|k IH]; [reflexivity|].
  cbn [retry_events]. rewrite !parse_calls_cons, IH. reflexivity.
Qed.

Lemma upload_attempts_nil : upload_attempts [] = 0.
Proof. reflexivity. Qed.
Lemma parse_calls_nil : parse_calls [] = 0.
Proof. reflexivity. Qed.
Lemma logs_at_nil (lv : level) : logs_at lv [] = 0.
Proof. reflexivity. Qed.

(** Counting the events of a trace given by appends and literals. *)
Ltac count_events :=
  repeat progress
    rewrite ?upload_attempts_app, ?parse_calls_app, ?logs_at_app,
      ?upload_attempts_retry, ?logs_at_warning_retry, ?parse_calls_retry,
      ?upload_attempts_cons, ?parse_calls_cons, ?logs_at_cons,
      ?upload_attempts_nil, ?parse_calls_nil, ?logs_at_nil;
  cbn [is_upload is_parse is_log].

(** Projections of a state built by the setters. *)
Ltac state_simpl :=
  unfold tokens, parsed_state, copied_state, add_trace;
  cbn [fst snd trace self fs heap set_self set_semaphore set_done_hashes
       set_notebook_notes_count set_heap set_trace set_fs semaphore done_hashes
       rules import_root mode parallelism notebook_notes_count
       BoundedSemaphore.value BoundedSemaphore.initial_value].

Lemma deref_Some (l : nat) (n : EvernoteNote) (st : State) :
  heap st !! l = Some n -> deref l st = (Return n, st).
Proof. intros H. unfold deref. now rewrite H. Qed.

Lemma add_trace_add_trace (e1 e2 : list event) (st : State) :
  add_trace e2 (add_trace e1 st) = add_trace (e1 ++ e2) st.
Proof. unfold add_trace, set_trace. cbn. now rewrite app_assoc. Qed.

Lemma logger_run (lv : level) (msg : string) (st : State) :
  logger lv msg st = (Return tt, add_trace [Log lv msg] st).
Proof. reflexivity. Qed.

Lemma heap_add_trace (evs : list event) (st : State) :
  heap (add_trace evs st) = heap st.
Proof. reflexivity. Qed.

Lemma trace_add_trace (evs : list event) (st : State) :
  trace (add_trace evs st) = trace st ++ evs.
Proof. reflexivity. Qed.

Lemma bind_run {A B} (m : M A) (k : A -> M B) (a : A) (st st1 : State) :
  m st = (Return a, st1) -> bind m k st = k a st1.
Proof. intros H. unfold bind. now rewrite H. Qed.

Lemma bind_raise {A B} (m : M A) (k : A -> M B) (e : exn) (st st1 : State) :
  m st = (Raise e, st1) -> bind m k st = (Raise e, st1).
Proof. intros H. unfold bind. now rewrite H. Qed.

Section PipelineFacts.

Context `{C : Collab.t}.

Lemma call_upload_run root l n blocks st :
  heap st !! l = Some n ->
  call_upload root l blocks st
  = (Collab.upload_note (upload_attempts (trace st)) root n blocks,
     add_trace [CallUpload root n blocks] st).
Proof. intros H. unfold call_upload, bind. now rewrite (deref_Some l n). Qed.

Lemma retry_warning_run l n st :
  heap st !! l = Some n ->
  retry_warning l st = (Return tt, add_trace [Log WARNING (retry_msg n)] st).
Proof.
  intros Hl. unfold retry_warning.
  now rewrite (bind_run _ _ n st st (deref_Some l n st Hl)).
Qed.

(** The retry loop from attempt number [a] on: the first [k] calls raise
    [NoteUploadFailException]; the next one either ends the loop (it
    returns, or raises something else) or is attempt 4. *)
Lemma _upload_note_loop_run root l n blocks o k : forall a st,
  heap st !! l = Some n ->
  (forall i, i < k ->
     Collab.upload_note (upload_attempts (trace st) + i) root n blocks
     = Raise NoteUploadFailException) ->
  Collab.upload_note (upload_attempts (trace st) + k) root n blocks = o ->
  (caught o = false /\ a + k < 5) \/ a + k = 4 ->
  _upload_note_loop (seq a (5 - a)) root l blocks st
  = (o, add_trace (retry_events root n blocks k ++ [CallUpload root n blocks]) st).
Proof.
  induction k as [|k IH]; intros a st Hl Hfail Ho Hbound.
  - assert (Hseq : 5 - a = S (4 - a)) by lia. rewrite Hseq. cbn [seq _upload_note_loop].
    unfold try_except. rewrite (call_upload_run _ _ n) by assumption.
    rewrite Nat.add_0_r in Ho. rewrite Ho. cbn [retry_events app].
    destruct o as [[]|e]; [reflexivity|].
    destruct (is_NoteUploadFail e) eqn:He; [|reflexivity].
    destruct Hbound as [[Hc _] | Ha]; [cbn in Hc; congruence|].
    replace a with 4 by lia. reflexivity.
  - assert (Hseq : 5 - a = S (5 - S a)) by lia. rewrite Hseq. cbn [seq _upload_note_loop].
    unfold try_except. rewrite (call_upload_run _ _ n) by assumption.
    rewrite <- (Nat.add_0_r (upload_attempts (trace st))), (Hfail 0) by lia.
    cbn [is_NoteUploadFail].
    destruct (Nat.eqb_spec a 4) as [->|_]; [lia|].
    unfold bind at 1. unfold retry_warning, bind at 1.
    rewrite (deref_Some l n) by exact Hl.
    rewrite logger_run, add_trace_add_trace. cbn [app].
    change (Log WARNING _) with (Log WARNING (retry_msg n)).
    assert (Hcount : upload_attempts
              (trace (add_trace [CallUpload root n blocks;
                                 Log WARNING (retry_msg n)] st))
            = S (upload_attempts (trace st))).
    { rewrite trace_add_trace, upload_attempts_app, !upload_attempts_cons.
      cbn. lia. }
    rewrite (IH (S a)); cycle 1.
    + exact Hl.
    + intros i Hi. rewrite Hcount, <- (Hfail (S i)) by lia. f_equal. lia.
    + rewrite Hcount, <- Ho. f_equal. lia.
    + destruct Hbound as [[Hc Hlt] | Heq];
        [left; split; [exact Hc | lia] | right; lia].
    + rewrite add_trace_add_trace. reflexivity.
Qed.

Lemma caught_true (o : outcome unit) :
  caught o = true -> o = Raise NoteUploadFailException.
Proof. destruct o as [[]|[]]; cbn; congruence. Qed.

(** Where the loop stops, whatever the collaborator does: at the first
    call that does not raise [NoteUploadFailException], or at attempt 4. *)
Lemma first_uncaught (f : nat -> outcome unit) (m : nat) : forall a c0,
  a + m = 4 ->
  exists k,
    (forall i, i < k -> f (c0 + i) = Raise NoteUploadFailException)
    /\ ((caught (f (c0 + k)) = false /\ a + k < 5) \/ a + k = 4).
Proof.
  induction m as [|m IH]; intros a c0 Ha.
  - exists 0. split; [intros i Hi; lia | right; lia].
  - destruct (caught (f c0)) eqn:Hc.
    + destruct (IH (S a) (S c0)) as (k & Hfail & Hstop); [lia|].
      exists (S k). split.
      * intros [|i] Hi; [rewrite Nat.add_0_r; now apply caught_true|].
        replace (c0 + S i) with (S c0 + i) by lia. apply Hfail. lia.
      * replace (c0 + S k) with (S c0 + k) by lia.
        destruct Hstop as [[Hc' Hlt] | Heq];
          [left; split; [exact Hc' | lia] | right; lia].
    + exists 0. rewrite Nat.add_0_r. split; [intros i Hi; lia|].
      left. split; [exact Hc | lia].
Qed.

Lemma _upload_note_inv root l n blocks st :
  heap st !! l = Some n ->
  exists k,
    k < 5
    /\ (forall i, i < k ->
          Collab.upload_note (upload_attempts (trace st) + i) root n blocks
          = Raise NoteUploadFailException)
    /\ (caught (Collab.upload_note (upload_attempts (trace st) + k) root n blocks)
        = false \/ k = 4)
    /\ _upload_note root l blocks st
       = (Collab.upload_note (upload_attempts (trace st) + k) root n blocks,
          add_trace (retry_events root n blocks k ++ [CallUpload root n blocks])
                    st).
Proof.
  intros Hl.
  destruct (first_uncaught
              (fun i => Collab.upload_note i root n blocks) 4 0
              (upload_attempts (trace st)) eq_refl)
    as (k & Hfail & Hstop).
  exists k. split; [|split; [exact Hfail | split]].
  - destruct Hstop as [[_ ?]|?]; lia.
  - destruct Hstop as [[? _]|?]; [now left | right; lia].
  - unfold _upload_note. change (seq 0 5) with (seq 0 (5 - 0)).
    now apply (_upload_note_loop_run root l n blocks _ k).
Qed.

Lemma ledger_contains_run (h : string) (st : State) :
  ledger_contains h st = (Return (bool_decide (h ∈ tokens st)), st).
Proof.
  unfold ledger_contains, tokens.
  destruct (done_hashes (self st)); reflexivity.
Qed.

Lemma title_with_tag (r : Rules) (n : EvernoteNote) :
  title (with_tag r n) = title n.
Proof.
  unfold with_tag. destruct (truthy_tag r); [|reflexivity].
  case_bool_decide; reflexivity.
Qed.

Lemma content_with_tag (r : Rules) (n : EvernoteNote) :
  content (with_tag r n) = content n.
Proof.
  unfold with_tag. destruct (truthy_tag r); [|reflexivity].
  case_bool_decide; reflexivity.
Qed.

Lemma note_hash_with_tag (r : Rules) (n : EvernoteNote) :
  note_hash (with_tag r n) = note_hash n.
Proof.
  unfold with_tag. destruct (truthy_tag r); [|reflexivity].
  case_bool_decide; reflexivity.
Qed.

Lemma apply_tag_rule_run (l : nat) (n : EvernoteNote) (st : State) :
  heap st !! l = Some n ->
  EnexUploader.apply_tag_rule l st
  = (Return tt,
     set_heap (<[l := with_tag (rules (self st)) n]> (heap st)) st).
Proof.
  intros Hl. unfold EnexUploader.apply_tag_rule, bind, with_tag.
  rewrite (deref_Some l n) by exact Hl.
  destruct (truthy_tag (rules (self st))) as [t|].
  - case_bool_decide.
    + rewrite insert_id by exact Hl. destruct st; reflexivity.
    + unfold tags_append, bind. now rewrite (deref_Some l n).
  - rewrite insert_id by exact Hl. destruct st; reflexivity.
Qed.

(** The pipeline of a note that is not in the ledger, up to the result of
    the translation. *)
Lemma upload_note_run root l idx n st :
  heap st !! l = Some n ->
  note_hash n ∉ tokens st ->
  let n' := with_tag (rules (self st)) n in
  let st1 := parsed_state l n st in
  EnexUploader.upload_note root l idx st
  = match Collab.parse_note n' (rules (self st)) with
    | Return [] => (Return tt, add_trace [Log DEBUG (skip_empty_msg n)] st1)
    | Return (b :: bs) =>
        match root with
        | None => (Return tt, st1)
        | Some r =>
            (_upload_note r l (b :: bs) ;; ledger_add (note_hash n))
              (add_trace
                 [Log INFO (uploading_msg idx (notebook_notes_count (self st)) n)]
                 st1)
        end
    | Raise e =>
        if is_Exception e
        then (Return tt,
              add_trace [Log ERROR (parse_fail_msg n); Log DEBUG (exn_str e);
                         Log DEBUG (skip_empty_msg n)] st1)
        else (Raise e, st1)
    end.
Proof.
  intros Hl Hnew n' st1.
  unfold EnexUploader.upload_note.
  unfold bind at 1. rewrite (deref_Some l n) by exact Hl.
  unfold bind at 1. rewrite ledger_contains_run.
  rewrite bool_decide_eq_false_2 by exact Hnew.
  unfold bind at 1. rewrite (apply_tag_rule_run l n) by exact Hl.
  set (st0 := set_heap _ st).
  assert (Hl0 : heap st0 !! l = Some n') by apply lookup_insert_eq.
  unfold bind at 1. rewrite (deref_Some l n') by exact Hl0.
  unfold bind at 1. rewrite logger_run.
  unfold bind at 1. unfold EnexUploader._parse_note, try_except.
  unfold call_parse, bind at 1.
  rewrite (deref_Some l n') by exact Hl0.
  change (set_trace _ (add_trace _ st0)) with
    (add_trace [CallParse n' (rules (self st))]
       (add_trace [Log DEBUG ("Parsing note '" +:+ title n' +:+ "'")] st0)).
  rewrite add_trace_add_trace. cbn [app].
  change (rules (self (add_trace _ st0))) with (rules (self st)).
  assert (Hst1 : add_trace
            [Log DEBUG ("Parsing note '" +:+ title n' +:+ "'");
             CallParse n' (rules (self st))] st0 = st1).
  { unfold st1, parsed_state, parsing_msg, n'. now rewrite title_with_tag. }
  rewrite Hst1.
  assert (Hl1 : heap st1 !! l = Some n') by apply lookup_insert_eq.
  destruct (Collab.parse_note n' (rules (self st))) as [[|b bs]|e].
  - rewrite logger_run. unfold skip_empty_msg, n'. now rewrite title_with_tag.
  - destruct root as [r|]; [|reflexivity].
    unfold bind at 1. rewrite logger_run.
    change (notebook_notes_count (self st1))
      with (notebook_notes_count (self st)).
    unfold uploading_msg, n'. rewrite title_with_tag.
    set (st2 := add_trace _ st1).
    assert (Hl2 : heap st2 !! l = Some n') by exact Hl1.
    destruct (_upload_note_inv r l n' (b :: bs) st2 Hl2)
      as (k & _ & _ & _ & Hrun).
    unfold bind. rewrite Hrun.
    destruct (Collab.upload_note _ r n' (b :: bs)) as [[]|e]; [|reflexivity].
    rewrite (deref_Some l n') by exact Hl2.
    unfold n'. now rewrite note_hash_with_tag.
  - destruct (is_Exception e); [|reflexivity].
    unfold bind at 1. rewrite (deref_Some l n') by exact Hl1.
    unfold bind at 1. rewrite logger_run.
    unfold bind at 1. rewrite logger_run.
    unfold ret. rewrite logger_run, !add_trace_add_trace. cbn [app].
    unfold parse_fail_msg, skip_empty_msg, n'. now rewrite title_with_tag.
Qed.





(** [self.done_hashes.add(h)]: the token is in the set however the call
    ends; the file gets its line when the call returns, and the call
    raises, with the files as they were, when the file cannot be opened. *)
Lemma ledger_add_run (h : string) (st : State) :
  let r := ledger_add h st in
  r.1 = add_outcome st
  /\ tokens r.2 = {[h]} ∪ tokens st
  /\ fs r.2 = fs_after_add h st
  /\ heap r.2 = heap st /\ trace r.2 = trace st
  /\ semaphore (self r.2) = semaphore (self st).
Proof.
  unfold ledger_add, tokens, fs_after_add, add_outcome, ledger_blocked.
  destruct (done_hashes (self st)) as [d|s];
    [|cbn; repeat split; reflexivity].
  destruct (missing_dir (DoneFile.path d) (fs st)) eqn:Hdir.
  - rewrite add_fail by exact Hdir. cbn. repeat split; reflexivity.
  - rewrite add_ok by exact Hdir. cbn. repeat split; reflexivity.
Qed.

(** The upload stage when the call number [k] ends the loop. *)
Lemma upload_stage_run root l n blocks h k st :
  heap st !! l = Some n ->
  (forall i, i < k ->
     Collab.upload_note (upload_attempts (trace st) + i) root n blocks
     = Raise NoteUploadFailException) ->
  (caught (Collab.upload_note (upload_attempts (trace st) + k) root n blocks)
   = false /\ k < 5) \/ k = 4 ->
  let st' := add_trace (retry_events root n blocks k
                        ++ [CallUpload root n blocks]) st in
  (_upload_note root l blocks ;; ledger_add h) st
  = match Collab.upload_note (upload_attempts (trace st) + k) root n blocks with
    | Return _ => ledger_add h st'
    | Raise e => (Raise e, st')
    end.
Proof.
  intros Hl Hfail Hstop st'. unfold bind, _upload_note.
  change (seq 0 5) with (seq 0 (5 - 0)).
  rewrite (_upload_note_loop_run root l n blocks _ k 0 st Hl Hfail eq_refl)
    by exact Hstop.
  fold st'. destruct (Collab.upload_note _ root n blocks) as [[]|e]; reflexivity.
Qed.

Lemma copy_loc_fresh (st : State) : heap st !! copy_loc st = None.
Proof.
  unfold copy_loc. apply (not_elem_of_dom (D := gset nat)).
  apply (is_fresh (dom (heap st))).
Qed.

Lemma deepcopy_run (l : nat) (n : EvernoteNote) (st : State) :
  heap st !! l = Some n ->
  deepcopy l st = (Return (copy_loc st), copied_state l n st).
Proof. intros Hl. unfold deepcopy, bind. now rewrite (deref_Some l n). Qed.

Lemma semaphore_release_run (st : State) :
  let s := semaphore (self st) in
  semaphore_release 1 st
  = if (BoundedSemaphore.initial_value s <? BoundedSemaphore.value s + 1)%nat
    then (Raise (ValueError "Semaphore released too many times"), st)
    else (Return tt,
          set_self (set_semaphore
                      (BoundedSemaphore.mk (BoundedSemaphore.value s + 1)
                         (BoundedSemaphore.initial_value s)) (self st)) st).
Proof.
  intros s. unfold semaphore_release, BoundedSemaphore.release.
  change (1 <? 1)%nat with false. cbv iota. fold s.
  destruct (BoundedSemaphore.initial_value s <? BoundedSemaphore.value s + 1)%nat;
    [|reflexivity].
  unfold s. destruct st as [f h t u]; destruct u as [? ? ? ? ? ? []]; reflexivity.
Qed.

Lemma upload_note_with_release_run root l idx n st :
  heap st !! l = Some n ->
  EnexUploader.upload_note_with_release root l idx st
  = try_finally
      (fun _ => EnexUploader.upload_note root (copy_loc st) idx
                  (copied_state l n st))
      (semaphore_release 1) st.
Proof.
  intros Hl. unfold EnexUploader.upload_note_with_release, try_finally, bind.
  now rewrite (deepcopy_run l n).
Qed.

Lemma retry_events_about root n blocks k :
  Forall (about_note n) (retry_events root n blocks k).
Proof.
  induction k as [|k IH]; cbn [retry_events]; repeat constructor; exact IH.
Qed.

(** Every run of the pipeline on a note that is not in the ledger: what it
    appends to the trace after the translation call, and the two ways it
    can leave the ledger: untouched, or with the token added after an
    upload call that returned, the run ending as that [add] does. *)
Lemma upload_note_shape root l idx n st :
  heap st !! l = Some n ->
  note_hash n ∉ tokens st ->
  let n' := with_tag (rules (self st)) n in
  let r := EnexUploader.upload_note root l idx st in
  exists evs,
    trace r.2 = trace st ++ [Log DEBUG (parsing_msg n);
                             CallParse n' (rules (self st))] ++ evs
    /\ parse_calls evs = 0
    /\ heap r.2 = <[l := n']> (heap st)
    /\ Forall (about_note n') evs
    /\ ((self r.2 = self st /\ fs r.2 = fs st
         /\ (upload_attempts evs = 0
             \/ exists c b bs e,
                  root = Some c
                  /\ Collab.parse_note n' (rules (self st)) = Return (b :: bs)
                  /\ r.1 = Raise e))
        \/ (exists c b bs,
              root = Some c
              /\ Collab.parse_note n' (rules (self st)) = Return (b :: bs)
              /\ r.1 = add_outcome st
              /\ last evs = Some (CallUpload c n' (b :: bs))
              /\ Collab.upload_note (upload_attempts (trace r.2) - 1) c n' (b :: bs)
                 = Return tt
              /\ tokens r.2 = {[note_hash n]} ∪ tokens st
              /\ fs r.2 = fs_after_add (note_hash n) st
              /\ semaphore (self r.2) = semaphore (self st))).
Proof.
  intros Hl Hnew n' r. unfold r.
  rewrite (upload_note_run root l idx n st Hl Hnew). fold n'.
  destruct (Collab.parse_note n' (rules (self st))) as [[|b bs]|e] eqn:Hparse.
  - exists [Log DEBUG (skip_empty_msg n)]. state_simpl.
    rewrite <- app_assoc. repeat split; try reflexivity.
    + repeat constructor.
    + left. repeat split; auto.
  - destruct root as [c|].
    + set (st2 := add_trace _ (parsed_state l n st)).
      assert (Hl2 : heap st2 !! l = Some n') by apply lookup_insert_eq.
      destruct (_upload_note_inv c l n' (b :: bs) st2 Hl2)
        as (k & Hk & _ & _ & Hrun).
      unfold bind. rewrite Hrun.
      set (st3 := add_trace _ st2).
      assert (Htr3 : trace st3
                     = trace st ++ [Log DEBUG (parsing_msg n);
                                    CallParse n' (rules (self st))]
                       ++ (Log INFO (uploading_msg idx
                                       (notebook_notes_count (self st)) n)
                           :: retry_events c n' (b :: bs) k
                           ++ [CallUpload c n' (b :: bs)])).
      { unfold st3, st2. state_simpl. now rewrite <- !app_assoc. }
      assert (Hev : Forall (about_note n')
                      (Log INFO (uploading_msg idx
                                   (notebook_notes_count (self st)) n)
                       :: retry_events c n' (b :: bs) k
                       ++ [CallUpload c n' (b :: bs)])).
      { constructor; [exact I|]. apply Forall_app. split.
        - apply retry_events_about.
        - repeat constructor. }
      assert (Hpc : parse_calls
                      (Log INFO (uploading_msg idx
                                   (notebook_notes_count (self st)) n)
                       :: retry_events c n' (b :: bs) k
                       ++ [CallUpload c n' (b :: bs)]) = 0)
        by (count_events; lia).
      assert (Hidx : upload_attempts (trace st3) - 1
                     = upload_attempts (trace st2) + k).
      { unfold st3. rewrite trace_add_trace. count_events. lia. }
      destruct (Collab.upload_note (upload_attempts (trace st2) + k) c n' (b :: bs))
        as [[]|e] eqn:Hup.
      * destruct (ledger_add_run (note_hash n) st3)
          as (Ho & Htok & Hfs & Hheap & Htr & Hsem).
        eexists.
        split; [rewrite Htr; exact Htr3|]. split; [exact Hpc|].
        split; [rewrite Hheap; reflexivity|]. split; [exact Hev|].
        right. exists c, b, bs.
        rewrite Ho, Htok, Hfs, Hsem, Htr, Hidx, Hup.
        repeat split; try reflexivity.
        change (?x :: ?a ++ ?b) with ((x :: a) ++ b). apply last_snoc.
      * eexists. cbn [fst snd]. rewrite Htr3.
        split; [reflexivity|]. split; [exact Hpc|].
        split; [reflexivity|]. split; [exact Hev|].
        left. repeat split; try reflexivity. right. exists c, b, bs, e.
        auto.
    + exists []. state_simpl. rewrite <- ?app_assoc, ?app_nil_r.
      repeat split; try reflexivity; [constructor|].
      left. repeat split; auto.
  - destruct (is_Exception e).
    + exists [Log ERROR (parse_fail_msg n); Log DEBUG (exn_str e);
              Log DEBUG (skip_empty_msg n)].
      state_simpl. rewrite <- ?app_assoc, ?app_nil_r.
      repeat split; try reflexivity.
      * repeat constructor.
      * left. repeat split; auto.
    + exists []. state_simpl. rewrite <- ?app_assoc, ?app_nil_r.
      repeat split; try reflexivity; [constructor|].
      left. repeat split; auto.
Qed.

(** The [finally] clause of the worker touches the semaphore only. *)
Lemma release_frame (body : M unit) (st : State) :
  let b := body st in
  let w := try_finally body (semaphore_release 1) st in
  heap w.2 = heap b.2 /\ trace w.2 = trace b.2 /\ fs w.2 = fs b.2
  /\ done_hashes (self w.2) = done_hashes (self b.2)
  /\ (BoundedSemaphore.value (semaphore (self b.2))
      < BoundedSemaphore.initial_value (semaphore (self b.2)) ->
      w.1 = b.1
      /\ BoundedSemaphore.value (semaphore (self w.2))
         = BoundedSemaphore.value (semaphore (self b.2)) + 1).
Proof.
  cbv zeta. unfold try_finally. destruct (body st) as [o st1].
  rewrite semaphore_release_run. cbv zeta.
  destruct (Nat.ltb_spec
              (BoundedSemaphore.initial_value (semaphore (self st1)))
              (BoundedSemaphore.value (semaphore (self st1)) + 1));
    state_simpl; repeat split; try reflexivity; lia.
Qed.

End PipelineFacts.

(** ** Claims on one run of the pipeline *)

Section PipelineClaims.

Context `{C : Collab.t}.

Lemma upload_note_done_run root l idx n st :
  heap st !! l = Some n ->
  note_hash n ∈ tokens st ->
  EnexUploader.upload_note root l idx st
  = (Return tt, add_trace [Log DEBUG (skip_done_msg n)] st).
Proof.
  intros Hl Hin. unfold EnexUploader.upload_note.
  unfold bind at 1. rewrite (deref_Some l n) by exact Hl.
  unfold bind at 1. rewrite ledger_contains_run.
  rewrite bool_decide_eq_true_2 by exact Hin. apply logger_run.
Qed.

(** The state in which the upload stage of a note begins. *)
Lemma upload_note_at_upload root l idx n b bs st :
  heap st !! l = Some n ->
  note_hash n ∉ tokens st ->
  let n' := with_tag (rules (self st)) n in
  Collab.parse_note n' (rules (self st)) = Return (b :: bs) ->
  exists st2,
    EnexUploader.upload_note (Some root) l idx st
    = (_upload_note root l (b :: bs) ;; ledger_add (note_hash n)) st2
    /\ heap st2 = <[l := n']> (heap st)
    /\ upload_attempts (trace st2) = upload_attempts (trace st)
    /\ logs_at WARNING (trace st2) = logs_at WARNING (trace st)
    /\ self st2 = self st
    /\ fs st2 = fs st.
Proof.
  intros Hl Hnew n' Hparse.
  exists (add_trace
            [Log INFO (uploading_msg idx (notebook_notes_count (self st)) n)]
            (parsed_state l n st)).
  split.
  - rewrite (upload_note_run (Some root) l idx n st Hl Hnew).
    fold n'. now rewrite Hparse.
  - state_simpl. count_events. repeat split; lia.
Qed.

(** When the 5 upload calls of a note fail, the exception leaves the
    pipeline and the ledger is as it was. *)
Lemma upload_note_exhausted root l idx n b bs st :
  heap st !! l = Some n ->
  note_hash n ∉ tokens st ->
  let n' := with_tag (rules (self st)) n in
  Collab.parse_note n' (rules (self st)) = Return (b :: bs) ->
  (forall i, i < 5 ->
     Collab.upload_note (upload_attempts (trace st) + i) root n' (b :: bs)
     = Raise NoteUploadFailException) ->
  let r := EnexUploader.upload_note (Some root) l idx st in
  r.1 = Raise NoteUploadFailException
  /\ upload_attempts (trace r.2) = upload_attempts (trace st) + 5
  /\ logs_at WARNING (trace r.2) = logs_at WARNING (trace st) + 4
  /\ self r.2 = self st
  /\ fs r.2 = fs st
  /\ heap r.2 = <[l := n']> (heap st).
Proof.
  intros Hl Hnew n' Hparse Hfail r.
  destruct (upload_note_at_upload root l idx n b bs st Hl Hnew Hparse)
    as (st2 & Hr & Hheap & Hc2 & Hw2 & Hself & Hfs).
  fold r in Hr. fold n' in Hheap.
  assert (Hl2 : heap st2 !! l = Some n')
    by (rewrite Hheap; apply lookup_insert_eq).
  rewrite (upload_stage_run root l n' (b :: bs) _ 4 st2 Hl2) in Hr;
    rewrite ?Hc2; [|intros i Hi; apply Hfail; lia | now right].
  rewrite Hc2, (Hfail 4) in Hr by lia.
  rewrite Hr. cbn [fst snd].
  rewrite trace_add_trace. count_events. rewrite Hc2, Hw2.
  state_simpl. repeat split; try assumption; lia.
Qed.

(** C2: a note whose token is already in the ledger makes the pipeline
    return at once: the translation and the upload are not called, the
    note object keeps its tags, the ledger and its file are unchanged; one
    debug record is logged. *)
Theorem C2_already_done root l idx n st :
  heap st !! l = Some n ->
  note_hash n ∈ tokens st ->
  let r := EnexUploader.upload_note root l idx st in
  r.1 = Return tt
  /\ trace r.2 = trace st ++ [Log DEBUG (skip_done_msg n)]
  /\ parse_calls (trace r.2) = parse_calls (trace st)
  /\ upload_attempts (trace r.2) = upload_attempts (trace st)
  /\ heap r.2 = heap st
  /\ self r.2 = self st
  /\ fs r.2 = fs st.
Proof.
  intros Hl Hin r.
  assert (Hr : r = (Return tt, add_trace [Log DEBUG (skip_done_msg n)] st))
    by now apply upload_note_done_run.
  rewrite Hr. cbn [fst snd]. rewrite trace_add_trace. count_events.
  repeat split; lia.
Qed.



(** C8: only [NoteUploadFailException] is retried: an upload call that
    raises another exception ends [_upload_note] with that exception, with
    no further call and no warning for it: at the first attempt after one
    call and no warning at all, after [k] retried failures after [k + 1]
    calls and [k] warnings; and whatever the collaborator does, every call
    that was followed by another one had raised
    [NoteUploadFailException]. *)
Theorem C8_only_upload_failure_retried root l n blocks e st :
  heap st !! l = Some n ->
  is_NoteUploadFail e = false ->
  let c0 := upload_attempts (trace st) in
  let r := _upload_note root l blocks st in
  (Collab.upload_note c0 root n blocks = Raise e ->
   r = (Raise e, add_trace [CallUpload root n blocks] st)
   /\ upload_attempts (trace r.2) = c0 + 1
   /\ logs_at WARNING (trace r.2) = logs_at WARNING (trace st))
  /\ (forall k, k < 5 ->
        (forall i, i < k ->
           Collab.upload_note (c0 + i) root n blocks
           = Raise NoteUploadFailException) ->
        Collab.upload_note (c0 + k) root n blocks = Raise e ->
        r.1 = Raise e
        /\ upload_attempts (trace r.2) = c0 + (k + 1)
        /\ logs_at WARNING (trace r.2) = logs_at WARNING (trace st) + k)
  /\ (exists k, k < 5
        /\ upload_attempts (trace r.2) = c0 + (k + 1)
        /\ logs_at WARNING (trace r.2) = logs_at WARNING (trace st) + k
        /\ forall i, i < k ->
             Collab.upload_note (c0 + i) root n blocks
             = Raise NoteUploadFailException).
Proof.
  intros Hl He c0 r.
  assert (Hgen : forall k, k < 5 ->
            (forall i, i < k ->
               Collab.upload_note (c0 + i) root n blocks
               = Raise NoteUploadFailException) ->
            Collab.upload_note (c0 + k) root n blocks = Raise e ->
            r = (Raise e,
                 add_trace (retry_events root n blocks k
                            ++ [CallUpload root n blocks]) st)).
  { intros k Hk Hfail Hraise. unfold r, _upload_note.
    change (seq 0 5) with (seq 0 (5 - 0)).
    apply (_upload_note_loop_run root l n blocks _ k 0 st Hl Hfail Hraise).
    left. split; [exact He | lia]. }
  split; [|split].
  - intros Hraise.
    rewrite (Hgen 0); [|lia | intros i Hi; lia | now rewrite Nat.add_0_r].
    cbn [retry_events app fst snd]. rewrite trace_add_trace. count_events.
    repeat split; lia.
  - intros k Hk Hfail Hraise. rewrite (Hgen k Hk Hfail Hraise).
    cbn [fst snd]. rewrite trace_add_trace. count_events.
    repeat split; lia.
  - destruct (_upload_note_inv root l n blocks st Hl)
      as (k & Hk & Hfail & _ & Hrun).
    exists k. fold r in Hrun. rewrite Hrun. cbn [fst snd].
    rewrite trace_add_trace. count_events. fold c0.
    repeat split; try lia. exact Hfail.
Qed.


Lemma with_tag_tags (r : Rules) (T : string) (n : EvernoteNote) :
  tag r = Some T -> T <> EmptyString ->
  (T ∉ tags n -> tags (with_tag r n) = tags n ++ [T])
  /\ (T ∈ tags n -> with_tag r n = n)
  /\ count_occ string_dec (tags (with_tag r n)) T
     = Nat.max 1 (count_occ string_dec (tags n) T).
Proof.
  intros Htag Hne. unfold with_tag, truthy_tag. rewrite Htag.
  destruct T as [|c T]; [congruence|].
  case_bool_decide as Hin; (split; [|split]); try tauto.
  - apply list_elem_of_In, (count_occ_In string_dec) in Hin. lia.
  - cbn [tags]. rewrite count_occ_app. cbn [count_occ].
    destruct (string_dec _ _); [|congruence].
    rewrite list_elem_of_In, (count_occ_not_In string_dec) in Hin. lia.
Qed.

(** C7: with a forced tag [T], the worker applies the rule to its own deep
    copy: [T] is appended when the note does not have it and the tags are
    left as they are when it does, so that [T] occurs once (as often as
    before when it was already there); the translation and the upload see
    that note; the object the worker was given, and every other object,
    is unchanged. *)
Theorem C7_tag_injection root l idx n T st :
  heap st !! l = Some n ->
  note_hash n ∉ tokens st ->
  tag (rules (self st)) = Some T -> T <> EmptyString ->
  let w := EnexUploader.upload_note_with_release root l idx st in
  let l' := copy_loc st in
  exists n',
    heap w.2 = <[l' := n']> (heap st)
    /\ heap st !! l' = None
    /\ heap w.2 !! l = Some n
    /\ (forall l0, l0 <> l' -> heap w.2 !! l0 = heap st !! l0)
    /\ (note_hash n' = note_hash n /\ title n' = title n
        /\ content n' = content n)
    /\ (T ∉ tags n -> tags n' = tags n ++ [T])
    /\ (T ∈ tags n -> tags n' = tags n)
    /\ count_occ string_dec (tags n') T
       = Nat.max 1 (count_occ string_dec (tags n) T)
    /\ (count_occ string_dec (tags n) T <= 1 ->
        count_occ string_dec (tags n') T = 1)
    /\ Forall (about_note n') (drop (length (trace st)) (trace w.2)).
Proof.
  intros Hl Hnew Htag Hne w l'.
  exists (with_tag (rules (self st)) n).
  destruct (with_tag_tags _ T n Htag Hne) as (Habs & Hpres & Hcount).
  assert (Hfresh : heap st !! l' = None) by apply copy_loc_fresh.
  assert (Hll' : l <> l') by congruence.
  unfold w. rewrite (upload_note_with_release_run root l idx n st Hl).
  destruct (release_frame
              (fun _ => EnexUploader.upload_note root (copy_loc st) idx
                          (copied_state l n st)) st)
    as (Hheap & Htr & _).
  cbv zeta in Hheap, Htr. rewrite Hheap, Htr.
  assert (Hlc : heap (copied_state l n st) !! l' = Some n)
    by apply lookup_insert_eq.
  pose proof (upload_note_shape root l' idx n (copied_state l n st) Hlc Hnew)
    as Hshape.
  cbv zeta in Hshape. destruct Hshape as (evs & Htr' & _ & Hheap' & Hev & _).
  fold l'. rewrite Hheap', Htr'.
  change (rules (self (copied_state l n st))) with (rules (self st)) in *.
  change (heap (copied_state l n st)) with (<[l' := n]> (heap st)).
  change (trace (copied_state l n st)) with (trace st).
  rewrite insert_insert_eq, drop_app_length.
  repeat split.
  - exact Hfresh.
  - rewrite lookup_insert_ne by congruence. exact Hl.
  - intros l0 Hl0. now rewrite lookup_insert_ne by congruence.
  - apply note_hash_with_tag.
  - apply title_with_tag.
  - apply content_with_tag.
  - exact Habs.
  - intros Hin. now rewrite (Hpres Hin).
  - exact Hcount.
  - intros Hle. rewrite Hcount. lia.
  - repeat constructor. exact Hev.
Qed.

(** When all 5 upload calls of a note raise [NoteUploadFailException], the
    worker's target releases its slot and ends by raising it; the ledger
    and its file are unchanged, and so is every object but the copy. *)
Lemma exhausted_upload_worker root l idx n b bs st :
  heap st !! l = Some n ->
  note_hash n ∉ tokens st ->
  let n' := with_tag (rules (self st)) n in
  Collab.parse_note n' (rules (self st)) = Return (b :: bs) ->
  (forall i, i < 5 ->
     Collab.upload_note (upload_attempts (trace st) + i) root n' (b :: bs)
     = Raise NoteUploadFailException) ->
  BoundedSemaphore.value (semaphore (self st))
  < BoundedSemaphore.initial_value (semaphore (self st)) ->
  let w := EnexUploader.upload_note_with_release (Some root) l idx st in
  w.1 = Raise NoteUploadFailException
  /\ BoundedSemaphore.value (semaphore (self w.2))
     = BoundedSemaphore.value (semaphore (self st)) + 1
  /\ upload_attempts (trace w.2) = upload_attempts (trace st) + 5
  /\ done_hashes (self w.2) = done_hashes (self st)
  /\ fs w.2 = fs st
  /\ (forall l0, l0 <> copy_loc st -> heap w.2 !! l0 = heap st !! l0).
Proof.
  intros Hl Hnew n' Hparse Hfail Hslot w.
  unfold w. rewrite (upload_note_with_release_run (Some root) l idx n st Hl).
  destruct (release_frame
              (fun _ => EnexUploader.upload_note (Some root) (copy_loc st) idx
                          (copied_state l n st)) st)
    as (Hheap & Htr & Hfs & Hdone & Hrel).
  cbv zeta in Hheap, Htr, Hfs, Hdone, Hrel.
  assert (Hlc : heap (copied_state l n st) !! copy_loc st = Some n)
    by apply lookup_insert_eq.
  destruct (upload_note_exhausted root (copy_loc st) idx n b bs
              (copied_state l n st) Hlc Hnew Hparse Hfail)
    as (Ho & Hcount & _ & _ & Hfs' & Hheap').
  pose proof (upload_note_shape (Some root) (copy_loc st) idx n
                (copied_state l n st) Hlc Hnew) as Hshape.
  cbv zeta in Hshape.
  destruct Hshape as (evs & _ & _ & _ & _ & [(Hself & _) | Hadd]); cycle 1.
  { destruct Hadd as (c & b' & bs' & Hroot & Hp & Hret & Hrest).
  rewrite Ho in Hret. unfold add_outcome in Hret.
  destruct (ledger_blocked _); discriminate. }
  rewrite Hself in Hrel, Hdone. destruct (Hrel Hslot) as (Hw1 & Hw2).
  rewrite Hw1, Hw2, Ho, Htr, Hcount, Hdone, Hfs, Hfs', Hheap, Hheap'.
  repeat split; try reflexivity.
  intros l0 Hl0.
  change (heap (copied_state l n st)) with (<[copy_loc st := n]> (heap st)).
  now rewrite insert_insert_eq, lookup_insert_ne by congruence.
Qed.

End PipelineClaims.

(** ** The dispatch of worker threads *)


Section Preserves.

Context (R : State -> State -> Prop) `{!PreOrder R}.

Lemma preserves_ret {A} (a : A) : preserves R (ret a).
Proof. intros st. reflexivity. Qed.

Lemma preserves_raise {A} (e : exn) : preserves R (raise (A := A) e).
Proof. intros st. reflexivity. Qed.

Lemma preserves_bind {A B} (m : M A) (k : A -> M B) :
  preserves R m -> (forall a, preserves R (k a)) -> preserves R (bind m k).
Proof.
  intros Hm Hk st. unfold bind. specialize (Hm st).
  destruct (m st) as [[a|e] st1]; cbn in *; [|exact Hm].
  etransitivity; [exact Hm | apply Hk].
Qed.

Lemma preserves_try_except {A} (m : M A) handles (h : exn -> M A) :
  preserves R m -> (forall e, preserves R (h e)) ->
  preserves R (try_except m handles h).
Proof.
  intros Hm Hh st. unfold try_except. specialize (Hm st).
  destruct (m st) as [[a|e] st1]; cbn in *; [exact Hm|].
  destruct (handles e); [|exact Hm].
  etransitivity; [exact Hm | apply Hh].
Qed.

Lemma preserves_deref (l : nat) : preserves R (deref l).
Proof. intros st. unfold deref. destruct (heap st !! l); reflexivity. Qed.

Lemma preserves_ledger_contains (h : string) : preserves R (ledger_contains h).
Proof.
  intros st. unfold ledger_contains.
  destruct (done_hashes (self st)); reflexivity.
Qed.

Lemma preserves_if {A} (b : bool) (m1 m2 : M A) :
  preserves R m1 -> preserves R m2 -> preserves R (if b then m1 else m2).
Proof. destruct b; auto. Qed.

End Preserves.


(** What the steps of the pipeline before the upload keep, for a relation
    that is kept by logging and by the append of a tag. *)
Section Frame.

Context `{C : Collab.t} (R : State -> State -> Prop) `{!PreOrder R}.

Hypothesis R_event : forall st e,
  is_upload e = false -> R st (add_trace [e] st).
Hypothesis R_tags : forall st l n t,
  heap st !! l = Some n ->
  R st (set_heap (<[l := mkNote (note_hash n) (title n) (tags n ++ [t])
                            (content n)]> (heap st)) st).

Lemma frame_logger lv msg : preserves R (logger lv msg).
Proof. intros st. now apply (R_event st (Log lv msg)). Qed.

Lemma frame_call_parse l : preserves R (call_parse l).
Proof.
  apply preserves_bind; [apply _ | apply preserves_deref, _|].
  intros n st. now apply (R_event st (CallParse n (rules (self st)))).
Qed.

Lemma frame_retry_warning l : preserves R (retry_warning l).
Proof.
  apply preserves_bind; [apply _ | apply preserves_deref, _|].
  intros n. apply frame_logger.
Qed.

Lemma frame_tags_append (l : nat) (t : string) : preserves R (tags_append l t).
Proof.
  intros st. unfold tags_append, bind, deref.
  destruct (heap st !! l) as [n|] eqn:Hl; [|reflexivity].
  now apply R_tags.
Qed.

Lemma frame_apply_tag_rule l : preserves R (EnexUploader.apply_tag_rule l).
Proof.
  apply preserves_bind; [apply _ | apply preserves_deref, _|].
  intros n st. destruct (truthy_tag (rules (self st))); [|reflexivity].
  case_bool_decide; [reflexivity | apply frame_tags_append].
Qed.

Lemma frame__parse_note l : preserves R (EnexUploader._parse_note l).
Proof.
  apply preserves_try_except; [apply _ | apply frame_call_parse |].
  intros e. apply preserves_bind; [apply _ | apply preserves_deref, _|].
  intros n.
  repeat (apply preserves_bind; [apply _ | apply frame_logger |]; intros _).
  apply preserves_ret, _.
Qed.

Lemma frame_check_ledger l : preserves R (Dispatch.check_ledger l).
Proof.
  apply preserves_bind; [apply _ | apply preserves_deref, _|]. intros n.
  apply preserves_bind; [apply _ | apply preserves_ledger_contains, _|].
  intros [|]; [|apply preserves_ret, _].
  apply preserves_bind; [apply _ | apply frame_logger |]. intros _.
  apply preserves_ret, _.
Qed.

Lemma frame_translate root l idx :
  preserves R (Dispatch.translate root l idx).
Proof.
  apply preserves_bind; [apply _ | apply frame_apply_tag_rule |]. intros _.
  apply preserves_bind; [apply _ | apply preserves_deref, _|]. intros n.
  apply preserves_bind; [apply _ | apply frame_logger |]. intros _.
  apply preserves_bind; [apply _ | apply frame__parse_note |].
  intros [|b bs].
  - apply preserves_bind; [apply _ | apply frame_logger |]. intros _.
    apply preserves_ret, _.
  - destruct root as [r|]; [|apply preserves_ret, _].
    apply preserves_bind; [apply _ | |intros _; apply preserves_ret, _].
    intros st. apply frame_logger.
Qed.

End Frame.

#[local] Instance same_config_preorder : PreOrder same_config.
Proof.
  split.
  - intros st. repeat split.
  - intros a b c (H1 & H2 & H3 & H4 & H5) (K1 & K2 & K3 & K4 & K5).
    repeat split; congruence.
Qed.

#[local] Instance keeps_alloc_preorder : PreOrder keeps_alloc.
Proof.
  split.
  - intros st l H. exact H.
  - intros a b c H1 H2 l H. apply H2, H1, H.
Qed.

Section ConfigFrame.

Context `{C : Collab.t}.

Lemma config_event st e :
  is_upload e = false -> same_config st (add_trace [e] st).
Proof. repeat split. Qed.

Lemma config_tags st l (n : EvernoteNote) (t : string) :
  heap st !! l = Some n ->
  same_config st
    (set_heap (<[l := mkNote (note_hash n) (title n) (tags n ++ [t])
                             (content n)]> (heap st)) st).
Proof. repeat split. Qed.

Lemma config_deepcopy (l : nat) : preserves same_config (deepcopy l).
Proof.
  apply preserves_bind; [apply _ | apply preserves_deref, _|].
  intros n st. repeat split.
Qed.

Lemma config_ledger_add (h : string) : preserves same_config (ledger_add h).
Proof.
  intros st. unfold ledger_add.
  destruct (done_hashes (self st)) as [d|s]; [|repeat split].
  destruct (DoneFile.add h d (fs st)) as [o [d' fs']]. repeat split.
Qed.

Lemma config_logger lv msg : preserves same_config (logger lv msg).
Proof. apply frame_logger, config_event. Qed.

Lemma config_call_upload root l blocks :
  preserves same_config (call_upload root l blocks).
Proof.
  apply preserves_bind; [apply _ | apply preserves_deref, _|].
  intros n st. repeat split.
Qed.

Lemma config_retry_warning l : preserves same_config (retry_warning l).
Proof. apply frame_retry_warning; [apply _ | apply config_event]. Qed.

Lemma config_check_ledger l : preserves same_config (Dispatch.check_ledger l).
Proof. apply frame_check_ledger; [apply _ | apply config_event]. Qed.

Lemma config_translate root l idx :
  preserves same_config (Dispatch.translate root l idx).
Proof.
  apply frame_translate; [apply _ | apply config_event | apply config_tags].
Qed.

Lemma alloc_event st e :
  is_upload e = false -> keeps_alloc st (add_trace [e] st).
Proof. intros _ l H. exact H. Qed.

Lemma alloc_tags st l (n : EvernoteNote) (t : string) :
  heap st !! l = Some n ->
  keeps_alloc st
    (set_heap (<[l := mkNote (note_hash n) (title n) (tags n ++ [t])
                             (content n)]> (heap st)) st).
Proof.
  intros Hl l0 H. cbn [heap set_heap].
  destruct (decide (l0 = l)) as [->|Hne];
    [rewrite lookup_insert_eq; eauto | now rewrite lookup_insert_ne].
Qed.

Lemma alloc_check_ledger l : preserves keeps_alloc (Dispatch.check_ledger l).
Proof. apply frame_check_ledger; [apply _ | apply alloc_event]. Qed.

Lemma alloc_translate root l idx :
  preserves keeps_alloc (Dispatch.translate root l idx).
Proof.
  apply frame_translate; [apply _ | apply alloc_event | apply alloc_tags].
Qed.

End ConfigFrame.

Section Slots.

Context `{C : Collab.t}.

Import Dispatch.

(** A step of a worker and the semaphore: only the [finally] clause
    touches it, and that is the step that ends the thread. *)
Lemma worker_step_slots (w : worker) (st st' : State) (pc : worker_pc) :
  worker_step w st = Some (pc, st') ->
  let sem := semaphore (self st) in
  let sem' := semaphore (self st') in
  active w = true
  /\ parallelism (self st') = parallelism (self st)
  /\ BoundedSemaphore.initial_value sem' = BoundedSemaphore.initial_value sem
  /\ ((active (set_pc pc w) = true /\ sem' = sem
       /\ forall o, w_pc w <> WFinally o)
      \/ (exists o, w_pc w = WFinally o
           /\ active (set_pc pc w) = false
           /\ (BoundedSemaphore.value sem < BoundedSemaphore.initial_value sem ->
               pc = WDone o
               /\ BoundedSemaphore.value sem' = BoundedSemaphore.value sem + 1)
           /\ (BoundedSemaphore.initial_value sem <= BoundedSemaphore.value sem ->
               sem' = sem))).
Proof.
  intros Hstep sem sem'. unfold worker_step in Hstep.
  assert (Hframe : forall A (m : M A) o,
            preserves same_config m -> m st = (o, st') ->
            parallelism (self st') = parallelism (self st)
            /\ BoundedSemaphore.initial_value sem'
               = BoundedSemaphore.initial_value sem
            /\ sem' = sem).
  { intros A m o Hm Heq. specialize (Hm st). rewrite Heq in Hm.
    destruct Hm as (Hs & Hp & _). unfold sem, sem'. cbn in Hs, Hp.
    now rewrite Hs, Hp. }
  destruct (w_pc w) as [|l|l|r l blocks attempt|l|o|o] eqn:Hpc;
    [| | | | | |discriminate];
    unfold active; rewrite Hpc; (split; [reflexivity|]).
  - destruct (deepcopy (w_note w) st) as [[l|e] st1] eqn:Hrun;
      injection Hstep as <- <-;
      destruct (Hframe _ _ _ (config_deepcopy _) Hrun) as (Hp & Hi & Hs);
      (split; [exact Hp | split; [exact Hi | left; repeat split; auto; discriminate]]).
  - destruct (check_ledger l st) as [[[|]|e] st1] eqn:Hrun;
      injection Hstep as <- <-;
      destruct (Hframe _ _ _ (config_check_ledger _) Hrun) as (Hp & Hi & Hs);
      (split; [exact Hp | split; [exact Hi | left; repeat split; auto; discriminate]]).
  - destruct (translate (w_root w) l (w_idx w) st) as [[[[r b]|]|e] st1] eqn:Hrun;
      injection Hstep as <- <-;
      destruct (Hframe _ _ _ (config_translate _ _ _) Hrun) as (Hp & Hi & Hs);
      (split; [exact Hp | split; [exact Hi | left; repeat split; auto; discriminate]]).
  - destruct (call_upload r l blocks st) as [[[]|e] st1] eqn:Hrun.
    + injection Hstep as <- <-.
      destruct (Hframe _ _ _ (config_call_upload _ _ _) Hrun) as (Hp & Hi & Hs).
      split; [exact Hp | split; [exact Hi | left; repeat split; auto; discriminate]].
    + assert (Hrun2 : (try_except (call_upload r l blocks) (fun _ => true)
                         (fun _ => retry_warning l)) st
                      = retry_warning l st1)
        by (unfold try_except; now rewrite Hrun).
      assert (Hcfg2 : preserves same_config
                        (try_except (call_upload r l blocks) (fun _ => true)
                           (fun _ => retry_warning l))).
      { apply preserves_try_except; [apply _ | apply config_call_upload |].
        intros _. apply config_retry_warning. }
      destruct (is_NoteUploadFail e);
        [destruct (attempt =? 4)%nat;
         [|destruct (retry_warning l st1) as [[[]|e'] st2] eqn:Hw]|];
        injection Hstep as <- <-.
      * destruct (Hframe _ _ _ (config_call_upload _ _ _) Hrun) as (Hp & Hi & Hs).
        split; [exact Hp | split; [exact Hi | left; repeat split; auto; discriminate]].
      * destruct (Hframe _ _ _ Hcfg2 Hrun2) as (Hp & Hi & Hs).
        split; [exact Hp | split; [exact Hi | left; repeat split; auto; discriminate]].
      * destruct (Hframe _ _ _ Hcfg2 Hrun2) as (Hp & Hi & Hs).
        split; [exact Hp | split; [exact Hi | left; repeat split; auto; discriminate]].
      * destruct (Hframe _ _ _ (config_call_upload _ _ _) Hrun) as (Hp & Hi & Hs).
        split; [exact Hp | split; [exact Hi | left; repeat split; auto; discriminate]].
  - destruct ((n <- deref l ;; ledger_add (note_hash n)) st) as [o st1] eqn:Hrun.
    injection Hstep as <- <-.
    assert (Hcfg : preserves same_config
                     (n <- deref l ;; ledger_add (note_hash n))).
    { apply preserves_bind; [apply _ | apply preserves_deref, _|].
      intros n. apply config_ledger_add. }
    destruct (Hframe _ _ _ Hcfg Hrun) as (Hp & Hi & Hs).
    split; [exact Hp | split; [exact Hi | left; repeat split; auto; discriminate]].
  - rewrite semaphore_release_run in Hstep. cbv zeta in Hstep. fold sem in Hstep.
    destruct (Nat.ltb_spec (BoundedSemaphore.initial_value sem)
                (BoundedSemaphore.value sem + 1)) as [Hfull | Hfree];
      injection Hstep as <- <-; unfold sem'; state_simpl;
      (split; [reflexivity | split; [reflexivity|]]);
      right; exists o; (split; [reflexivity|]); (split; [reflexivity|]);
      split; intros Hv; try lia; auto.
Qed.

Lemma active_count_app (ws : list worker) (w : worker) :
  active_count (ws ++ [w]) = active_count ws + (if active w then 1 else 0).
Proof.
  unfold active_count. rewrite filter_app, length_app, filter_cons.
  destruct (active w); case_decide; try congruence; reflexivity.
Qed.

Lemma active_count_cons (w : worker) (ws : list worker) :
  active_count (w :: ws) = (if active w then 1 else 0) + active_count ws.
Proof.
  unfold active_count. rewrite filter_cons.
  destruct (active w); case_decide; try congruence; reflexivity.
Qed.

Lemma active_count_insert (ws : list worker) (i : nat) (w w' : worker) :
  ws !! i = Some w ->
  active_count (<[i := w']> ws) + (if active w then 1 else 0)
  = active_count ws + (if active w' then 1 else 0).
Proof.
  revert i. induction ws as [|x ws IH]; intros [|i] Hi; try discriminate.
  - change (Some x = Some w) in Hi. injection Hi as ->.
    change (<[0 := w']> (w :: ws)) with (w' :: ws).
    rewrite !active_count_cons. lia.
  - change (ws !! i = Some w) in Hi.
    change (<[S i := w']> (x :: ws)) with (x :: <[i := w']> ws).
    rewrite !active_count_cons. specialize (IH i Hi). lia.
Qed.

Lemma active_count_zero (ws : list worker) :
  active_count ws = 0 <-> Forall (fun w => active w = false) ws.
Proof.
  induction ws as [|w ws IH]; [split; [constructor | reflexivity]|].
  rewrite active_count_cons, Forall_cons. destruct (active w).
  - split; [lia | intros [? _]; discriminate].
  - rewrite <- IH. split; [intros H; split; [reflexivity | lia] | intros [_ H]; lia].
Qed.

Lemma active_count_member (ws : list worker) (i : nat) (w : worker) :
  ws !! i = Some w -> active w = true -> 0 < active_count ws.
Proof.
  intros Hi Hw. destruct (active_count ws) eqn:Hc; [|lia].
  apply active_count_zero in Hc.
  rewrite Forall_lookup in Hc. specialize (Hc i w Hi). congruence.
Qed.

Lemma start_notebook_config (f : string) :
  preserves same_config (start_notebook f).
Proof.
  apply preserves_bind; [apply _ | apply config_logger |]. intros _.
  apply preserves_bind; [apply _ | intros st; repeat split |]. intros _.
  intros st. unfold EnexUploader._get_notebook_root.
  destruct (import_root (self st)); [|reflexivity].
  destruct (if String.eqb _ _ then _ else _); reflexivity.
Qed.

Lemma semaphore_acquire_Some (st st' : State) :
  semaphore_acquire st = Some st' ->
  BoundedSemaphore.value (semaphore (self st))
  = S (BoundedSemaphore.value (semaphore (self st')))
  /\ BoundedSemaphore.initial_value (semaphore (self st'))
     = BoundedSemaphore.initial_value (semaphore (self st))
  /\ parallelism (self st') = parallelism (self st).
Proof.
  unfold semaphore_acquire, BoundedSemaphore.acquire.
  destruct (BoundedSemaphore.value (semaphore (self st))) as [|v];
    [discriminate|].
  intros [= <-]. repeat split.
Qed.

(** The accounting of the slots is kept by every step. *)
Lemma slots_inv_step (p : nat) (s s' : system) :
  slots_inv p s -> step s s' -> slots_inv p s'.
Proof.
  intros (Hp & Hi & Hsum & Hpc) [[|i] Hstep].
  - unfold step_thread, coord_step in Hstep. unfold slots_inv.
    destruct s as [st c ws]. cbn [shared coord workers] in *.
    destruct c as [f|root [|n pending] idx|root l pending idx
                   |root l pending idx|[|j]| |o].
    + pose proof (start_notebook_config f st) as (Hs & Hpar & _).
      destruct (start_notebook f st) as [[root|e] st1];
        injection Hstep as <-; cbn [shared coord workers held snd] in *;
        rewrite Hs, Hpar; repeat split; auto.
    + injection Hstep as <-. cbn [shared coord workers held] in *.
      repeat split; auto; lia.
    + injection Hstep as <-. cbn [shared coord workers held] in *.
      state_simpl. repeat split; auto.
    + destruct (semaphore_acquire st) as [st1|] eqn:Hacq; [|discriminate].
      injection Hstep as <-. cbn [shared coord workers held] in *.
      apply semaphore_acquire_Some in Hacq as (Hv & Hi' & Hp').
      rewrite Hi', Hp'. repeat split; auto; lia.
    + injection Hstep as <-. cbn [shared coord workers held] in *.
      rewrite active_count_app. cbn [active w_pc].
      repeat split; auto; lia.
    + injection Hstep as <-. cbn [shared coord workers held] in *.
      repeat split; auto; lia.
    + destruct (semaphore_acquire st) as [st1|] eqn:Hacq; [|discriminate].
      injection Hstep as <-. cbn [shared coord workers held] in *.
      apply semaphore_acquire_Some in Hacq as (Hv & Hi' & Hp').
      rewrite Hi', Hp'. repeat split; auto; lia.
    + unfold semaphore_release, BoundedSemaphore.release in Hstep.
      cbn [held] in Hsum.
      destruct (parallelism (self st) <? 1)%nat eqn:Hlt.
      * injection Hstep as <-. cbn [shared coord workers held] in *.
        state_simpl. apply Nat.ltb_lt in Hlt. repeat split; auto; lia.
      * destruct (Nat.ltb_spec
                    (BoundedSemaphore.initial_value (semaphore (self st)))
                    (BoundedSemaphore.value (semaphore (self st))
                     + parallelism (self st))) as [Hover|Hfit];
          injection Hstep as <-; cbn [shared coord workers held] in *;
          state_simpl; repeat split; auto; lia.
    + discriminate.
  - unfold step_thread in Hstep.
    destruct (workers s !! i) as [w|] eqn:Hw; [|discriminate].
    destruct (worker_step w (shared s)) as [[pc st1]|] eqn:Hws; [|discriminate].
    injection Hstep as <-.
    pose proof (worker_step_slots w (shared s) st1 pc Hws) as Hslots.
    cbv zeta in Hslots. destruct Hslots as (Hact & Hpar & Hini & Hcase).
    pose proof (active_count_insert (workers s) i w (set_pc pc w) Hw) as Hins.
    pose proof (active_count_member (workers s) i w Hw Hact) as Hpos.
    rewrite Hact in Hins.
    unfold slots_inv. cbn [shared coord workers].
    rewrite Hpar, Hini.
    destruct Hcase as [(Hact' & Hsem & _) | (o & Hfin & Hact' & Hfree & _)].
    + rewrite Hact' in Hins. rewrite Hsem.
      repeat split; auto; [lia|].
      destruct (coord s); auto; lia.
    + rewrite Hact' in Hins.
      destruct Hfree as (_ & Hv); [lia|]. rewrite Hv.
      repeat split; auto; [lia|].
      destruct (coord s); auto; lia.
Qed.

Lemma slots_inv_ready (s : system) :
  ready s -> slots_inv (parallelism (self (shared s))) s.
Proof.
  intros ([f Hc] & Hdone & Hv & Hi). unfold slots_inv. rewrite Hc.
  apply active_count_zero in Hdone. cbn [held].
  repeat split; auto. lia.
Qed.

Lemma slots_inv_rtc (p : nat) (s s' : system) :
  slots_inv p s -> reachable s s' -> slots_inv p s'.
Proof.
  intros Hinv Hreach. induction Hreach as [s|s1 s2 s3 Hstep _ IH].
  - exact Hinv.
  - apply IH. eapply slots_inv_step; eassumption.
Qed.

Lemma slots_inv_reachable (s0 s : system) :
  ready s0 -> reachable s0 s -> slots_inv (parallelism (self (shared s0))) s.
Proof. intros Hready. apply slots_inv_rtc. now apply slots_inv_ready. Qed.

(** A worker that has not ended can always move. *)
Lemma worker_step_active (w : worker) (st : State) :
  active w = true -> exists pc st', worker_step w st = Some (pc, st').
Proof.
  unfold active, worker_step. intros Hact.
  destruct (w_pc w) as [|l|l|r l blocks attempt|l|o|o]; [..|discriminate].
  - destruct (deepcopy _ st) as [[]]; eauto.
  - destruct (check_ledger l st) as [[[|]|]]; eauto.
  - destruct (translate _ l _ st) as [[[[]|]|]]; eauto.
  - destruct (call_upload r l blocks st) as [[|e] st1]; eauto.
    destruct (is_NoteUploadFail e); eauto.
    destruct (attempt =? 4)%nat; eauto.
    destruct (retry_warning l st1) as [[]]; eauto.
  - destruct ((n <- deref l ;; ledger_add (note_hash n)) st); eauto.
  - destruct (semaphore_release 1 st) as [[]]; eauto.
Qed.

Lemma active_count_pos (ws : list worker) :
  0 < active_count ws -> exists i w, ws !! i = Some w /\ active w = true.
Proof.
  induction ws as [|x ws IH]; [cbn; lia|].
  rewrite active_count_cons. destruct (active x) eqn:Hx.
  - intros _. exists 0, x. auto.
  - intros Hpos. destruct IH as (i & w & Hi & Hw); [lia|].
    exists (S i), w. auto.
Qed.

(** With at least one slot, the threads never wait for each other for
    ever: until [upload_notebook] has returned, some thread can move. *)
Lemma slots_progress (p : nat) (s : system) :
  0 < p -> slots_inv p s -> ~ finished s -> exists s', step s s'.
Proof.
  intros Hp (Hpar & Hini & Hsum & Hpc) Hnot.
  assert (Hworker : 0 < active_count (workers s) -> exists s', step s s').
  { intros Hpos. destruct (active_count_pos _ Hpos) as (i & w & Hi & Hw).
    destruct (worker_step_active w (shared s) Hw) as (pc & st' & Hstep).
    eexists. exists (Thread i). unfold step_thread. rewrite Hi, Hstep.
    reflexivity. }
  assert (Hmain : forall s', coord_step s = Some s' -> exists s', step s s')
    by (intros s' H; exists s', Main; exact H).
  assert (Hacq : 0 < BoundedSemaphore.value (semaphore (self (shared s))) ->
                 exists st', semaphore_acquire (shared s) = Some st').
  { unfold semaphore_acquire, BoundedSemaphore.acquire.
    destruct (BoundedSemaphore.value _); [lia | eauto]. }
  unfold coord_step in Hmain.
  destruct (coord s) as [f|root [|n pending] idx|root l pending idx
                         |root l pending idx|[|j]| |o] eqn:Hc;
    cbn [held] in Hsum.
  - destruct (start_notebook f (shared s)) as [[]]; eauto.
  - eauto.
  - eauto.
  - destruct (Nat.eq_dec (BoundedSemaphore.value
                            (semaphore (self (shared s)))) 0) as [Hz | Hnz].
    + apply Hworker. lia.
    + destruct Hacq as [st' Hst']; [lia|]. rewrite Hst' in Hmain. eauto.
  - eauto.
  - eauto.
  - destruct (Nat.eq_dec (BoundedSemaphore.value
                            (semaphore (self (shared s)))) 0) as [Hz | Hnz].
    + apply Hworker. lia.
    + destruct Hacq as [st' Hst']; [lia|]. rewrite Hst' in Hmain. eauto.
  - destruct (semaphore_release _ (shared s)). eauto.
  - exfalso. apply Hnot. now exists o.
Qed.

(** C9: from a call of [upload_notebook] on a ready uploader with
    parallelism [p], in every state that the threads can reach in any
    interleaving: at most [p] workers are between their start and the
    release of their slot (the free slots, the running workers and the
    slots in the main thread's hands add up to [p]); a worker that has left
    its body, by a return or by an exception, releases its slot in its next
    step and only then ends; when [upload_notebook] has returned, every
    worker has ended, the semaphore is full again and the uploader is ready
    for the next call; and with [p >= 1] some thread can move as long as
    [upload_notebook] has not returned. *)
Theorem C9_bounded_concurrency (s0 s : system) :
  ready s0 -> reachable s0 s ->
  let p := parallelism (self (shared s0)) in
  let sem := semaphore (self (shared s)) in
  active_count (workers s) <= p
  /\ BoundedSemaphore.value sem + active_count (workers s)
     + held (coord s) p = p
  /\ (forall i w o, workers s !! i = Some w -> w_pc w = WFinally o ->
        exists st',
          step_thread (Thread i) s
          = Some (mkSystem st' (coord s) (<[i := set_pc (WDone o) w]> (workers s)))
          /\ BoundedSemaphore.value (semaphore (self st'))
             = BoundedSemaphore.value sem + 1
          /\ active_count (<[i := set_pc (WDone o) w]> (workers s)) + 1
             = active_count (workers s))
  /\ (forall i w w' s', workers s !! i = Some w ->
        step_thread (Thread i) s = Some s' ->
        workers s' !! i = Some w' -> active w' = false ->
        exists o, w_pc w = WFinally o
                  /\ BoundedSemaphore.value (semaphore (self (shared s')))
                     = BoundedSemaphore.value sem + 1)
  /\ (finished s ->
      Forall (fun w => active w = false) (workers s)
      /\ BoundedSemaphore.value sem = p
      /\ forall f, ready (mkSystem (shared s) (CStart f) (workers s)))
  /\ (0 < p -> ~ finished s -> exists s', step s s').
Proof.
  intros Hready Hreach p sem.
  pose proof (slots_inv_reachable s0 s Hready Hreach) as Hinv. fold p in Hinv.
  pose proof Hinv as (Hpar & Hini & Hsum & Hpc). fold sem in Hini, Hsum.
  split; [lia|]. split; [exact Hsum|]. split; [|split; [|split]].
  - intros i w o Hi Hw.
    pose proof (active_count_member (workers s) i w Hi) as Hpos.
    unfold active in Hpos. rewrite Hw in Hpos. specialize (Hpos eq_refl).
    unfold step_thread, worker_step. rewrite Hi, Hw, semaphore_release_run.
    cbv zeta. fold sem.
    destruct (Nat.ltb_spec (BoundedSemaphore.initial_value sem)
                (BoundedSemaphore.value sem + 1)) as [Hfull|Hfree]; [lia|].
    eexists. split; [reflexivity|]. split; [reflexivity|].
    pose proof (active_count_insert (workers s) i w (set_pc (WDone o) w) Hi)
      as Hins.
    unfold active in Hins at 1 2. rewrite Hw in Hins. cbn in Hins. lia.
  - intros i w w' s' Hi Hstep Hi' Hw'. unfold step_thread in Hstep.
    rewrite Hi in Hstep.
    destruct (worker_step w (shared s)) as [[pc st1]|] eqn:Hws; [|discriminate].
    injection Hstep as <-. cbn [workers shared] in *.
    rewrite list_lookup_insert_eq in Hi' by (eapply lookup_lt_Some; eassumption).
    injection Hi' as <-.
    pose proof (worker_step_slots w (shared s) st1 pc Hws) as Hslots.
    cbv zeta in Hslots. destruct Hslots as (Hact & _ & _ & Hcase).
    pose proof (active_count_member (workers s) i w Hi Hact) as Hpos.
    destruct Hcase as [(Hact' & _) | (o & Hfin & _ & Hfree & _)]; [congruence|].
    exists o. split; [exact Hfin|]. fold sem in Hfree. apply Hfree. lia.
  - intros [o Ho]. rewrite Ho in Hpc, Hsum. cbn [held] in Hsum.
    split; [now apply active_count_zero|]. split; [lia|].
    intros f. unfold ready. cbn [coord shared workers].
    split; [eauto|]. split; [now apply active_count_zero|].
    fold sem. split; lia.
  - intros Hp Hnot. now apply (slots_progress p).
Qed.

Lemma run_schedule_reachable (sched : list tid) (s : system) :
  reachable s (run_schedule sched s).
Proof.
  revert s. induction sched as [|t sched IH]; intros s; [apply rtc_refl|].
  cbn [run_schedule]. destruct (step_thread t s) as [s'|] eqn:Hstep; [|apply IH].
  eapply rtc_l; [exists t; exact Hstep | apply IH].
Qed.

(** A step of a thread changes the position of that thread only. *)
Lemma step_thread_frame (i : nat) (s s' : system) :
  step_thread (Thread i) s = Some s' ->
  coord s' = coord s
  /\ length (workers s') = length (workers s)
  /\ forall j, j <> i -> workers s' !! j = workers s !! j.
Proof.
  unfold step_thread. intros Hstep.
  destruct (workers s !! i) as [w|]; [|discriminate].
  destruct (worker_step w (shared s)) as [[pc st']|]; [|discriminate].
  injection Hstep as <-. cbn [coord workers].
  split; [reflexivity|]. split; [apply length_insert|].
  intros j Hj. now apply list_lookup_insert_ne.
Qed.

End Slots.

(** ** A worker alone runs [upload_note_with_release] *)

Section WorkerAlone.

Context `{C : Collab.t}.

Import Dispatch.

Lemma set_pc_set_pc (a b : worker_pc) (w : worker) :
  set_pc a (set_pc b w) = set_pc a w.
Proof. reflexivity. Qed.

Lemma run_worker_S fuel (w : worker) (st : State) :
  run_worker (S fuel) w st
  = match worker_step w st with
    | Some (pc, st') => run_worker fuel (set_pc pc w) st'
    | None => (w, st)
    end.
Proof. reflexivity. Qed.

Lemma run_worker_done fuel (w : worker) (st : State) o :
  w_pc w = WDone o -> run_worker fuel w st = (w, st).
Proof.
  intros Hpc. destruct fuel; [reflexivity|].
  rewrite run_worker_S. unfold worker_step. now rewrite Hpc.
Qed.

Lemma reaches_refl (w : worker) (st : State) :
  reaches_in 0 w st (w_pc w) st.
Proof.
  exists 0. split; [lia|]. intros fuel. destruct w; reflexivity.
Qed.

(** One step, then the rest. *)
Lemma reaches_step k (w : worker) st pc1 st1 pc st' :
  worker_step w st = Some (pc1, st1) ->
  reaches_in k (set_pc pc1 w) st1 pc st' ->
  reaches_in (S k) w st pc st'.
Proof.
  intros Hstep (j & Hj & Hrun). exists (S j). split; [lia|].
  intros fuel. change (S j + fuel) with (S (j + fuel)).
  rewrite run_worker_S, Hstep, Hrun. reflexivity.
Qed.

Lemma reaches_weaken k k' (w : worker) st pc st' :
  k <= k' -> reaches_in k w st pc st' -> reaches_in k' w st pc st'.
Proof. intros Hk (j & Hj & Hrun). exists j. split; [lia | exact Hrun]. Qed.

Lemma worker_step_commit (w : worker) l n st :
  w_pc w = WCommit l -> heap st !! l = Some n ->
  worker_step w st
  = Some (WFinally (ledger_add (note_hash n) st).1,
          (ledger_add (note_hash n) st).2).
Proof.
  intros Hpc Hl. unfold worker_step. rewrite Hpc. unfold bind.
  rewrite (deref_Some l n) by exact Hl.
  now destruct (ledger_add (note_hash n) st).
Qed.

(** The turns of the loop of [_upload_note] from attempt [a] on, and the
    commit: the worker gets to its [finally] clause with their result. *)
Lemma reaches_upload (w : worker) r l n blocks (m : nat) :
  forall a st,
    a + m = 4 -> heap st !! l = Some n ->
    let res := (_upload_note_loop (seq a (5 - a)) r l blocks ;;
                (n <- deref l ;; ledger_add (note_hash n))) st in
    reaches_in (m + 2) (set_pc (WUpload r l blocks a) w) st
               (WFinally res.1) res.2.
Proof.
  induction m as [|m IH]; intros a st Ha Hl res.
  - assert (a = 4) as -> by lia.
    assert (Hres : res = match Collab.upload_note (upload_attempts (trace st))
                                 r n blocks with
                         | Return _ =>
                             ledger_add (note_hash n)
                               (add_trace [CallUpload r n blocks] st)
                         | Raise e => (Raise e, add_trace [CallUpload r n blocks] st)
                         end).
    { unfold res. cbn [seq Nat.sub _upload_note_loop].
      unfold bind at 1, try_except. rewrite (call_upload_run _ _ n) by exact Hl.
      destruct (Collab.upload_note _ r n blocks) as [[]|e].
      - unfold bind. now rewrite (deref_Some l n) by exact Hl.
      - destruct (is_NoteUploadFail e); reflexivity. }
    rewrite Hres. clear Hres res.
    destruct (Collab.upload_note (upload_attempts (trace st)) r n blocks)
      as [[]|e] eqn:Hup.
    + eapply (reaches_step 1).
      { unfold worker_step. cbn [w_pc set_pc].
        rewrite (call_upload_run _ _ n), Hup by exact Hl. reflexivity. }
      eapply (reaches_step 0).
      { apply (worker_step_commit _ l n); [reflexivity | exact Hl]. }
      apply reaches_refl.
    + eapply (reaches_weaken 1); [lia|]. eapply (reaches_step 0).
      { unfold worker_step. cbn [w_pc set_pc].
        rewrite (call_upload_run _ _ n), Hup by exact Hl.
        destruct (is_NoteUploadFail e); reflexivity. }
      apply reaches_refl.
  - assert (Hseq : 5 - a = S (5 - S a)) by lia.
    assert (Ha4 : (a =? 4)%nat = false) by (apply Nat.eqb_neq; lia).
    set (st1 := add_trace [CallUpload r n blocks] st).
    set (st2 := add_trace [Log WARNING (retry_msg n)] st1).
    assert (Hl2 : heap st2 !! l = Some n) by exact Hl.
    assert (Hres : res = match Collab.upload_note (upload_attempts (trace st))
                                 r n blocks with
                         | Return _ => ledger_add (note_hash n) st1
                         | Raise e =>
                             if is_NoteUploadFail e
                             then (_upload_note_loop (seq (S a) (5 - S a)) r l blocks ;;
                                   (n <- deref l ;; ledger_add (note_hash n))) st2
                             else (Raise e, st1)
                         end).
    { unfold res. rewrite Hseq. cbn [seq _upload_note_loop].
      unfold bind at 1, try_except. rewrite (call_upload_run _ _ n) by exact Hl.
      fold st1.
      destruct (Collab.upload_note _ r n blocks) as [[]|e].
      - unfold bind. now rewrite (deref_Some l n) by exact Hl.
      - destruct (is_NoteUploadFail e); [|reflexivity].
        rewrite Ha4.
        rewrite (bind_run _ _ tt st1 st2 (retry_warning_run l n st1 Hl)).
        reflexivity. }
    rewrite Hres. clear Hres res.
    destruct (Collab.upload_note (upload_attempts (trace st)) r n blocks)
      as [[]|e] eqn:Hup.
    + eapply (reaches_weaken 2); [lia|]. eapply (reaches_step 1).
      { unfold worker_step. cbn [w_pc set_pc].
        rewrite (call_upload_run _ _ n), Hup by exact Hl. reflexivity. }
      eapply (reaches_step 0).
      { apply (worker_step_commit _ l n); [reflexivity | exact Hl]. }
      apply reaches_refl.
    + destruct (is_NoteUploadFail e) eqn:He.
      * eapply (reaches_step (m + 2)).
        { unfold worker_step. cbn [w_pc set_pc].
          rewrite (call_upload_run _ _ n), Hup, He, Ha4 by exact Hl.
          rewrite (retry_warning_run l n) by exact Hl. reflexivity. }
        rewrite set_pc_set_pc. apply (IH (S a) st2); [lia | exact Hl2].
      * eapply (reaches_weaken 1); [lia|]. eapply (reaches_step 0).
        { unfold worker_step. cbn [w_pc set_pc].
          rewrite (call_upload_run _ _ n), Hup, He by exact Hl. reflexivity. }
        apply reaches_refl.
Qed.

(** The pipeline, cut where the worker's steps are. *)
Lemma upload_note_stages root l idx st :
  EnexUploader.upload_note root l idx st
  = (found <- check_ledger l ;;
     if (found : bool) then ret tt
     else
       job <- translate root l idx ;;
       match job with
       | Some (r, blocks) =>
           _upload_note r l blocks ;;
           (n <- deref l ;; ledger_add (note_hash n))
       | None => ret tt
       end) st.
Proof.
  unfold EnexUploader.upload_note, check_ledger, translate, bind.
  destruct (deref l st) as [[n|e] st1]; [|reflexivity].
  destruct (ledger_contains (note_hash n) st1) as [[[|]|e] st2]; [| |reflexivity].
  - unfold ret. now destruct (logger _ _ st2) as [[[]|e] st3].
  - unfold ret.
    destruct (EnexUploader.apply_tag_rule l st2) as [[[]|e] st3]; [|reflexivity].
    destruct (deref l st3) as [[n'|e] st4]; [|reflexivity].
    destruct (logger DEBUG _ st4) as [[[]|e] st5]; [|reflexivity].
    destruct (EnexUploader._parse_note l st5) as [[[|b bs]|e] st6]; [| |reflexivity].
    + now destruct (logger _ _ st6) as [[[]|e] st7].
    + destruct root as [r|]; [|reflexivity].
      destruct (logger INFO _ st6) as [[[]|e] st7]; reflexivity.
Qed.

(** The body of [upload_note_with_release], step by step. *)
Lemma reaches_body (w : worker) (st : State) :
  w_pc w = WStart ->
  let res := (l <- deepcopy (w_note w) ;;
              EnexUploader.upload_note (w_root w) l (w_idx w)) st in
  reaches_in 9 w st (WFinally res.1) res.2.
Proof.
  intros Hpc res. unfold res.
  destruct (deepcopy (w_note w) st) as [[l|e] st1] eqn:Hcopy.
  2:{ rewrite (bind_raise _ _ e st st1 Hcopy).
      eapply (reaches_weaken 1); [lia|]. eapply (reaches_step 0).
      { unfold worker_step. now rewrite Hpc, Hcopy. }
      apply reaches_refl. }
  rewrite (bind_run _ _ l st st1 Hcopy).
  assert (Hl1 : is_Some (heap st1 !! l)).
  { unfold deepcopy, bind, deref in Hcopy.
    destruct (heap st !! w_note w) as [n|]; [|discriminate].
    injection Hcopy as <- <-. exists n. apply lookup_insert_eq. }
  eapply (reaches_step 8); [unfold worker_step; now rewrite Hpc, Hcopy|].
  rewrite upload_note_stages.
  pose proof (alloc_check_ledger l st1 l Hl1) as Hl2.
  destruct (check_ledger l st1) as [[[|]|e] st2] eqn:Hcheck; cbn [snd] in Hl2.
  - rewrite (bind_run _ _ true st1 st2 Hcheck).
    eapply (reaches_weaken 1); [lia|]. eapply (reaches_step 0).
    { unfold worker_step. cbn [w_pc set_pc]. now rewrite Hcheck. }
    apply reaches_refl.
  - rewrite (bind_run _ _ false st1 st2 Hcheck).
    eapply (reaches_step 7).
    { unfold worker_step. cbn [w_pc set_pc]. now rewrite Hcheck. }
    rewrite set_pc_set_pc.
    pose proof (alloc_translate (w_root w) l (w_idx w) st2 l Hl2) as Hl3.
    destruct (translate (w_root w) l (w_idx w) st2)
      as [[[[r blocks]|]|e] st3] eqn:Htr; cbn [snd] in Hl3.
    + rewrite (bind_run _ _ (Some (r, blocks)) st2 st3 Htr).
      destruct Hl3 as [n' Hl3].
      eapply (reaches_step 6).
      { unfold worker_step. cbn [w_pc set_pc w_root w_idx]. now rewrite Htr. }
      rewrite set_pc_set_pc.
      apply (reaches_upload w r l n' blocks 4 0 st3 eq_refl Hl3).
    + rewrite (bind_run _ _ None st2 st3 Htr).
      eapply (reaches_weaken 1); [lia|]. eapply (reaches_step 0).
      { unfold worker_step. cbn [w_pc set_pc w_root w_idx]. now rewrite Htr. }
      apply reaches_refl.
    + rewrite (bind_raise _ _ e st2 st3 Htr).
      eapply (reaches_weaken 1); [lia|]. eapply (reaches_step 0).
      { unfold worker_step. cbn [w_pc set_pc w_root w_idx]. now rewrite Htr. }
      apply reaches_refl.
  - rewrite (bind_raise _ _ e st1 st2 Hcheck).
    eapply (reaches_weaken 1); [lia|]. eapply (reaches_step 0).
    { unfold worker_step. cbn [w_pc set_pc]. now rewrite Hcheck. }
    apply reaches_refl.
Qed.

(** Run without interference, the steps of a worker end in [WDone] with the
    result and the state of [upload_note_with_release]. *)
Lemma run_worker_alone (w : worker) (st : State) (fuel : nat) :
  w_pc w = WStart ->
  run_worker (10 + fuel) w st
  = let res := EnexUploader.upload_note_with_release
                 (w_root w) (w_note w) (w_idx w) st in
    (set_pc (WDone res.1) w, res.2).
Proof.
  intros Hpc. cbv zeta.
  destruct (reaches_body w st Hpc) as (j & Hj & Hrun).
  replace (10 + fuel) with (j + (S (9 - j + fuel))) by lia.
  rewrite Hrun, run_worker_S.
  unfold EnexUploader.upload_note_with_release, try_finally.
  destruct ((l <- deepcopy (w_note w) ;;
             EnexUploader.upload_note (w_root w) l (w_idx w)) st)
    as [o st1].
  unfold worker_step. cbn [w_pc set_pc fst snd].
  destruct (semaphore_release 1 st1) as [[[]|e] st2];
    now erewrite run_worker_done.
Qed.

End WorkerAlone.

(** ** Failures of one note: swallowed, and not *)

(** C5, as stated, fails: when the 5 upload calls of a note fail, the target
    of the worker thread ends by raising [NoteUploadFailException]; it does
    not return, and nothing else records the failure. *)
Lemma C5_exhausted_upload_is_uncaught :
  let w := EnexUploader.upload_note_with_release (C := Sample.flaky 5)
             (Some (Page "nb")) 0 1 (Sample.running Sample.forced Sample.note1) in
  upload_attempts (trace w.2) = 5
  /\ escapes w.1
  /\ w.1 <> Return tt.
Proof.
  cbv zeta.
  assert (H : (EnexUploader.upload_note_with_release (C := Sample.flaky 5)
                 (Some (Page "nb")) 0 1
                 (Sample.running Sample.forced Sample.note1)).1
              = Raise NoteUploadFailException) by (vm_compute; reflexivity).
  split; [vm_compute; reflexivity|]. rewrite H.
  split; [now exists NoteUploadFailException | discriminate].
Qed.

Section WorkerFailures.

Context `{C : Collab.t}.

Import Dispatch.

(** C4: when the translation raises an error, the pipeline catches it,
    logs the failure at ERROR level with the note's title, and returns
    normally without an upload call and without touching the ledger or its
    file; the worker then releases its slot and its thread ends normally as
    well; and the steps of a worker change neither the position of the
    main thread nor that of another worker. *)
Theorem C4_translate_error_isolated (w : worker) n e st :
  let root := w_root w in
  let l := w_note w in
  let idx := w_idx w in
  w_pc w = WStart ->
  heap st !! l = Some n ->
  note_hash n ∉ tokens st ->
  Collab.parse_note (with_tag (rules (self st)) n) (rules (self st)) = Raise e ->
  is_Exception e = true ->
  let r := EnexUploader.upload_note root l idx st in
  let wr := EnexUploader.upload_note_with_release root l idx st in
  (r.1 = Return tt
   /\ trace r.2
      = trace st ++ [Log DEBUG (parsing_msg n);
                     CallParse (with_tag (rules (self st)) n) (rules (self st));
                     Log ERROR (parse_fail_msg n); Log DEBUG (exn_str e);
                     Log DEBUG (skip_empty_msg n)]
   /\ upload_attempts (trace r.2) = upload_attempts (trace st)
   /\ self r.2 = self st
   /\ fs r.2 = fs st)
  /\ (BoundedSemaphore.value (semaphore (self st))
      < BoundedSemaphore.initial_value (semaphore (self st)) ->
      wr.1 = Return tt
      /\ BoundedSemaphore.value (semaphore (self wr.2))
         = BoundedSemaphore.value (semaphore (self st)) + 1
      /\ upload_attempts (trace wr.2) = upload_attempts (trace st)
      /\ tokens wr.2 = tokens st
      /\ fs wr.2 = fs st
      /\ forall fuel,
           run_worker (10 + fuel) w st = (set_pc (WDone (Return tt)) w, wr.2))
  /\ (forall s s' i,
        step_thread (Thread i) s = Some s' ->
        coord s' = coord s
        /\ length (workers s') = length (workers s)
        /\ forall j, j <> i -> workers s' !! j = workers s !! j).
Proof.
  intros root l idx Hpc Hl Hnew Hparse He r wr.
  assert (Hrun : forall l0 st0, heap st0 !! l0 = Some n ->
            self st0 = self st ->
            EnexUploader.upload_note root l0 idx st0
            = (Return tt,
               add_trace [Log ERROR (parse_fail_msg n); Log DEBUG (exn_str e);
                          Log DEBUG (skip_empty_msg n)]
                         (parsed_state l0 n st0))).
  { intros l0 st0 Hl0 Hself.
    rewrite (upload_note_run root l0 idx n st0 Hl0)
      by (unfold tokens; now rewrite Hself).
    now rewrite Hself, Hparse, He. }
  split; [|split; [|intros s s' i; apply step_thread_frame]].
  - unfold r. rewrite (Hrun l st Hl eq_refl). cbn [fst snd].
    rewrite trace_add_trace. unfold parsed_state.
    rewrite trace_add_trace, <- app_assoc. cbn [trace set_heap app].
    count_events. repeat split; lia.
  - intros Hslot.
    assert (Halone : forall fuel,
              run_worker (10 + fuel) w st = (set_pc (WDone wr.1) w, wr.2))
      by (intros fuel; apply (run_worker_alone w st fuel Hpc)).
    revert Halone. unfold wr.
    rewrite (upload_note_with_release_run root l idx n st Hl).
    unfold try_finally.
    rewrite (Hrun (copy_loc st) (copied_state l n st));
      [|apply lookup_insert_eq | reflexivity].
    rewrite semaphore_release_run. cbn zeta.
    set (st' := add_trace _ _).
    change (semaphore (self st')) with (semaphore (self st)).
    destruct (Nat.ltb_spec (BoundedSemaphore.initial_value (semaphore (self st)))
                (BoundedSemaphore.value (semaphore (self st)) + 1)); [lia|].
    unfold st'. state_simpl. count_events. intros Halone.
    repeat split; try lia. exact Halone.
Qed.

(** C5 (amended): when the 5 upload calls of a note raise
    [NoteUploadFailException], the exception leaves [upload_note] and,
    after the [finally] clause has released the worker's slot, the target
    of the worker thread: the thread ends with the exception uncaught. The
    ledger and its file are unchanged and no object but the worker's copy
    is touched; the step of a thread changes neither the position of the
    main thread nor that of another worker. *)
Theorem C5_exhausted_upload_raises (w : worker) root n b bs st :
  w_pc w = WStart -> w_root w = Some root ->
  heap st !! w_note w = Some n ->
  note_hash n ∉ tokens st ->
  let n' := with_tag (rules (self st)) n in
  Collab.parse_note n' (rules (self st)) = Return (b :: bs) ->
  (forall i, i < 5 ->
     Collab.upload_note (upload_attempts (trace st) + i) root n' (b :: bs)
     = Raise NoteUploadFailException) ->
  BoundedSemaphore.value (semaphore (self st))
  < BoundedSemaphore.initial_value (semaphore (self st)) ->
  let res := EnexUploader.upload_note_with_release
               (Some root) (w_note w) (w_idx w) st in
  (res.1 = Raise NoteUploadFailException /\ escapes res.1)
  /\ BoundedSemaphore.value (semaphore (self res.2))
     = BoundedSemaphore.value (semaphore (self st)) + 1
  /\ upload_attempts (trace res.2) = upload_attempts (trace st) + 5
  /\ done_hashes (self res.2) = done_hashes (self st)
  /\ fs res.2 = fs st
  /\ (forall l0, l0 <> copy_loc st -> heap res.2 !! l0 = heap st !! l0)
  /\ (forall fuel,
        run_worker (10 + fuel) w st
        = (set_pc (WDone (Raise NoteUploadFailException)) w, res.2))
  /\ (forall s s' i,
        step_thread (Thread i) s = Some s' ->
        coord s' = coord s
        /\ length (workers s') = length (workers s)
        /\ forall j, j <> i -> workers s' !! j = workers s !! j).
Proof.
  intros Hpc Hroot Hl Hnew n' Hparse Hfail Hslot res.
  pose proof (exhausted_upload_worker root (w_note w) (w_idx w) n b bs st
                Hl Hnew Hparse Hfail Hslot) as Hworker.
  cbv zeta in Hworker. fold res in Hworker.
  destruct Hworker as (Ho & Hv & Hup & Hdone & Hfs & Hheap).
  split; [split; [exact Ho | now exists NoteUploadFailException]|].
  split; [exact Hv|]. split; [exact Hup|]. split; [exact Hdone|].
  split; [exact Hfs|]. split; [exact Hheap|]. split.
  - intros fuel. rewrite (run_worker_alone w st fuel Hpc). cbv zeta.
    rewrite Hroot. fold res. now rewrite Ho.
  - intros s s' i. apply step_thread_frame.
Qed.

End WorkerFailures.

(** ** Resuming from the ledger *)

#[local] Instance keeps_hashes_preorder : PreOrder keeps_hashes.
Proof.
  split.
  - intros st l h H. exact H.
  - intros a b c H1 H2 l h H. apply H2, H1, H.
Qed.

#[local] Instance quiet_preorder : PreOrder quiet.
Proof.
  split.
  - intros st. split; [reflexivity|]. split; [reflexivity|]. split; [reflexivity|].
    exists []. split; [now rewrite app_nil_r | constructor].
  - intros a b c (Hh1 & Hs1 & Hf1 & e1 & Ht1 & He1) (Hh2 & Hs2 & Hf2 & e2 & Ht2 & He2).
    split; [etransitivity; eassumption|].
    split; [congruence|]. split; [congruence|].
    exists (e1 ++ e2). split; [now rewrite Ht2, Ht1, app_assoc|].
    apply Forall_app. auto.
Qed.

Lemma hash_at_insert_same (st : State) (l : nat) (n n' : EvernoteNote) :
  heap st !! l = Some n -> note_hash n' = note_hash n ->
  keeps_hashes st (set_heap (<[l := n']> (heap st)) st).
Proof.
  intros Hl Hh l0 h. unfold hash_at. cbn [heap set_heap].
  destruct (decide (l0 = l)) as [->|Hne].
  - rewrite lookup_insert_eq, Hl. cbn. congruence.
  - now rewrite lookup_insert_ne.
Qed.

Lemma hash_at_insert_fresh (st : State) (l : nat) (n : EvernoteNote) :
  heap st !! l = None ->
  keeps_hashes st (set_heap (<[l := n]> (heap st)) st).
Proof.
  intros Hl l0 h. unfold hash_at. cbn [heap set_heap].
  destruct (decide (l0 = l)) as [->|Hne].
  - rewrite Hl. discriminate.
  - now rewrite lookup_insert_ne.
Qed.

Lemma keeps_hashes_same_heap (st st' : State) :
  heap st' = heap st -> keeps_hashes st st'.
Proof. intros Hh l h. unfold hash_at. now rewrite Hh. Qed.

Section Quiet.

Context `{C : Collab.t}.

Import Dispatch.

Lemma quiet_event st e : is_upload e = false -> quiet st (add_trace [e] st).
Proof.
  intros He. split; [now apply keeps_hashes_same_heap|].
  split; [reflexivity|]. split; [reflexivity|].
  exists [e]. split; [reflexivity | now constructor].
Qed.

Lemma quiet_heap st h :
  keeps_hashes st (set_heap h st) -> quiet st (set_heap h st).
Proof.
  intros Hk. split; [exact Hk|]. split; [reflexivity|]. split; [reflexivity|].
  exists []. split; [cbn; now rewrite app_nil_r | constructor].
Qed.

Lemma quiet_tags st l (n : EvernoteNote) (t : string) :
  heap st !! l = Some n ->
  quiet st (set_heap (<[l := mkNote (note_hash n) (title n) (tags n ++ [t])
                                    (content n)]> (heap st)) st).
Proof. intros Hl. apply quiet_heap. now apply (hash_at_insert_same st l n). Qed.

Lemma quiet_check_ledger l : preserves quiet (check_ledger l).
Proof. apply frame_check_ledger; [apply _ | apply quiet_event]. Qed.

Lemma quiet_translate root l idx : preserves quiet (translate root l idx).
Proof.
  apply frame_translate; [apply _ | apply quiet_event | apply quiet_tags].
Qed.

Lemma quiet_retry_warning l : preserves quiet (retry_warning l).
Proof. apply frame_retry_warning; [apply _ | apply quiet_event]. Qed.

Lemma quiet_deepcopy l : preserves quiet (deepcopy l).
Proof.
  intros st. unfold deepcopy, bind, deref.
  destruct (heap st !! l) as [n|]; [|reflexivity].
  apply quiet_heap, hash_at_insert_fresh, copy_loc_fresh.
Qed.

Lemma check_ledger_result l n st :
  heap st !! l = Some n ->
  (check_ledger l st).1 = Return (bool_decide (note_hash n ∈ tokens st)).
Proof.
  intros Hl. unfold check_ledger.
  rewrite (bind_run _ _ n st st (deref_Some l n st Hl)).
  rewrite (bind_run _ _ _ st st (ledger_contains_run _ st)).
  case_bool_decide; reflexivity.
Qed.

(** The translation step of a note that gives blocks, with a container. *)
Lemma translate_result c l idx n b bs st :
  heap st !! l = Some n ->
  Collab.parse_note (with_tag (rules (self st)) n) (rules (self st))
  = Return (b :: bs) ->
  (translate (Some c) l idx st).1 = Return (Some (c, b :: bs)).
Proof.
  intros Hl Hparse. unfold translate.
  rewrite (bind_run _ _ tt st _ (apply_tag_rule_run l n st Hl)).
  set (n' := with_tag (rules (self st)) n) in *.
  set (st0 := set_heap _ st).
  assert (Hl0 : heap st0 !! l = Some n') by apply lookup_insert_eq.
  rewrite (bind_run _ _ n' st0 st0 (deref_Some l n' st0 Hl0)).
  rewrite (bind_run _ _ tt st0 _ (logger_run _ _ st0)).
  set (st1 := add_trace _ st0).
  assert (Hp : EnexUploader._parse_note l st1
               = (Return (b :: bs),
                  add_trace [CallParse n' (rules (self st))] st1)).
  { unfold EnexUploader._parse_note, try_except, call_parse.
    rewrite (bind_run _ _ n' st1 st1 (deref_Some l n' st1 Hl0)).
    change (rules (self st1)) with (rules (self st)). now rewrite Hparse. }
  rewrite (bind_run _ _ _ st1 _ Hp).
  unfold bind, ret. now rewrite logger_run.
Qed.

Lemma quiet_calm st st' : quiet st st' -> calm st st'.
Proof.
  intros (Hh & Hs & Hf & Hev). split; [exact Hh|].
  rewrite Hs. repeat split; auto.
Qed.

Lemma calm_same st st' :
  heap st' = heap st -> trace st' = trace st -> fs st' = fs st ->
  done_hashes (self st') = done_hashes (self st) ->
  import_root (self st') = import_root (self st) ->
  rules (self st') = rules (self st) ->
  calm st st'.
Proof.
  intros Hh Ht Hf Hd Hi Hr. split; [now apply keeps_hashes_same_heap|].
  repeat split; auto. exists []. split; [now rewrite app_nil_r | constructor].
Qed.

(** The steps of a worker, one position at a time. *)
Lemma worker_step_start (w : worker) st pc st' n :
  w_pc w = WStart -> heap st !! w_note w = Some n ->
  worker_step w st = Some (pc, st') ->
  pc = WCheck (copy_loc st) /\ st' = copied_state (w_note w) n st.
Proof.
  intros Hpc Hl. unfold worker_step. rewrite Hpc, (deepcopy_run _ n) by exact Hl.
  now intros [= <- <-].
Qed.

Lemma worker_step_check (w : worker) l st pc st' n :
  w_pc w = WCheck l -> heap st !! l = Some n ->
  worker_step w st = Some (pc, st') ->
  quiet st st'
  /\ pc = if bool_decide (note_hash n ∈ tokens st)
          then WFinally (Return tt) else WParse l.
Proof.
  intros Hpc Hl. unfold worker_step. rewrite Hpc.
  pose proof (quiet_check_ledger l st) as Hq.
  pose proof (check_ledger_result l n st Hl) as Hres.
  destruct (check_ledger l st) as [[[|]|e] st1]; cbn [fst snd] in *;
    intros [= <- <-]; (split; [exact Hq|]);
    first [discriminate Hres | injection Hres as <-; reflexivity].
Qed.

Lemma worker_step_parse (w : worker) l st pc st' :
  w_pc w = WParse l ->
  worker_step w st = Some (pc, st') ->
  quiet st st'
  /\ ((exists r blocks, pc = WUpload r l blocks 0) \/ exists o, pc = WFinally o)
  /\ forall n c b bs,
       heap st !! l = Some n -> w_root w = Some c ->
       Collab.parse_note (with_tag (rules (self st)) n) (rules (self st))
       = Return (b :: bs) ->
       pc = WUpload c l (b :: bs) 0.
Proof.
  intros Hpc. unfold worker_step. rewrite Hpc.
  pose proof (quiet_translate (w_root w) l (w_idx w) st) as Hq.
  assert (Hres : forall n c b bs,
            heap st !! l = Some n -> w_root w = Some c ->
            Collab.parse_note (with_tag (rules (self st)) n) (rules (self st))
            = Return (b :: bs) ->
            (translate (w_root w) l (w_idx w) st).1
            = Return (Some (c, b :: bs))).
  { intros n c b bs Hl Hroot Hparse. rewrite Hroot.
    now apply (translate_result c l (w_idx w) n). }
  destruct (translate (w_root w) l (w_idx w) st) as [[[[r blocks]|]|e] st1];
    cbn [fst snd] in *; intros [= <- <-]; (split; [exact Hq|]); split; eauto;
    intros n c b bs Hl Hroot Hparse;
    specialize (Hres n c b bs Hl Hroot Hparse); congruence.
Qed.

Lemma worker_step_upload (w : worker) r l blocks a st pc st' n :
  w_pc w = WUpload r l blocks a -> heap st !! l = Some n ->
  worker_step w st = Some (pc, st') ->
  (exists evs, st' = add_trace (CallUpload r n blocks :: evs) st
               /\ Forall (fun e => is_upload e = false) evs)
  /\ (pc = WCommit l \/ (exists a', pc = WUpload r l blocks a')
      \/ exists o, pc = WFinally o)
  /\ (Collab.upload_note (upload_attempts (trace st)) r n blocks = Return tt ->
      pc = WCommit l).
Proof.
  intros Hpc Hl. unfold worker_step.
  rewrite Hpc, (call_upload_run _ _ n) by exact Hl.
  destruct (Collab.upload_note _ r n blocks) as [[]|e].
  - intros [= <- <-]. split; [exists []; split; [reflexivity | constructor]|].
    split; auto.
  - destruct (is_NoteUploadFail e); [destruct (a =? 4)%nat|].
    + intros [= <- <-]. split; [exists []; split; [reflexivity | constructor]|].
      split; [eauto | discriminate].
    + rewrite (retry_warning_run l n) by exact Hl. intros [= <- <-].
      split; [|split; [eauto | discriminate]].
      exists [Log WARNING (retry_msg n)].
      rewrite add_trace_add_trace. split; [reflexivity | now constructor].
    + intros [= <- <-]. split; [exists []; split; [reflexivity | constructor]|].
      split; [eauto | discriminate].
Qed.

Lemma worker_step_finally (w : worker) o st pc st' :
  w_pc w = WFinally o ->
  worker_step w st = Some (pc, st') ->
  (exists o', pc = WDone o')
  /\ calm st st' /\ trace st' = trace st.
Proof.
  intros Hpc. unfold worker_step. rewrite Hpc, semaphore_release_run. cbv zeta.
  destruct (_ <? _)%nat; intros [= <- <-]; (split; [eauto|]);
    (split; [now apply calm_same | reflexivity]).
Qed.

End Quiet.

Section RunInvariant.

Context `{C : Collab.t}.

Import Dispatch.

Lemma hash_at_Some st l h :
  hash_at st l = Some h <-> exists n, heap st !! l = Some n /\ note_hash n = h.
Proof.
  unfold hash_at. destruct (heap st !! l) as [n|]; cbn.
  - split; [intros [= <-]; eauto | intros (n' & [= <-] & <-); reflexivity].
  - split; [discriminate | intros (n' & Hn & _); discriminate].
Qed.

Lemma tokens_calm st st' : calm st st' -> tokens st' = tokens st.
Proof. intros (_ & Hd & _). unfold tokens. now rewrite Hd. Qed.

Lemma fresh_upload_quiet L0 H evs :
  Forall (fun e => is_upload e = false) evs -> Forall (fresh_upload L0 H) evs.
Proof.
  intros Hq. eapply Forall_impl; [exact Hq|].
  intros [lv msg|m r|c m b] He; cbn in *;
    [exact I | exact I | discriminate].
Qed.

Lemma worker_inv_mono L0 H st st' w :
  keeps_hashes st st' -> worker_inv L0 H st w -> worker_inv L0 H st' w.
Proof.
  intros Hk (h & Hnote & Hin & Hpc). exists h.
  split; [now apply Hk|]. split; [exact Hin|].
  destruct (w_pc w); auto; destruct Hpc; auto.
Qed.

Lemma coord_inv_mono H file st st' c :
  keeps_hashes st st' -> coord_inv H file st c -> coord_inv H file st' c.
Proof.
  intros Hk. destruct c; cbn; auto;
    intros ((h & Hl & Hin) & Hp); (split; [exists h; auto | exact Hp]).
Qed.

(** How a step keeps the invariant: hashes kept, the ledger grown within
    the batch, only fresh uploads recorded, and the positions that moved
    accounted for. *)
Lemma run_inv_update L0 file s st' c' ws' :
  let H := note_hashes (Collab.iter_notes file) in
  run_inv L0 file s ->
  keeps_hashes (shared s) st' ->
  tokens (shared s) ⊆ tokens st' ->
  tokens st' ⊆ L0 ∪ H ->
  (exists evs, trace st' = trace (shared s) ++ evs
               /\ Forall (fresh_upload L0 H) evs) ->
  (coord_inv H file st' (coord s) -> coord_inv H file st' c') ->
  (Forall (worker_inv L0 H st') (workers s) ->
   Forall (worker_inv L0 H st') ws') ->
  run_inv L0 file (mkSystem st' c' ws').
Proof.
  intros H (HL0 & Hbound & Hc & Hws & Htr) Hk Hgrow Hbound' (evs & Hev & Hfresh)
         Hc' Hws'.
  unfold run_inv. cbn [shared coord workers]. fold H.
  split; [etransitivity; eassumption|]. split; [exact Hbound'|].
  split; [apply Hc'; eapply coord_inv_mono; eassumption|].
  split.
  - apply Hws'. eapply Forall_impl; [exact Hws|].
    intros w. now apply worker_inv_mono.
  - rewrite Hev. apply Forall_app. auto.
Qed.

Lemma run_inv_calm L0 file s st' c' ws' :
  let H := note_hashes (Collab.iter_notes file) in
  run_inv L0 file s ->
  calm (shared s) st' ->
  (coord_inv H file st' (coord s) -> coord_inv H file st' c') ->
  (Forall (worker_inv L0 H st') (workers s) ->
   Forall (worker_inv L0 H st') ws') ->
  run_inv L0 file (mkSystem st' c' ws').
Proof.
  intros H Hinv Hcalm Hc' Hws'.
  pose proof (tokens_calm _ _ Hcalm) as Htok.
  destruct Hcalm as (Hk & _ & _ & _ & _ & evs & Hev & Hq).
  apply (run_inv_update L0 file s); auto.
  - now rewrite Htok.
  - rewrite Htok. apply Hinv.
  - exists evs. split; [exact Hev | now apply fresh_upload_quiet].
Qed.

Lemma note_hashes_elem (ns : list EvernoteNote) (n : EvernoteNote) :
  n ∈ ns -> note_hash n ∈ note_hashes ns.
Proof.
  intros Hn. unfold note_hashes. apply elem_of_list_to_set, list_elem_of_fmap.
  now exists n.
Qed.

Lemma start_notebook_calm f st : calm st (start_notebook f st).2.
Proof.
  unfold start_notebook, bind. rewrite logger_run.
  unfold EnexUploader._get_notebook_root. cbn [self set_self add_trace set_trace].
  set (st1 := set_self _ _).
  assert (Hc : calm st st1).
  { split; [now apply keeps_hashes_same_heap|].
    repeat split. eexists. split; [reflexivity | now repeat constructor]. }
  cbn [import_root set_notebook_notes_count mode].
  destruct (import_root (self st)); [|exact Hc].
  destruct (if String.eqb _ _ then _ else _) as [c|e]; exact Hc.
Qed.

Lemma semaphore_acquire_calm st st' :
  semaphore_acquire st = Some st' -> calm st st' /\ trace st' = trace st.
Proof.
  unfold semaphore_acquire.
  destruct (BoundedSemaphore.acquire _); [|discriminate].
  intros [= <-]. split; [now apply calm_same | reflexivity].
Qed.

Lemma semaphore_release_calm k st : calm st (semaphore_release k st).2.
Proof.
  unfold semaphore_release.
  destruct (BoundedSemaphore.release k _) as [o s']. now apply calm_same.
Qed.

Lemma copied_state_calm l n st :
  calm st (copied_state l n st) /\ trace (copied_state l n st) = trace st.
Proof.
  split; [|reflexivity]. apply quiet_calm, quiet_heap.
  apply hash_at_insert_fresh, copy_loc_fresh.
Qed.

Lemma calm_refl st : calm st st.
Proof. now apply calm_same. Qed.

(** Every step keeps [run_inv]. *)
Lemma run_inv_step L0 file s s' :
  run_inv L0 file s -> step s s' -> run_inv L0 file s'.
Proof.
  intros Hinv [[|i] Hstep].
  - unfold step_thread, coord_step in Hstep.
    destruct s as [st c ws]. cbn [shared coord workers] in Hstep.
    destruct c as [f|root [|n pending] idx|root l pending idx
                   |root l pending idx|[|j]| |o].
    + pose proof (start_notebook_calm f st) as Hcalm.
      pose proof Hinv as (_ & _ & Hc & _). cbn in Hc. subst f.
      destruct (start_notebook file st) as [[root|e] st1];
        injection Hstep as <-; cbn [snd] in Hcalm;
        apply (run_inv_calm L0 file (mkSystem st (CStart file) ws));
        auto; intros _; cbn; [|exact I].
      apply Forall_forall. intros n Hn. now apply note_hashes_elem.
    + injection Hstep as <-.
      apply (run_inv_calm L0 file (mkSystem st (CNext root [] idx) ws));
        auto; [apply calm_refl|]. intros _. exact I.
    + injection Hstep as <-.
      assert (Hfresh : heap st !! fresh (dom (heap st)) = None)
        by apply copy_loc_fresh.
      apply (run_inv_calm L0 file
               (mkSystem st (CNext root (n :: pending) idx) ws)); auto.
      * apply quiet_calm, quiet_heap, hash_at_insert_fresh, Hfresh.
      * cbn. intros Hp. apply Forall_cons in Hp as [Hn Hp].
        split; [|exact Hp]. exists (note_hash n). split; [|exact Hn].
        unfold hash_at. cbn [heap set_heap]. now rewrite lookup_insert_eq.
    + destruct (semaphore_acquire st) as [st1|] eqn:Hacq; [|discriminate].
      injection Hstep as <-. apply semaphore_acquire_calm in Hacq as [Hcalm _].
      apply (run_inv_calm L0 file
               (mkSystem st (CAcquire root l pending idx) ws)); auto.
    + injection Hstep as <-.
      apply (run_inv_calm L0 file
               (mkSystem st (CSpawn root l pending idx) ws)); auto;
        [apply calm_refl | cbn; tauto |].
      intros Hws. apply Forall_app. split; [exact Hws|].
      constructor; [|constructor].
      destruct Hinv as (_ & _ & ((h & Hl & Hin) & _) & _).
      exists h. cbn. auto.
    + injection Hstep as <-.
      apply (run_inv_calm L0 file (mkSystem st (CDrain 0) ws));
        auto; apply calm_refl.
    + destruct (semaphore_acquire st) as [st1|] eqn:Hacq; [|discriminate].
      injection Hstep as <-. apply semaphore_acquire_calm in Hacq as [Hcalm _].
      apply (run_inv_calm L0 file (mkSystem st (CDrain (S j)) ws)); auto.
    + pose proof (semaphore_release_calm (parallelism (self st)) st) as Hcalm.
      destruct (semaphore_release (parallelism (self st)) st) as [o st1].
      injection Hstep as <-.
      apply (run_inv_calm L0 file (mkSystem st CRelease ws)); auto.
    + discriminate.
  - unfold step_thread in Hstep.
    destruct (workers s !! i) as [w|] eqn:Hw; [|discriminate].
    destruct (worker_step w (shared s)) as [[pc st1]|] eqn:Hws; [|discriminate].
    injection Hstep as <-.
    pose proof Hinv as (HL0 & Hbound & _ & Hall & _).
    pose proof (proj1 (Forall_lookup _ _) Hall i w Hw) as (h & Hnote & Hin & Hpc).
    assert (Hset : forall st' pc',
              worker_inv L0 (note_hashes (Collab.iter_notes file)) st'
                (set_pc pc' w) ->
              Forall (worker_inv L0 (note_hashes (Collab.iter_notes file)) st')
                     (workers s) ->
              Forall (worker_inv L0 (note_hashes (Collab.iter_notes file)) st')
                     (<[i := set_pc pc' w]> (workers s)))
      by (intros st' pc' Hnew Hold; now apply Forall_insert).
    destruct (w_pc w) as [|l|l|r l blocks a|l|o|o] eqn:Hpcw.
    + apply hash_at_Some in Hnote as (n & Hn & Hh).
      destruct (worker_step_start w _ _ _ n Hpcw Hn Hws) as (-> & ->).
      destruct (copied_state_calm (w_note w) n (shared s)) as [Hcalm _].
      apply (run_inv_calm L0 file s); auto.
      apply Hset. exists h. cbn [w_note w_pc set_pc].
      split; [apply Hcalm, hash_at_Some; eauto|]. split; [exact Hin|].
      apply hash_at_Some. exists n. split; [apply lookup_insert_eq | exact Hh].
    + pose proof Hpc as Hl. apply hash_at_Some in Hl as (n & Hn & Hh).
      destruct (worker_step_check w l _ _ _ n Hpcw Hn Hws) as (Hq & ->).
      apply quiet_calm in Hq. pose proof Hq as (Hk & _).
      apply (run_inv_calm L0 file s); auto.
      apply Hset. exists h. split; [now apply Hk|]. split; [exact Hin|].
      case_bool_decide as Htok; cbn [w_pc set_pc]; [exact I|].
      split; [now apply Hk|]. rewrite Hh in Htok.
      intros HinL0. apply Htok, HL0, HinL0.
    + destruct Hpc as (Hl & Hnew).
      destruct (worker_step_parse w l _ _ _ Hpcw Hws) as (Hq & Hpc' & _).
      apply quiet_calm in Hq. pose proof Hq as (Hk & _).
      apply (run_inv_calm L0 file s); auto.
      apply Hset. exists h. split; [now apply Hk|]. split; [exact Hin|].
      destruct Hpc' as [(r & blocks & ->) | (o & ->)]; cbn [w_pc set_pc];
        [split; [now apply Hk | exact Hnew] | exact I].
    + destruct Hpc as (Hl & Hnew). pose proof Hl as Hl'.
      apply hash_at_Some in Hl' as (n & Hn & Hh).
      destruct (worker_step_upload w r l blocks a _ _ _ n Hpcw Hn Hws)
        as ((evs & -> & Hquiet) & Hpc' & _).
      apply (run_inv_update L0 file s); auto.
      * now apply keeps_hashes_same_heap.
      * eexists. split; [reflexivity|]. constructor.
        -- cbn. rewrite Hh. auto.
        -- now apply fresh_upload_quiet.
      * apply Hset. exists h. split; [exact Hnote|]. split; [exact Hin|].
        destruct Hpc' as [-> | [(a' & ->) | (o & ->)]]; cbn [w_pc set_pc]; auto.
    + destruct Hpc as (Hl & Hnew). pose proof Hl as Hl'.
      apply hash_at_Some in Hl' as (n & Hn & Hh).
      rewrite (worker_step_commit w l n _ Hpcw Hn) in Hws.
      injection Hws as <- <-.
      destruct (ledger_add_run (note_hash n) (shared s))
        as (_ & Htok & _ & Hheap & Htr & _).
      apply (run_inv_update L0 file s); auto.
      * now apply keeps_hashes_same_heap.
      * rewrite Htok. apply union_subseteq_r.
      * rewrite Htok, Hh. apply union_least; [|exact Hbound].
        apply singleton_subseteq_l, elem_of_union_r, Hin.
      * exists []. rewrite Htr, app_nil_r. split; [reflexivity | constructor].
      * apply Hset. exists h. split; [|split; [exact Hin | exact I]].
        apply (keeps_hashes_same_heap _ _ Hheap), Hnote.
    + destruct (worker_step_finally w o _ _ _ Hpcw Hws) as ((o' & ->) & Hcalm & _).
      pose proof Hcalm as (Hk & _).
      apply (run_inv_calm L0 file s); auto.
      apply Hset. exists h. split; [now apply Hk|]. split; [exact Hin | exact I].
    + unfold worker_step in Hws. rewrite Hpcw in Hws. discriminate.
Qed.

Lemma run_inv_rtc L0 file s s' :
  run_inv L0 file s -> reachable s s' -> run_inv L0 file s'.
Proof.
  intros Hinv Hreach. induction Hreach as [s|s1 s2 s3 Hstep _ IH].
  - exact Hinv.
  - apply IH. eapply run_inv_step; eassumption.
Qed.

Lemma run_inv_init u fs0 file :
  run_inv (ledger_tokens (done_hashes u)) file (init u fs0 file).
Proof.
  unfold run_inv, init. cbn [shared coord workers]. unfold tokens. cbn [self trace].
  split; [reflexivity|]. split; [apply union_subseteq_l|]. split; [reflexivity|].
  split; constructor.
Qed.

End RunInvariant.

Section Coherence.

Context `{C : Collab.t}.

Import Dispatch.

Lemma coherent_same p st st' :
  done_hashes (self st') = done_hashes (self st) -> fs st' = fs st ->
  coherent p st -> coherent p st'.
Proof.
  intros Hd Hf (d & Hled & Hp & Hdir & Hend & Hload). exists d.
  rewrite Hd, Hf. auto.
Qed.

Lemma coherent_calm p st st' : calm st st' -> coherent p st -> coherent p st'.
Proof. intros (_ & Hd & Hf & _). now apply coherent_same. Qed.

(** Adding a clean token keeps the ledger and its file in step, and the
    call returns. *)
Lemma coherent_add p h st :
  PyStr.clean_token h = true -> coherent p st ->
  coherent p (ledger_add h st).2 /\ (ledger_add h st).1 = Return tt.
Proof.
  intros Hclean (d & Hled & Hp & Hdir & Hend & Hload).
  apply clean_token_spec in Hclean as [Hnl Hstrip].
  unfold ledger_add. rewrite Hled, add_ok by now rewrite Hp.
  split; [|reflexivity]. eexists.
  cbn [snd self set_self set_fs done_hashes set_done_hashes fs].
  split; [reflexivity|]. cbn [DoneFile.path DoneFile.done_hashes].
  split; [exact Hp|]. rewrite Hp, fs_lookup_write_eq, missing_dir_write.
  split; [now destruct (decide _)|]. cbn [from_option id default].
  split; [apply ends_line_append_token|].
  rewrite load_append_token, Hstrip, Hload by assumption.
  apply (comm_L (∪)).
Qed.

End Coherence.

Section Resume.

Context `{C : Collab.t}.

Import Dispatch.

Lemma init_load (p : string) (fs0 : FileSystem) :
  DoneFile.done_hashes (DoneFile.init p fs0)
  = DoneFile.load (default EmptyString (fs0 !! p)).
Proof. unfold DoneFile.init. destruct (fs0 !! p); reflexivity. Qed.

Lemma init_path (p : string) (fs0 : FileSystem) :
  DoneFile.path (DoneFile.init p fs0) = p.
Proof. unfold DoneFile.init. destruct (fs0 !! p); reflexivity. Qed.

Lemma process_start_ready root mode p r par file fs0 :
  ready (process_start root mode p r par file fs0).
Proof.
  split; [now exists file|]. split; [constructor|]. split; reflexivity.
Qed.

Lemma process_start_run_inv root mode p r par file fs0 :
  run_inv (DoneFile.done_hashes (DoneFile.init p fs0)) file
          (process_start root mode p r par file fs0).
Proof. apply (run_inv_init (EnexUploader.init root mode (Some p) r par fs0)). Qed.

Lemma no_upload_events (tr : list event) :
  Forall (fun e => is_upload e = false) tr -> upload_attempts tr = 0.
Proof.
  induction 1 as [|e tr He _ IH]; [reflexivity|].
  now rewrite upload_attempts_cons, He, IH.
Qed.

End Resume.

(** ** The statements at concrete runs *)

Lemma C2_already_done_witness :
  let r := EnexUploader.upload_note (C := Sample.flaky 0)
             (Some (Page "nb")) 0 1 (Sample.seeded Sample.note1) in
  r.1 = Return tt
  /\ parse_calls (trace r.2) = 0
  /\ upload_attempts (trace r.2) = 0
  /\ heap r.2 = heap (Sample.seeded Sample.note1)
  /\ self r.2 = self (Sample.seeded Sample.note1).
Proof.
  destruct (C2_already_done (C := Sample.flaky 0) (Some (Page "nb")) 0 1
              Sample.note1 (Sample.seeded Sample.note1))
    as (Ho & _ & Hp & Hu & Hh & Hs & _).
  - reflexivity.
  - apply (bool_decide_unpack _). vm_compute. exact I.
  - cbv zeta. split; [exact Ho|]. split; [exact Hp|]. split; [exact Hu|].
    split; [exact Hh | exact Hs].
Defined.



Lemma C8_only_upload_failure_retried_witness :
  let r := _upload_note (C := Sample.failing (OtherException "HTTPError") 1)
             (Page "nb") 0 [block "<p>1</p>"]
             (Sample.start Sample.no_rules 2 Sample.note1) in
  r.1 = Raise (OtherException "HTTPError")
  /\ upload_attempts (trace r.2) = 0 + 1
  /\ logs_at WARNING (trace r.2) = 0.
Proof.
  destruct (C8_only_upload_failure_retried
              (C := Sample.failing (OtherException "HTTPError") 1)
              (Page "nb") 0 Sample.note1 [block "<p>1</p>"]
              (OtherException "HTTPError")
              (Sample.start Sample.no_rules 2 Sample.note1))
    as (Hfirst & _).
  - reflexivity.
  - reflexivity.
  - destruct Hfirst as (Hr & Hu & Hw); [reflexivity|].
    cbv zeta. rewrite Hr at 1. split; [reflexivity|]. split; [exact Hu | exact Hw].
Defined.

Lemma C4_translate_error_isolated_witness :
  let w := Dispatch.mkWorker (Some (Page "nb")) 0 1 Dispatch.WStart in
  let st := Sample.running Sample.no_rules Sample.broken_note in
  let r := EnexUploader.upload_note (C := Sample.flaky 0) (Some (Page "nb")) 0 1 st in
  let wr := EnexUploader.upload_note_with_release (C := Sample.flaky 0)
              (Some (Page "nb")) 0 1 st in
  (r.1 = Return tt /\ upload_attempts (trace r.2) = 0 /\ self r.2 = self st)
  /\ (wr.1 = Return tt
      /\ BoundedSemaphore.value (semaphore (self wr.2)) = 1 + 1
      /\ tokens wr.2 = tokens st
      /\ Dispatch.run_worker (C := Sample.flaky 0) (10 + 0) w st
         = (Dispatch.set_pc (Dispatch.WDone (Return tt)) w, wr.2)).
Proof.
  destruct (C4_translate_error_isolated (C := Sample.flaky 0)
              (Dispatch.mkWorker (Some (Page "nb")) 0 1 Dispatch.WStart)
              Sample.broken_note (OtherException "ValueError")
              (Sample.running Sample.no_rules Sample.broken_note))
    as ((Ho & _ & Hu & Hs & _) & Hw & _).
  - reflexivity.
  - reflexivity.
  - apply (bool_decide_unpack _). vm_compute. exact I.
  - reflexivity.
  - reflexivity.
  - destruct Hw as (Hwo & Hwv & _ & Hwt & _ & Hrun); [cbn; lia|].
    cbv zeta. split; [split; [exact Ho | split; [exact Hu | exact Hs]]|].
    split; [exact Hwo | split; [exact Hwv | split; [exact Hwt | apply Hrun]]].
Defined.


Lemma C7_tag_injection_witness :
  let st := Sample.running Sample.forced Sample.note1 in
  let w := EnexUploader.upload_note_with_release (C := Sample.flaky 0)
             (Some (Page "nb")) 0 1 st in
  heap w.2 !! 0 = Some Sample.note1
  /\ exists n', heap w.2 !! copy_loc st = Some n'
                /\ tags n' = ["inbox"; "evernote"]
                /\ count_occ string_dec (tags n') "evernote" = 1.
Proof.
  destruct (C7_tag_injection (C := Sample.flaky 0) (Some (Page "nb")) 0 1
              Sample.note1 "evernote"
              (Sample.running Sample.forced Sample.note1))
    as (n' & Hheap & _ & Horig & _ & _ & Habs & _ & _ & Honce & _).
  - reflexivity.
  - apply (bool_decide_unpack _). vm_compute. exact I.
  - reflexivity.
  - discriminate.
  - cbv zeta. split; [exact Horig|]. exists n'.
    split; [rewrite Hheap; apply lookup_insert_eq|].
    split.
    + apply Habs. apply (bool_decide_unpack _). vm_compute. exact I.
    + apply Honce. vm_compute. lia.
Defined.

Lemma C5_exhausted_upload_raises_witness :
  let w := Dispatch.mkWorker (Some (Page "nb")) 0 1 Dispatch.WStart in
  let st := Sample.running Sample.forced Sample.note1 in
  let res := EnexUploader.upload_note_with_release (C := Sample.flaky 5)
               (Some (Page "nb")) 0 1 st in
  res.1 = Raise NoteUploadFailException
  /\ BoundedSemaphore.value (semaphore (self res.2)) = 1 + 1
  /\ done_hashes (self res.2) = done_hashes (self st)
  /\ Dispatch.run_worker (C := Sample.flaky 5) (10 + 0) w st
     = (Dispatch.set_pc (Dispatch.WDone (Raise NoteUploadFailException)) w, res.2).
Proof.
  destruct (C5_exhausted_upload_raises (C := Sample.flaky 5)
              (Dispatch.mkWorker (Some (Page "nb")) 0 1 Dispatch.WStart)
              (Page "nb") Sample.note1 (block "<p>1</p>") []
              (Sample.running Sample.forced Sample.note1))
    as ((Ho & _) & Hv & _ & Hd & _ & _ & Hrun & _).
  - reflexivity.
  - reflexivity.
  - reflexivity.
  - apply (bool_decide_unpack _). vm_compute. exact I.
  - reflexivity.
  - intros [|[|[|[|[|i]]]]] Hi; try reflexivity. lia.
  - cbn. lia.
  - cbv zeta. split; [exact Ho|]. split; [exact Hv|]. split; [exact Hd|].
    apply Hrun.
Defined.

Lemma C9_bounded_concurrency_witness :
  let s0 := Sample.first_call Sample.forced 2 ∅ in
  let s := Dispatch.run_schedule (C := Sample.flaky 0) (Sample.round_robin 3) s0 in
  let sF := Dispatch.run_schedule (C := Sample.flaky 0) (Sample.round_robin 30) s0 in
  (Dispatch.active_count (Dispatch.workers s) <= 2
   /\ exists s', Dispatch.step (C := Sample.flaky 0) s s')
  /\ (Forall (fun w => Dispatch.active w = false) (Dispatch.workers sF)
      /\ BoundedSemaphore.value (semaphore (self (Dispatch.shared sF))) = 2).
Proof.
  assert (Hready : Dispatch.ready (Sample.first_call Sample.forced 2 ∅)).
  { split; [now exists "notebook.enex"|]. split; [constructor|]. split; reflexivity. }
  cbv zeta. split.
  - destruct (C9_bounded_concurrency (C := Sample.flaky 0)
                (Sample.first_call Sample.forced 2 ∅)
                (Dispatch.run_schedule (C := Sample.flaky 0)
                   (Sample.round_robin 3) (Sample.first_call Sample.forced 2 ∅))
                Hready (run_schedule_reachable _ _))
      as (Hbound & _ & _ & _ & _ & Hprogress).
    split; [exact Hbound|]. apply Hprogress.
    + cbn. lia.
    + intros [o Ho]. vm_compute in Ho. discriminate Ho.
  - destruct (C9_bounded_concurrency (C := Sample.flaky 0)
                (Sample.first_call Sample.forced 2 ∅)
                (Dispatch.run_schedule (C := Sample.flaky 0)
                   (Sample.round_robin 30) (Sample.first_call Sample.forced 2 ∅))
                Hready (run_schedule_reachable _ _))
      as (_ & _ & _ & _ & Hdone & _).
    destruct Hdone as (Hall & Hfull & _).
    + exists (Return tt). vm_compute. reflexivity.
    + split; [exact Hall | exact Hfull].
Defined.

(** C6, as stated, fails: a notebook whose only note has no content is
    processed twice against the same ledger file; both runs end, and the
    note's token is never in the ledger. *)
Lemma C6_skipped_note_never_in_ledger :
  let start := process_start (Some "root") "DB" "done.txt" Sample.no_rules 2
                 "notebook.enex" in
  let s1 := Dispatch.run_schedule (C := Sample.hollow) (Sample.round_robin 10)
              (start ∅) in
  let s2 := Dispatch.run_schedule (C := Sample.hollow) (Sample.round_robin 10)
              (start (fs (Dispatch.shared s1))) in
  Dispatch.finished s1 /\ Dispatch.finished s2
  /\ tokens (Dispatch.shared s2)
     <> note_hashes (Collab.iter_notes (t := Sample.hollow) "notebook.enex").
Proof.
  cbv zeta. split; [exists (Return tt); vm_compute; reflexivity|].
  split; [exists (Return tt); vm_compute; reflexivity|].
  intros Heq.
  assert (Hin : note_hash Sample.empty_note
                ∈ note_hashes (Collab.iter_notes (t := Sample.hollow)
                                 "notebook.enex"))
    by (apply (bool_decide_unpack _); vm_compute; exact I).
  rewrite <- Heq in Hin. revert Hin.
  apply (bool_decide_unpack _). vm_compute. exact I.
Qed.

(** * Further properties *)

(** ** Reading the ledger file *)

Lemma lstrip_idem (s : string) : PyStr.lstrip (PyStr.lstrip s) = PyStr.lstrip s.
Proof.
  induction s as [|c s IH]; [reflexivity|].
  cbn [PyStr.lstrip]. destruct (PyStr.isspace c) eqn:Hc; [exact IH|].
  cbn [PyStr.lstrip]. now rewrite Hc.
Qed.

Lemma rstrip_idem (s : string) : PyStr.rstrip (PyStr.rstrip s) = PyStr.rstrip s.
Proof.
  induction s as [|c s IH]; [reflexivity|].
  cbn [PyStr.rstrip]. destruct (PyStr.rstrip s) as [|x r] eqn:Hr.
  - destruct (PyStr.isspace c) eqn:Hc; [reflexivity|].
    cbn [PyStr.rstrip]. now rewrite Hc.
  - cbn [PyStr.rstrip] in *. now rewrite IH.
Qed.

Lemma rstrip_lstrip (s : string) :
  PyStr.rstrip (PyStr.lstrip s) = PyStr.lstrip (PyStr.rstrip s).
Proof.
  induction s as [|c s IH]; [reflexivity|].
  cbn [PyStr.lstrip PyStr.rstrip].
  destruct (PyStr.isspace c) eqn:Hc.
  - rewrite IH. destruct (PyStr.rstrip s) as [|x r]; [reflexivity|].
    cbn [PyStr.lstrip]. now rewrite Hc.
  - cbn [PyStr.rstrip].
    destruct (PyStr.rstrip s) as [|x r]; cbn [PyStr.lstrip]; now rewrite Hc.
Qed.

Lemma strip_idem (s : string) : PyStr.strip (PyStr.strip s) = PyStr.strip s.
Proof.
  unfold PyStr.strip. now rewrite rstrip_lstrip, rstrip_idem, lstrip_idem.
Qed.

(** A stripped string is left alone by both halves of [strip]. *)
Lemma strip_fixed (t : string) :
  PyStr.strip t = t -> PyStr.lstrip t = t /\ PyStr.rstrip t = t.
Proof.
  unfold PyStr.strip. intros H. split.
  - rewrite <- H at 1. now rewrite lstrip_idem.
  - rewrite <- H at 1. now rewrite rstrip_lstrip, rstrip_idem.
Qed.

Lemma no_linebreak_String (c : ascii) (t : string) :
  PyStr.no_linebreak (String c t)
  = negb (Ascii.eqb c PyStr.CR) && negb (Ascii.eqb c PyStr.LF)
    && PyStr.no_linebreak t.
Proof. reflexivity. Qed.

Lemma no_linebreak_lstrip (s : string) :
  PyStr.no_linebreak s = true -> PyStr.no_linebreak (PyStr.lstrip s) = true.
Proof.
  induction s as [|c s IH]; [reflexivity|]. intros H.
  cbn [PyStr.lstrip]. destruct (PyStr.isspace c); [|exact H].
  apply IH. now apply no_linebreak_cons in H as (_ & _ & H).
Qed.

Lemma no_linebreak_rstrip (s : string) :
  PyStr.no_linebreak s = true -> PyStr.no_linebreak (PyStr.rstrip s) = true.
Proof.
  induction s as [|c s IH]; [reflexivity|]. intros H.
  apply no_linebreak_cons in H as (Hcr & Hlf & H).
  cbn [PyStr.rstrip]. specialize (IH H).
  destruct (PyStr.rstrip s) as [|x r].
  - destruct (PyStr.isspace c); [reflexivity|].
    rewrite no_linebreak_String, Hcr, Hlf. reflexivity.
  - rewrite no_linebreak_String, Hcr, Hlf, IH. reflexivity.
Qed.

Lemma no_linebreak_strip (s : string) :
  PyStr.no_linebreak s = true -> PyStr.no_linebreak (PyStr.strip s) = true.
Proof. intros H. now apply no_linebreak_lstrip, no_linebreak_rstrip. Qed.

Lemma no_linebreak_app (a b : string) :
  PyStr.no_linebreak a = true -> PyStr.no_linebreak b = true ->
  PyStr.no_linebreak (a +:+ b) = true.
Proof.
  intros Ha Hb. induction a as [|c a IH]; [exact Hb|].
  apply no_linebreak_cons in Ha as (Hcr & Hlf & Ha).
  str_simpl. rewrite no_linebreak_String, Hcr, Hlf, IH by exact Ha. reflexivity.
Qed.

(** The characters of a string, all of them not "\r". *)
Lemma translate_no_cr (s : string) : forall b,
  Forall (fun c => Ascii.eqb c PyStr.CR = false)
         (list_ascii_of_string (PyStr.translate_newlines b s)).
Proof.
  induction s as [|c s IH]; intros b; [constructor|].
  cbn [PyStr.translate_newlines].
  destruct (Ascii.eqb c PyStr.CR) eqn:Hcr.
  - constructor; [reflexivity | apply IH].
  - destruct (Ascii.eqb c PyStr.LF) eqn:Hlf.
    + destruct b; [apply IH | constructor; [reflexivity | apply IH]].
    + constructor; [exact Hcr | apply IH].
Qed.

(** Every line of a text without "\r" is a text without line break, with or
    without a final "\n". *)
Lemma splitlines_bodies (u : string) :
  Forall (fun c => Ascii.eqb c PyStr.CR = false) (list_ascii_of_string u) ->
  Forall (fun l => exists body,
            PyStr.no_linebreak body = true
            /\ (l = body \/ l = body +:+ String PyStr.LF EmptyString))
         (PyStr.splitlines u).
Proof.
  induction u as [|c u IH]; intros Hu; [constructor|].
  cbn [list_ascii_of_string] in Hu. inversion Hu as [|? ? Hc Hu']; subst.
  specialize (IH Hu'). cbn [PyStr.splitlines].
  destruct (Ascii.eqb c PyStr.LF) eqn:Hlf.
  - constructor; [|exact IH]. exists EmptyString. split; [reflexivity|].
    right. reflexivity.
  - destruct (PyStr.splitlines u) as [|l ls].
    + constructor; [|constructor]. exists (String c EmptyString).
      split; [|now left]. rewrite no_linebreak_String, Hc, Hlf. reflexivity.
    + inversion IH as [|? ? (body & Hb & Hl) Hls]; subst.
      constructor; [|exact Hls]. exists (String c body). split.
      * rewrite no_linebreak_String, Hc, Hlf, Hb. reflexivity.
      * destruct Hl as [-> | ->]; [now left | right; reflexivity].
Qed.

Lemma load_clean (content t : string) :
  t ∈ DoneFile.load content -> PyStr.clean_token t = true.
Proof.
  unfold DoneFile.load, PyStr.readlines. intros Ht.
  apply elem_of_list_to_set, list_elem_of_fmap in Ht as (l & -> & Hl).
  pose proof (splitlines_bodies _ (translate_no_cr content false)) as Hall.
  rewrite Forall_forall in Hall. destruct (Hall l Hl) as (body & Hb & Hshape).
  assert (Hs : PyStr.strip l = PyStr.strip body)
    by (destruct Hshape as [-> | ->]; [reflexivity | apply strip_line]).
  rewrite Hs. unfold PyStr.clean_token.
  rewrite no_linebreak_strip by exact Hb. rewrite strip_idem.
  now rewrite String.eqb_refl.
Qed.

(** X1: every token that [DoneFile.__init__] reads from a file, whatever the
    file holds, has no line break in it and no whitespace around it; so a
    ledger just constructed never contains a token with whitespace around
    it, or with a line break. *)
Theorem X1_loaded_tokens_clean (p : string) (fs : FileSystem) :
  (forall t, t ∈ DoneFile.done_hashes (DoneFile.init p fs) ->
             PyStr.clean_token t = true)
  /\ (forall h, PyStr.clean_token h = false ->
                DoneFile.contains h (DoneFile.init p fs) = false).
Proof.
  assert (Hclean : forall t, t ∈ DoneFile.done_hashes (DoneFile.init p fs) ->
                             PyStr.clean_token t = true).
  { intros t. unfold DoneFile.init. destruct (fs !! p) as [content|]; cbn.
    - apply load_clean.
    - intros H. now apply not_elem_of_empty in H. }
  split; [exact Hclean|].
  intros h Hh. unfold DoneFile.contains. apply bool_decide_eq_false_2.
  intros Hin. apply Hclean in Hin. congruence.
Qed.

(** ** Line terminators *)

Lemma translate_pending (t r : string) :
  t <> EmptyString -> PyStr.no_linebreak t = true ->
  PyStr.translate_newlines true (t +:+ r)
  = PyStr.translate_newlines false (t +:+ r).
Proof.
  destruct t as [|c t]; [congruence|]. intros _ Ht.
  apply no_linebreak_cons in Ht as (Hcr & Hlf & _).
  str_simpl. cbn [PyStr.translate_newlines]. now rewrite Hcr, Hlf.
Qed.

(** The same lines, each ended by "\n". *)
Lemma translate_write_lines (ls : list (string * eol)) : forall b,
  Forall (fun l => digest_like l.1) ls ->
  PyStr.translate_newlines b (write_lines ls)
  = write_lines (map (fun l => (l.1, EolLF)) ls).
Proof.
  induction ls as [|[t e] ls IH]; intros b Hls; [reflexivity|].
  inversion Hls as [|? ? [Ht Hne] Hls']; subst. cbn [fst] in Ht, Hne.
  apply clean_token_spec in Ht as [Hnl _].
  cbn [write_lines map fst].
  assert (Hb : PyStr.translate_newlines b (t +:+ eol_str e +:+ write_lines ls)
               = PyStr.translate_newlines false
                   (t +:+ eol_str e +:+ write_lines ls))
    by (destruct b; [now apply translate_pending | reflexivity]).
  rewrite Hb, translate_clean by exact Hnl. f_equal.
  destruct e; cbn [eol_str]; str_simpl; cbn [PyStr.translate_newlines];
    change (Ascii.eqb PyStr.CR PyStr.CR) with true;
    change (Ascii.eqb PyStr.LF PyStr.CR) with false;
    change (Ascii.eqb PyStr.LF PyStr.LF) with true; cbv iota;
    now rewrite IH.
Qed.

Lemma splitlines_write_lines (ts : list string) :
  Forall (fun t => PyStr.no_linebreak t = true) ts ->
  PyStr.splitlines (write_lines (map (fun t => (t, EolLF)) ts))
  = map (fun t => t +:+ String PyStr.LF EmptyString) ts.
Proof.
  induction ts as [|t ts IH]; intros Hts; [reflexivity|].
  inversion Hts as [|? ? Ht Hts']; subst.
  cbn [map write_lines eol_str]. str_simpl.
  rewrite splitlines_after_newline, (splitlines_clean t) by exact Ht.
  now rewrite IH.
Qed.

(** X2: the ledger file is read in text mode, so that its lines may end in
    "\n", "\r\n" or "\r", in any mix: a file that lists digests, one per
    line, gives exactly these digests. *)
Theorem X2_line_endings (p : string) (fs : FileSystem)
        (ls : list (string * eol)) :
  fs !! p = Some (write_lines ls) ->
  Forall (fun l => digest_like l.1) ls ->
  DoneFile.done_hashes (DoneFile.init p fs) = list_to_set (map fst ls).
Proof.
  intros Hfile Hls. rewrite (init_present _ _ _ Hfile).
  unfold DoneFile.load, PyStr.readlines.
  rewrite (translate_write_lines ls false Hls).
  assert (Hmap : map (fun l : string * eol => (l.1, EolLF)) ls
                 = map (fun t => (t, EolLF)) (map fst ls))
    by now rewrite map_map.
  rewrite Hmap, splitlines_write_lines.
  - f_equal. rewrite !map_map. apply map_ext_Forall.
    eapply Forall_impl; [exact Hls|]. intros [t e] [Ht _]. cbn [fst] in *.
    apply clean_token_spec in Ht as [_ Hs]. now rewrite strip_line.
  - apply Forall_map. eapply Forall_impl; [exact Hls|].
    intros [t e] [Ht _]. now apply clean_token_spec in Ht as [Hnl _].
Qed.

(** ** A ledger file whose last line is not terminated *)

Lemma length_append (a b : string) :
  String.length (a +:+ b) = String.length a + String.length b.
Proof.
  induction a as [|c a IH]; [reflexivity|].
  str_simpl. cbn [String.length]. now rewrite IH.
Qed.

Lemma append_neq_r (a b : string) : a <> EmptyString -> a +:+ b <> b.
Proof.
  intros Ha H. apply (f_equal String.length) in H.
  rewrite length_append in H. destruct a; [congruence | cbn in H; lia].
Qed.

Lemma append_neq_l (a b : string) : b <> EmptyString -> a +:+ b <> a.
Proof.
  intros Hb H. apply (f_equal String.length) in H.
  rewrite length_append in H. destruct b; [congruence | cbn in H; lia].
Qed.

Lemma length_lstrip (s : string) :
  String.length (PyStr.lstrip s) <= String.length s.
Proof.
  induction s as [|c s IH]; [reflexivity|].
  cbn [PyStr.lstrip]. destruct (PyStr.isspace c); cbn [String.length]; lia.
Qed.

Lemma lstrip_app_fixed (t b : string) :
  PyStr.lstrip t = t -> t <> EmptyString ->
  PyStr.lstrip (t +:+ b) = t +:+ b.
Proof.
  destruct t as [|c t]; [congruence|]. intros H _.
  str_simpl. cbn [PyStr.lstrip] in *.
  destruct (PyStr.isspace c); [|reflexivity].
  pose proof (length_lstrip t) as Hlen. rewrite H in Hlen.
  cbn [String.length] in Hlen. lia.
Qed.

Lemma rstrip_app_fixed (a t : string) :
  PyStr.rstrip t = t -> t <> EmptyString ->
  PyStr.rstrip (a +:+ t) = a +:+ t.
Proof.
  intros H Hne. induction a as [|c a IH]; [exact H|].
  str_simpl. cbn [PyStr.rstrip]. rewrite IH.
  destruct (a +:+ t) eqn:Hat; [|reflexivity].
  destruct a; [rewrite append_nil_l in Hat; congruence | discriminate].
Qed.

(** Two digests written one after the other read as one token. *)
Lemma strip_glued (t1 t2 : string) :
  digest_like t1 -> digest_like t2 ->
  PyStr.no_linebreak (t1 +:+ t2) = true
  /\ PyStr.strip (t1 +:+ t2) = t1 +:+ t2.
Proof.
  intros [H1 Hne1] [H2 Hne2].
  apply clean_token_spec in H1 as [Hnl1 Hs1].
  apply clean_token_spec in H2 as [Hnl2 Hs2].
  apply strip_fixed in Hs1 as [Hl1 _].
  apply strip_fixed in Hs2 as [_ Hr2].
  split; [now apply no_linebreak_app|].
  unfold PyStr.strip. rewrite rstrip_app_fixed by assumption.
  now apply lstrip_app_fixed.
Qed.

Lemma splitlines_single (t : string) :
  t <> EmptyString -> PyStr.no_linebreak t = true ->
  PyStr.splitlines t = [t].
Proof.
  induction t as [|c t IH]; [congruence|]. intros _ Ht.
  apply no_linebreak_cons in Ht as (_ & Hlf & Ht).
  cbn [PyStr.splitlines]. rewrite Hlf.
  destruct t as [|x t]; [reflexivity|].
  now rewrite IH.
Qed.

(** A last line without its newline is read as a line all the same. *)
Lemma load_partial_line (old t : string) :
  PyStr.ends_line old -> digest_like t ->
  DoneFile.load (old +:+ t) = DoneFile.load old ∪ {[t]}.
Proof.
  intros Hold [Ht Hne]. apply clean_token_spec in Ht as [Hnl Hs].
  unfold DoneFile.load, PyStr.readlines.
  assert (Htok : PyStr.translate_newlines false t = t).
  { rewrite <- (append_nil_r t) at 1. rewrite translate_clean by exact Hnl.
    apply append_nil_r. }
  destruct Hold as [-> | [c0 ->]].
  - str_simpl. rewrite Htok, splitlines_single by assumption.
    cbn [map list_to_set PyStr.translate_newlines PyStr.splitlines].
    now rewrite Hs, (left_id_L ∅ (∪)), (right_id_L ∅ (∪)).
  - rewrite append_assoc. str_simpl.
    rewrite translate_after_newline, Htok.
    destruct (translate_ends_newline c0 false) as [[? _] | [T0 ->]];
      [discriminate|].
    rewrite append_assoc. str_simpl.
    rewrite splitlines_after_newline, (splitlines_single t) by assumption.
    rewrite map_app, list_to_set_app_L. cbn [map list_to_set].
    now rewrite Hs, (right_id_L ∅ (∪)).
Qed.

(** X3: [add] writes at the end of the file without looking at it. When the
    last line of the file has no newline (the file was edited by hand, or a
    write was cut short), a ledger constructed from it does hold that last
    token [t1]; but the next [add t2], which returns since the file is
    there, glues [t2] to it: a ledger constructed
    afterwards holds the token [t1 t2] instead, and neither [t1] nor [t2]
    unless an earlier line lists them, although the ledger in memory holds
    [t2]. *)
Theorem X3_unterminated_last_line (d : DoneFile.t) (fs : FileSystem)
        (old t1 t2 : string) :
  fs !! DoneFile.path d = Some (old +:+ t1) ->
  PyStr.ends_line old -> digest_like t1 -> digest_like t2 ->
  let before := DoneFile.done_hashes (DoneFile.init (DoneFile.path d) fs) in
  let d' := (DoneFile.add t2 d fs).2.1 in
  let fs' := (DoneFile.add t2 d fs).2.2 in
  let after := DoneFile.done_hashes (DoneFile.init (DoneFile.path d) fs') in
  before = DoneFile.load old ∪ {[t1]}
  /\ (DoneFile.add t2 d fs).1 = Return tt
  /\ t2 ∈ DoneFile.done_hashes d'
  /\ after = DoneFile.load old ∪ {[t1 +:+ t2]}
  /\ (t1 ∉ DoneFile.load old -> t1 ∉ after)
  /\ (t2 ∉ DoneFile.load old -> t2 ∉ after).
Proof.
  intros Hfile Hold H1 H2. cbv zeta.
  pose proof (missing_dir_file _ _ _ Hfile) as Hdir.
  assert (Hafter : DoneFile.done_hashes
                     (DoneFile.init (DoneFile.path d) (DoneFile.add t2 d fs).2.2)
                   = DoneFile.load old ∪ {[t1 +:+ t2]}).
  { rewrite (init_present _ _ _ (add_file t2 d fs Hdir)), Hfile.
    cbn [from_option id]. rewrite append_assoc.
    destruct (strip_glued t1 t2 H1 H2) as [Hnl Hs].
    rewrite <- (append_assoc t1 t2).
    now rewrite load_append_token, Hs. }
  split; [|split; [|split; [|split; [exact Hafter|]]]].
  - rewrite (init_present _ _ _ Hfile). now apply load_partial_line.
  - now apply add_returns.
  - rewrite add_hashes. apply elem_of_union_l, elem_of_singleton. reflexivity.
  - rewrite Hafter. split; intros Hno Hin;
      apply elem_of_union in Hin as [Hin | Hin]; try (now apply Hno);
      apply elem_of_singleton in Hin; symmetry in Hin; revert Hin.
    + apply append_neq_l. apply H2.
    + apply append_neq_r. apply H1.
Qed.

(** ** The exceptions that leave the pipeline *)

Section PipelineFailures.

Context `{C : Collab.t}.

(** [_parse_note] in closed form. *)
Lemma _parse_note_run (l : nat) (n : EvernoteNote) (st : State) :
  heap st !! l = Some n ->
  EnexUploader._parse_note l st
  = match Collab.parse_note n (rules (self st)) with
    | Return blocks =>
        (Return blocks, add_trace [CallParse n (rules (self st))] st)
    | Raise e =>
        if is_Exception e
        then (Return [],
              add_trace [CallParse n (rules (self st));
                         Log ERROR (parse_fail_msg n); Log DEBUG (exn_str e)] st)
        else (Raise e, add_trace [CallParse n (rules (self st))] st)
    end.
Proof.
  intros Hl. unfold EnexUploader._parse_note, try_except, call_parse.
  unfold bind at 1. rewrite (deref_Some l n) by exact Hl.
  change (set_trace _ st) with (add_trace [CallParse n (rules (self st))] st).
  destruct (Collab.parse_note n (rules (self st))) as [blocks|e];
    [reflexivity|].
  destruct (is_Exception e); [|reflexivity].
  unfold bind at 1. rewrite (deref_Some l n) by exact Hl.
  unfold bind at 1. rewrite logger_run.
  unfold bind at 1. rewrite logger_run.
  unfold ret. rewrite !add_trace_add_trace. reflexivity.
Qed.

(** X4: [except Exception] in [_parse_note] does not take an exception
    outside [Exception] ([KeyboardInterrupt], [SystemExit]): when the
    translation raises one, it leaves [_parse_note] and [upload_note]
    with no ERROR record, no upload call and the ledger and its file
    unchanged; the worker releases its slot all the same and its thread
    ends with the exception. *)
Theorem X4_base_exception_not_absorbed root l idx n e st :
  heap st !! l = Some n ->
  note_hash n ∉ tokens st ->
  let n' := with_tag (rules (self st)) n in
  Collab.parse_note n' (rules (self st)) = Raise e ->
  is_Exception e = false ->
  let r := EnexUploader.upload_note root l idx st in
  let wr := EnexUploader.upload_note_with_release root l idx st in
  (forall l0 st0, heap st0 !! l0 = Some n' -> rules (self st0) = rules (self st) ->
     EnexUploader._parse_note l0 st0
     = (Raise e, add_trace [CallParse n' (rules (self st))] st0))
  /\ (r.1 = Raise e
      /\ trace r.2 = trace st ++ [Log DEBUG (parsing_msg n);
                                  CallParse n' (rules (self st))]
      /\ logs_at ERROR (trace r.2) = logs_at ERROR (trace st)
      /\ upload_attempts (trace r.2) = upload_attempts (trace st)
      /\ self r.2 = self st
      /\ fs r.2 = fs st)
  /\ (BoundedSemaphore.value (semaphore (self st))
      < BoundedSemaphore.initial_value (semaphore (self st)) ->
      wr.1 = Raise e
      /\ BoundedSemaphore.value (semaphore (self wr.2))
         = BoundedSemaphore.value (semaphore (self st)) + 1
      /\ logs_at ERROR (trace wr.2) = logs_at ERROR (trace st)
      /\ upload_attempts (trace wr.2) = upload_attempts (trace st)
      /\ tokens wr.2 = tokens st
      /\ fs wr.2 = fs st).
Proof.
  intros Hl Hnew n' Hparse He r wr.
  assert (Hrun : forall l0 st0, heap st0 !! l0 = Some n ->
            self st0 = self st ->
            EnexUploader.upload_note root l0 idx st0
            = (Raise e, parsed_state l0 n st0)).
  { intros l0 st0 Hl0 Hself.
    rewrite (upload_note_run root l0 idx n st0 Hl0)
      by (unfold tokens; now rewrite Hself).
    rewrite Hself. fold n'. now rewrite Hparse, He. }
  split; [|split].
  - intros l0 st0 Hl0 Hrules.
    rewrite (_parse_note_run l0 n' st0 Hl0), Hrules, Hparse, He. reflexivity.
  - unfold r. rewrite (Hrun l st Hl eq_refl). cbn [fst snd].
    unfold parsed_state. rewrite trace_add_trace. cbn [trace set_heap].
    fold n'. count_events. repeat split; lia.
  - intros Hslot. unfold wr.
    rewrite (upload_note_with_release_run root l idx n st Hl).
    unfold try_finally.
    rewrite (Hrun (copy_loc st) (copied_state l n st));
      [|apply lookup_insert_eq | reflexivity].
    rewrite semaphore_release_run. cbn zeta.
    set (st' := parsed_state _ _ _).
    change (semaphore (self st')) with (semaphore (self st)).
    destruct (Nat.ltb_spec (BoundedSemaphore.initial_value (semaphore (self st)))
                (BoundedSemaphore.value (semaphore (self st)) + 1)); [lia|].
    unfold st'. state_simpl. count_events. repeat split; lia.
Qed.


End PipelineFailures.

(** ** What every step of a run keeps *)

(** For a relation that is kept by logging, by calls of the collaborators,
    by changes of note objects, of the semaphore and of the note count, and
    by [add] on the ledger: every step of every thread keeps it. *)
Section StepFrame.

Context `{C : Collab.t} (R : State -> State -> Prop) `{!PreOrder R}.

Import Dispatch.

Hypothesis R_trace : forall st e, R st (add_trace [e] st).
Hypothesis R_heap : forall st h, R st (set_heap h st).
Hypothesis R_semaphore : forall st b,
  R st (set_self (set_semaphore b (self st)) st).
Hypothesis R_count : forall st c,
  R st (set_self (set_notebook_notes_count c (self st)) st).
Hypothesis R_add : forall st h, R st (ledger_add h st).2.

Lemma sf_deepcopy l : preserves R (deepcopy l).
Proof.
  apply preserves_bind; [apply _ | apply preserves_deref, _|].
  intros n st. apply R_heap.
Qed.

Lemma sf_check_ledger l : preserves R (check_ledger l).
Proof. apply frame_check_ledger; [apply _ | intros st e _; apply R_trace]. Qed.

Lemma sf_translate root l idx : preserves R (translate root l idx).
Proof.
  apply frame_translate; [apply _ | intros st e _; apply R_trace |].
  intros st l0 n t _. apply R_heap.
Qed.

Lemma sf_call_upload root l blocks : preserves R (call_upload root l blocks).
Proof.
  apply preserves_bind; [apply _ | apply preserves_deref, _|].
  intros n st. apply (R_trace st (CallUpload root n blocks)).
Qed.

Lemma sf_retry_warning l : preserves R (retry_warning l).
Proof. apply frame_retry_warning; [apply _ | intros st e _; apply R_trace]. Qed.

Lemma sf_commit l : preserves R (n <- deref l ;; ledger_add (note_hash n)).
Proof.
  apply preserves_bind; [apply _ | apply preserves_deref, _|].
  intros n st. apply R_add.
Qed.

Lemma sf_release k : preserves R (semaphore_release k).
Proof.
  intros st. unfold semaphore_release.
  destruct (BoundedSemaphore.release k (semaphore (self st))) as [o b].
  apply R_semaphore.
Qed.

Lemma sf_acquire st st' : semaphore_acquire st = Some st' -> R st st'.
Proof.
  unfold semaphore_acquire.
  destruct (BoundedSemaphore.acquire (semaphore (self st))) as [b|];
    [|discriminate].
  intros [= <-]. apply R_semaphore.
Qed.

Lemma sf_get_notebook_root t :
  preserves R (EnexUploader._get_notebook_root t).
Proof.
  intros st. unfold EnexUploader._get_notebook_root.
  destruct (import_root (self st)); [|reflexivity].
  destruct (if String.eqb _ _ then _ else _); reflexivity.
Qed.

Lemma sf_start_notebook f : preserves R (start_notebook f).
Proof.
  apply preserves_bind; [apply _ | intros st; apply R_trace |]. intros _.
  apply preserves_bind; [apply _ | intros st; apply R_count |]. intros _.
  apply sf_get_notebook_root.
Qed.

Lemma worker_step_frame (w : worker) (st st' : State) (pc : worker_pc) :
  worker_step w st = Some (pc, st') -> R st st'.
Proof.
  unfold worker_step. intros Hstep.
  assert (Hrun : forall A (m : M A) o st0 st1,
            preserves R m -> m st0 = (o, st1) -> R st0 st1).
  { intros A m o st0 st1 Hm Heq. specialize (Hm st0). now rewrite Heq in Hm. }
  destruct (w_pc w) as [|l|l|r l blocks attempt|l|o|o]; [..|discriminate].
  - destruct (deepcopy (w_note w) st) as [[l|e] st1] eqn:Hd;
      injection Hstep as <- <-;
      exact (Hrun _ _ _ _ _ (sf_deepcopy _) Hd).
  - destruct (check_ledger l st) as [[[|]|e] st1] eqn:Hd;
      injection Hstep as <- <-;
      exact (Hrun _ _ _ _ _ (sf_check_ledger _) Hd).
  - destruct (translate (w_root w) l (w_idx w) st) as [[[[r b]|]|e] st1] eqn:Hd;
      injection Hstep as <- <-;
      exact (Hrun _ _ _ _ _ (sf_translate _ _ _) Hd).
  - destruct (call_upload r l blocks st) as [[[]|e] st1] eqn:Hd.
    + injection Hstep as <- <-. exact (Hrun _ _ _ _ _ (sf_call_upload _ _ _) Hd).
    + pose proof (Hrun _ _ _ _ _ (sf_call_upload _ _ _) Hd) as H1.
      destruct (is_NoteUploadFail e);
        [destruct (attempt =? 4)%nat;
         [|destruct (retry_warning l st1) as [[[]|e'] st2] eqn:Hw]|];
        injection Hstep as <- <-; try exact H1;
        (etransitivity; [exact H1|]);
        exact (Hrun _ _ _ _ _ (sf_retry_warning _) Hw).
  - destruct ((n <- deref l ;; ledger_add (note_hash n)) st) as [o st1] eqn:Hd.
    injection Hstep as <- <-. exact (Hrun _ _ _ _ _ (sf_commit _) Hd).
  - destruct (semaphore_release 1 st) as [[[]|e] st1] eqn:Hd;
      injection Hstep as <- <-;
      exact (Hrun _ _ _ _ _ (sf_release _) Hd).
Qed.

Lemma coord_step_frame (s s' : system) :
  coord_step s = Some s' -> R (shared s) (shared s').
Proof.
  unfold coord_step. intros Hstep.
  destruct (coord s) as [f|root [|n pending] idx|root l pending idx
                         |root l pending idx|[|j]| |o].
  - pose proof (sf_start_notebook f (shared s)) as Hs.
    destruct (start_notebook f (shared s)) as [[root|e] st1];
      injection Hstep as <-; exact Hs.
  - injection Hstep as <-. reflexivity.
  - injection Hstep as <-. apply R_heap.
  - destruct (semaphore_acquire (shared s)) as [st1|] eqn:Ha; [|discriminate].
    injection Hstep as <-. now apply sf_acquire.
  - injection Hstep as <-. reflexivity.
  - injection Hstep as <-. reflexivity.
  - destruct (semaphore_acquire (shared s)) as [st1|] eqn:Ha; [|discriminate].
    injection Hstep as <-. now apply sf_acquire.
  - pose proof (sf_release (parallelism (self (shared s))) (shared s)) as Hs.
    destruct (semaphore_release _ (shared s)) as [o st1].
    injection Hstep as <-. exact Hs.
  - discriminate.
Qed.

Lemma step_frame (s s' : system) : step s s' -> R (shared s) (shared s').
Proof.
  intros [[|i] Hstep]; [now apply coord_step_frame|].
  unfold step_thread in Hstep.
  destruct (workers s !! i) as [w|]; [|discriminate].
  destruct (worker_step w (shared s)) as [[pc st1]|] eqn:Hw; [|discriminate].
  injection Hstep as <-. exact (worker_step_frame _ _ _ _ Hw).
Qed.


End StepFrame.

(** ** The ledger and its file along a run *)

Lemma ledger_after_nil (l : ledger) (f : FileSystem) :
  ledger_after [] l f = (l, f).
Proof. destruct l; reflexivity. Qed.

Lemma add_all_app (hs1 hs2 : list string) : forall (d : DoneFile.t)
    (f : FileSystem),
  DoneFile.add_all (hs1 ++ hs2) d f
  = DoneFile.add_all hs2 (DoneFile.add_all hs1 d f).1
      (DoneFile.add_all hs1 d f).2.
Proof.
  induction hs1 as [|h hs1 IH]; intros d f; [reflexivity|].
  cbn [app]. rewrite !add_all_cons. apply IH.
Qed.

Lemma ledger_after_app (hs1 hs2 : list string) (l : ledger) (f : FileSystem) :
  ledger_after (hs1 ++ hs2) l f
  = ledger_after hs2 (ledger_after hs1 l f).1 (ledger_after hs1 l f).2.
Proof.
  destruct l as [d|s]; unfold ledger_after; cbn [fst snd].
  - now rewrite add_all_app.
  - now rewrite fold_left_app.
Qed.

#[local] Instance only_adds_preorder : PreOrder only_adds.
Proof.
  split.
  - intros st. exists []. now rewrite ledger_after_nil.
  - intros a b c [hs1 H1] [hs2 H2]. exists (hs1 ++ hs2).
    now rewrite ledger_after_app, <- H1, H2.
Qed.



Section LedgerRuns.

Context `{C : Collab.t}.

Import Dispatch.


End LedgerRuns.




Section LedgerAlongRuns.

Context `{C : Collab.t}.

Import Dispatch.


End LedgerAlongRuns.

(** ** The start of [upload_notebook] *)

Section NotebookStart.

Context `{C : Collab.t}.

Import Dispatch.

(** Lines 59-62 in closed form. *)
Lemma start_notebook_run (f : string) (st : State) :
  let st1 := set_self (set_notebook_notes_count
                         (Some (Collab.count_notes f)) (self st))
               (add_trace [Log INFO ("Processing notebook '"
                                     +:+ Collab.stem f +:+ "'...")] st) in
  start_notebook f st
  = match import_root (self st) with
    | None => (Return None, st1)
    | Some r =>
        match (if String.eqb (mode (self st)) "DB"
               then Collab.get_notebook_database r (Collab.stem f)
               else Collab.get_notebook_page r (Collab.stem f)) with
        | Return c => (Return (Some c), st1)
        | Raise e => (Raise e, st1)
        end
    end.
Proof.
  cbv zeta. unfold start_notebook.
  unfold bind at 1. rewrite logger_run.
  unfold bind at 1. unfold EnexUploader._get_notebook_root.
  state_simpl. destruct (import_root (self st)); reflexivity.
Qed.

(** A thread that has ended does not move. *)
Lemma ended_workers_stay (s : system) (i : nat) :
  Forall (fun w => active w = false) (workers s) ->
  step_thread (Thread i) s = None.
Proof.
  intros Hdone. unfold step_thread.
  destruct (workers s !! i) as [w|] eqn:Hi; [|reflexivity].
  rewrite Forall_lookup in Hdone. specialize (Hdone i w Hi).
  unfold active in Hdone. unfold worker_step.
  destruct (w_pc w); try discriminate. reflexivity.
Qed.

(** X7: when the lookup of the destination container raises
    ([get_notebook_database] for the mode "DB", [get_notebook_page] for
    every other mode), [upload_notebook] raises that exception after it
    has logged the notebook and stored the note count: the run has these
    two states only, so that no note is read, no worker is started, the
    semaphore, the note objects, the ledger and the files are as
    before. *)
Theorem X7_root_lookup_failure (s0 : system) (f r : string) (e : exn) :
  ready s0 -> coord s0 = CStart f ->
  import_root (self (shared s0)) = Some r ->
  (if String.eqb (mode (self (shared s0))) "DB"
   then Collab.get_notebook_database r (Collab.stem f)
   else Collab.get_notebook_page r (Collab.stem f)) = Raise e ->
  let st0 := shared s0 in
  let st1 := set_self (set_notebook_notes_count
                         (Some (Collab.count_notes f)) (self st0))
               (add_trace [Log INFO ("Processing notebook '"
                                     +:+ Collab.stem f +:+ "'...")] st0) in
  let s1 := mkSystem st1 (CDone (Raise e)) (workers s0) in
  step s0 s1
  /\ (forall s, reachable s0 s -> s = s0 \/ s = s1)
  /\ heap st1 = heap st0 /\ fs st1 = fs st0
  /\ done_hashes (self st1) = done_hashes (self st0)
  /\ semaphore (self st1) = semaphore (self st0).
Proof.
  intros (_ & Hdone & _) Hc Hroot Hlookup st0 st1 s1.
  assert (Hmain : step_thread Main s0 = Some s1).
  { unfold step_thread, coord_step. rewrite Hc, start_notebook_run.
    cbv zeta. rewrite Hroot, Hlookup. reflexivity. }
  assert (Hnext : forall s, step s0 s -> s = s1).
  { intros s [[|i] Hstep]; [congruence|].
    now rewrite ended_workers_stay in Hstep. }
  assert (Hend : forall s, ~ step s1 s).
  { intros s [[|i] Hstep]; [discriminate|].
    now rewrite ended_workers_stay in Hstep. }
  split; [now exists Main|]. split; [|repeat split].
  intros s Hreach. destruct Hreach as [|s0 s2 s3 Hstep Hrest]; [now left|].
  right. apply Hnext in Hstep as ->.
  destruct Hrest as [|s1' s2 s3 Hstep _]; [reflexivity|].
  now apply Hend in Hstep.
Qed.

End NotebookStart.

(** ** An uploader without a slot *)

Section NoSlots.

Context `{C : Collab.t}.

Import Dispatch.

Lemma semaphore_acquire_empty (st : State) :
  BoundedSemaphore.value (semaphore (self st)) = 0 ->
  semaphore_acquire st = None.
Proof.
  intros Hv. unfold semaphore_acquire, BoundedSemaphore.acquire.
  now rewrite Hv.
Qed.

Lemma starved_ready (s0 : system) (f : string) (root : option Container) :
  ready s0 -> coord s0 = CStart f ->
  parallelism (self (shared s0)) = 0 ->
  (start_notebook f (shared s0)).1 = Return root ->
  starved f (workers s0) s0.
Proof.
  intros (_ & Hdone & Hv & _) Hc Hp Hstart. unfold starved.
  rewrite Hc, Hv, Hp. repeat split; eauto.
Qed.

Lemma starved_step (f : string) (ws0 : list worker) (s s' : system) :
  starved f ws0 s -> step s s' -> starved f ws0 s'.
Proof.
  intros (Hv & Hp & Hws & Hdone & Hc) [[|i] Hstep]; cycle 1.
  { rewrite ended_workers_stay in Hstep by (now rewrite Hws). discriminate. }
  unfold step_thread, coord_step in Hstep. unfold starved.
  destruct s as [st c ws]. cbn [shared coord workers] in *.
  destruct c as [f'|root [|n pending] idx|root l pending idx
                 |root l pending idx|[|j]| |o].
  - destruct Hc as (-> & root & Hroot).
    pose proof (start_notebook_config f st) as (Hs & Hpar & _).
    destruct (start_notebook f st) as [[root'|e] st1]; [|discriminate].
    injection Hstep as <-. cbn [shared coord workers snd] in *.
    rewrite Hs, Hpar. repeat split; auto.
  - injection Hstep as <-. cbn [shared coord workers]. rewrite Hp.
    repeat split; auto.
  - injection Hstep as <-. cbn [shared coord workers]. state_simpl.
    repeat split; auto. rewrite <- Hc. discriminate.
  - now rewrite semaphore_acquire_empty in Hstep.
  - destruct Hc.
  - injection Hstep as <-. cbn [shared coord workers].
    destruct Hc as [_ Hc]. repeat split; auto.
  - destruct Hc as [Hc _]. discriminate.
  - unfold semaphore_release, BoundedSemaphore.release in Hstep.
    rewrite Hp in Hstep. change (0 <? 1)%nat with true in Hstep.
    injection Hstep as <-. cbn [shared coord workers]. state_simpl.
    destruct st as [? ? ? [? ? ? ? ? ? []]]. cbn in *. repeat split; auto.
  - discriminate.
Qed.

Lemma starved_reachable (f : string) (ws0 : list worker) (s s' : system) :
  starved f ws0 s -> reachable s s' -> starved f ws0 s'.
Proof.
  intros Hinv Hreach. induction Hreach as [s|s1 s2 s3 Hstep _ IH].
  - exact Hinv.
  - apply IH. eapply starved_step; eassumption.
Qed.

(** X8: with [parallelism = 0] the semaphore has no slot. When the
    notebook has a note, [upload_notebook] never returns: the main thread
    takes the first note from the iterator and then waits for a slot for
    ever, with no thread left that could release one; no worker is
    started. When the notebook has no note, the call ends with the
    [ValueError] of [release(0)]. *)
Theorem X8_no_slot (s0 : system) (f : string) (root : option Container) :
  ready s0 -> coord s0 = CStart f ->
  parallelism (self (shared s0)) = 0 ->
  (start_notebook f (shared s0)).1 = Return root ->
  (forall s, reachable s0 s -> workers s = workers s0)
  /\ (Collab.iter_notes f <> [] ->
      (forall s, reachable s0 s -> ~ finished s)
      /\ exists s l pending,
           reachable s0 s /\ coord s = CAcquire root l pending 1 /\ stuck s)
  /\ (Collab.iter_notes f = [] ->
      (forall s, reachable s0 s -> finished s ->
         coord s = CDone (Raise (ValueError "n must be one or more")))
      /\ exists s, reachable s0 s /\ finished s).
Proof.
  intros Hready Hc Hp Hstart.
  pose proof (starved_ready s0 f root Hready Hc Hp Hstart) as Hinv0.
  assert (Hinv : forall s, reachable s0 s -> starved f (workers s0) s)
    by (intros s; now apply starved_reachable).
  assert (Hstuck : forall s, starved f (workers s0) s ->
            coord_step s = None -> stuck s).
  { intros s (_ & _ & Hws & Hdone & _) Hmain [|i]; [exact Hmain|].
    apply ended_workers_stay. now rewrite Hws. }
  assert (H1 : exists st1,
            step_thread Main s0
            = Some (mkSystem st1 (CNext root (Collab.iter_notes f) 1)
                             (workers s0))).
  { unfold step_thread, coord_step. rewrite Hc.
    destruct (start_notebook f (shared s0)) as [o st1]. cbn [fst] in Hstart.
    subst o. eauto. }
  destruct H1 as [st1 H1].
  set (s1 := mkSystem st1 (CNext root (Collab.iter_notes f) 1) (workers s0)) in *.
  assert (Hr1 : reachable s0 s1) by (apply rtc_once; now exists Main).
  split; [|split].
  - intros s Hreach. apply (Hinv s Hreach).
  - intros Hne. split.
    + intros s Hreach [o Ho]. destruct (Hinv s Hreach) as (_ & _ & _ & _ & Hcs).
      rewrite Ho in Hcs. now destruct Hcs.
    + destruct (Collab.iter_notes f) as [|n pending] eqn:HN; [congruence|].
      set (s2 := mkSystem (alloc_note n st1).2
                   (CAcquire root (alloc_note n st1).1 pending 1) (workers s0)).
      assert (Hr2 : reachable s0 s2).
      { eapply rtc_r; [exact Hr1|]. exists Main. reflexivity. }
      exists s2, (alloc_note n st1).1, pending.
      split; [exact Hr2|]. split; [reflexivity|].
      apply Hstuck; [now apply Hinv|].
      destruct (Hinv s2 Hr2) as (Hv & _).
      unfold coord_step. cbn [coord s2].
      now rewrite semaphore_acquire_empty.
  - intros HN. split.
    + intros s Hreach [o Ho]. destruct (Hinv s Hreach) as (_ & _ & _ & _ & Hcs).
      rewrite Ho in Hcs. destruct Hcs as [_ ->]. exact Ho.
    + set (s2 := mkSystem st1 (CDrain (parallelism (self st1))) (workers s0)).
      assert (Hr2 : reachable s0 s2).
      { eapply rtc_r; [exact Hr1|]. exists Main.
        unfold step_thread, coord_step. cbn [coord s1]. now rewrite HN. }
      destruct (Hinv s2 Hr2) as (_ & _ & _ & _ & Hi & _).
      cbn [coord s2] in Hi.
      set (s3 := mkSystem st1 CRelease (workers s0)).
      assert (Hr3 : reachable s0 s3).
      { eapply rtc_r; [exact Hr2|]. exists Main.
        unfold step_thread, coord_step. cbn [coord s2]. now rewrite Hi. }
      destruct (semaphore_release (parallelism (self st1)) st1)
        as [o st4] eqn:Hrel.
      exists (mkSystem st4 (CDone o) (workers s0)). split; [|now exists o].
      eapply rtc_r; [exact Hr3|]. exists Main.
      unfold step_thread, coord_step. cbn [coord shared s3 workers].
      now rewrite Hrel.
Qed.

End NoSlots.

(** ** Every run of [upload_notebook] ends *)

Section Termination.

Context `{C : Collab.t}.

Import Dispatch.

Lemma fuel_insert (ws : list worker) (i : nat) (w w' : worker) :
  ws !! i = Some w ->
  sum_list_with fuel_of (<[i := w']> ws) + fuel_of w
  = sum_list_with fuel_of ws + fuel_of w'.
Proof.
  revert i. induction ws as [|x ws IH]; intros [|i] Hi; try discriminate.
  - change (Some x = Some w) in Hi. injection Hi as ->.
    change (<[0 := w']> (w :: ws)) with (w' :: ws).
    cbn [sum_list_with]. lia.
  - change (ws !! i = Some w) in Hi.
    change (<[S i := w']> (x :: ws)) with (x :: <[i := w']> ws).
    cbn [sum_list_with]. specialize (IH i Hi). lia.
Qed.

Lemma fuel_ended (ws : list worker) :
  Forall (fun w => active w = false) ws -> sum_list_with fuel_of ws = 0.
Proof.
  induction 1 as [|w ws Hw _ IH]; [reflexivity|].
  cbn [sum_list_with]. rewrite IH. unfold active in Hw. unfold fuel_of.
  destruct (w_pc w); try discriminate. reflexivity.
Qed.

Lemma attempt_ok_ended (ws : list worker) :
  Forall (fun w => active w = false) ws -> Forall attempt_ok ws.
Proof.
  intros Hdone. eapply Forall_impl; [exact Hdone|].
  intros w Hw. unfold active in Hw. unfold attempt_ok.
  destruct (w_pc w); try discriminate. exact I.
Qed.

(** Each step of a worker uses up some of its fuel. *)
Lemma worker_step_fuel (w : worker) (st st' : State) (pc : worker_pc) :
  attempt_ok w ->
  worker_step w st = Some (pc, st') ->
  worker_fuel pc < worker_fuel (w_pc w) /\ attempt_ok (set_pc pc w).
Proof.
  unfold attempt_ok, worker_step. cbn [set_pc w_pc].
  destruct (w_pc w) as [|l|l|r l blocks attempt|l|o|o];
    intros Hok Hstep; [..|discriminate].
  - destruct (deepcopy (w_note w) st) as [[]];
      injection Hstep as <- <-; cbn; (split; [lia | exact I]).
  - destruct (check_ledger l st) as [[[|]|]];
      injection Hstep as <- <-; cbn; split; try lia; exact I.
  - destruct (translate (w_root w) l (w_idx w) st) as [[[[]|]|]];
      injection Hstep as <- <-; cbn; split; try lia; exact I.
  - destruct (call_upload r l blocks st) as [[|e] st1].
    + injection Hstep as <- <-. cbn. split; [lia | exact I].
    + destruct (is_NoteUploadFail e);
        [destruct (Nat.eqb_spec attempt 4);
         [|destruct (retry_warning l st1) as [[]]]|];
        injection Hstep as <- <-; cbn; split; try lia; exact I.
  - destruct ((n <- deref l ;; ledger_add (note_hash n)) st).
    injection Hstep as <- <-. cbn. split; [lia | exact I].
  - destruct (semaphore_release 1 st) as [[]];
      injection Hstep as <- <-; cbn; split; try lia; exact I.
Qed.

Lemma timed_ready (s : system) :
  ready s -> timed (parallelism (self (shared s))) s.
Proof.
  intros Hready. split; [now apply slots_inv_ready|].
  apply attempt_ok_ended, Hready.
Qed.

(** Each step of a run uses up some of its fuel. *)
Lemma step_fuel (p : nat) (s s' : system) :
  timed p s -> step s s' -> timed p s' /\ run_fuel p s' < run_fuel p s.
Proof.
  intros [Hslots Hok] Hstep.
  split; [split; [eapply slots_inv_step; eassumption|]|].
  - destruct Hstep as [[|i] Hstep].
    + unfold step_thread, coord_step in Hstep.
      destruct (coord s) as [f|root [|n pending] idx|root l pending idx
                             |root l pending idx|[|j]| |o];
        repeat match type of Hstep with
               | match ?x with _ => _ end = _ => destruct x
               | (let (_, _) := ?x in _) = _ => destruct x
               end;
        try discriminate; injection Hstep as <-; cbn [workers]; try exact Hok.
      apply Forall_app. split; [exact Hok|]. repeat constructor.
    + unfold step_thread in Hstep.
      destruct (workers s !! i) as [w|] eqn:Hw; [|discriminate].
      destruct (worker_step w (shared s)) as [[pc st1]|] eqn:Hws;
        [|discriminate].
      injection Hstep as <-. cbn [workers].
      apply Forall_insert; [exact Hok|].
      rewrite Forall_lookup in Hok.
      exact (proj2 (worker_step_fuel w _ _ _ (Hok i w Hw) Hws)).
  - destruct Hslots as (Hp & _ & _ & Hdrain).
    unfold run_fuel. destruct Hstep as [[|i] Hstep].
    + unfold step_thread, coord_step in Hstep.
      destruct (coord s) as [f|root [|n pending] idx|root l pending idx
                             |root l pending idx|[|j]| |o];
        repeat match type of Hstep with
               | match ?x with _ => _ end = _ => destruct x
               | (let (_, _) := ?x in _) = _ => destruct x
               end;
        try discriminate; injection Hstep as <-;
        cbn [coord workers shared coord_fuel length];
        rewrite ?Hp, ?sum_list_with_app;
        cbn [sum_list_with fuel_of worker_fuel w_pc]; lia.
    + unfold step_thread in Hstep.
      destruct (workers s !! i) as [w|] eqn:Hw; [|discriminate].
      destruct (worker_step w (shared s)) as [[pc st1]|] eqn:Hws;
        [|discriminate].
      injection Hstep as <-. cbn [coord workers].
      rewrite Forall_lookup in Hok.
      destruct (worker_step_fuel w _ _ _ (Hok i w Hw) Hws) as [Hlt _].
      pose proof (fuel_insert (workers s) i w (set_pc pc w) Hw) as Hins.
      change (fuel_of w) with (worker_fuel (w_pc w)) in Hins.
      change (fuel_of (set_pc pc w)) with (worker_fuel pc) in Hins. lia.
Qed.

Lemma nsteps_fuel (p n : nat) (s s' : system) :
  timed p s -> nsteps step n s s' ->
  timed p s' /\ n + run_fuel p s' <= run_fuel p s.
Proof.
  intros Hinv Hrun. induction Hrun as [s|n s1 s2 s3 Hstep _ IH].
  - split; [exact Hinv | lia].
  - destruct (step_fuel p s1 s2 Hinv Hstep) as [Hinv2 Hlt].
    destruct (IH Hinv2) as [Hinv3 Hle]. split; [exact Hinv3 | lia].
Qed.

(** The run that a schedule picks, step by step. *)
Lemma run_schedule_nsteps (sched : list tid) (s : system) :
  exists n, n <= length sched /\ nsteps step n s (run_schedule sched s).
Proof.
  revert s. induction sched as [|t sched IH]; intros s.
  - exists 0. split; [reflexivity | constructor].
  - cbn [run_schedule length].
    destruct (step_thread t s) as [s'|] eqn:Hstep.
    + destruct (IH s') as (n & Hn & Hrun). exists (S n). split; [lia|].
      eapply nsteps_l; [exists t; exact Hstep | exact Hrun].
    + destruct (IH s) as (n & Hn & Hrun). exists n. split; [lia | exact Hrun].
Qed.

(** X9: a call of [upload_notebook] on a notebook of [k] notes, with
    parallelism [p], ends whatever the collaborators do and however the
    threads interleave: no run has more than [13 k + p + 4] steps (for each
    note 3 steps of the main thread and at most 10 of its worker, among
    them at most 5 upload calls); and with [p >= 1] a run in which no
    thread can move any more is one in which [upload_notebook] has
    returned, with every worker ended. *)
Theorem X9_every_run_ends (s0 s : system) (f : string) (n : nat) :
  ready s0 -> coord s0 = CStart f ->
  nsteps step n s0 s ->
  let p := parallelism (self (shared s0)) in
  n + run_fuel p s <= 13 * length (Collab.iter_notes f) + p + 4
  /\ n <= 13 * length (Collab.iter_notes f) + p + 4
  /\ (0 < p -> stuck s ->
      finished s /\ Forall (fun w => active w = false) (workers s)).
Proof.
  intros Hready Hc Hrun p.
  destruct (nsteps_fuel p n s0 s (timed_ready s0 Hready) Hrun)
    as [[Hslots _] Hle].
  assert (Hstart : run_fuel p s0 = 13 * length (Collab.iter_notes f) + p + 4).
  { unfold run_fuel. rewrite Hc, fuel_ended by apply Hready.
    cbn [coord_fuel]. lia. }
  rewrite Hstart in Hle. split; [exact Hle|]. split; [lia|].
  intros Hp Hstuck.
  assert (Hfin : finished s).
  { destruct (coord s) as [| | | | | |o] eqn:Hcs; try (now exists o);
      (assert (Hnot : ~ finished s)
         by (intros [o Ho]; rewrite Hcs in Ho; discriminate));
      destruct (slots_progress p s Hp Hslots Hnot) as (s' & t & Hstep);
      now rewrite Hstuck in Hstep. }
  split; [exact Hfin|].
  destruct Hfin as [o Ho]. destruct Hslots as (_ & _ & _ & Hz).
  rewrite Ho in Hz. now apply active_count_zero.
Qed.

End Termination.

(** ** Which worker gets which note *)

#[local] Instance touches_preorder (l : nat) : PreOrder (touches l).
Proof.
  split.
  - intros st. split; auto.
  - intros a b c [H1 K1] [H2 K2]. split.
    + intros l0 Hne. now rewrite H2, H1.
    + auto.
Qed.

Lemma touches_same_heap (l : nat) (st st' : State) :
  heap st' = heap st -> touches l st st'.
Proof. intros H. split; [intros; now rewrite H | now rewrite H]. Qed.

Section Touches.

Context `{C : Collab.t}.

Import Dispatch.

Lemma touches_event l st e : touches l st (add_trace [e] st).
Proof. now apply touches_same_heap. Qed.

Lemma touches_apply_tag_rule l :
  preserves (touches l) (EnexUploader.apply_tag_rule l).
Proof.
  intros st. unfold EnexUploader.apply_tag_rule, bind, deref.
  destruct (heap st !! l) as [n|] eqn:Hl; [|reflexivity].
  destruct (truthy_tag _) as [t|]; [|reflexivity].
  case_bool_decide; [reflexivity|].
  unfold tags_append, bind, deref. rewrite Hl. cbn [snd].
  split; cbn [heap set_heap].
  - intros l0 Hne. now rewrite lookup_insert_ne.
  - intros _. rewrite lookup_insert_eq. eauto.
Qed.

Lemma touches_check_ledger l l0 : preserves (touches l) (check_ledger l0).
Proof.
  apply frame_check_ledger; [apply _ | intros st e _; apply touches_event].
Qed.

Lemma touches_translate root l idx :
  preserves (touches l) (translate root l idx).
Proof.
  assert (Hev : forall st e, is_upload e = false ->
                             touches l st (add_trace [e] st))
    by (intros; apply touches_event).
  apply preserves_bind; [apply _ | apply touches_apply_tag_rule |]. intros _.
  apply preserves_bind; [apply _ | apply preserves_deref, _|]. intros n.
  apply preserves_bind; [apply _ | now apply frame_logger |]. intros _.
  apply preserves_bind;
    [apply _ | apply frame__parse_note; [apply _ | exact Hev] |].
  intros [|b bs].
  - apply preserves_bind; [apply _ | now apply frame_logger |]. intros _.
    apply preserves_ret, _.
  - destruct root as [r|]; [|apply preserves_ret, _].
    apply preserves_bind; [apply _ | |intros _; apply preserves_ret, _].
    intros st. now apply frame_logger.
Qed.

Lemma touches_call_upload l r l0 blocks :
  preserves (touches l) (call_upload r l0 blocks).
Proof.
  apply preserves_bind; [apply _ | apply preserves_deref, _|].
  intros n st. now apply touches_same_heap.
Qed.

Lemma touches_retry_warning l l0 : preserves (touches l) (retry_warning l0).
Proof.
  apply frame_retry_warning; [apply _ | intros st e _; apply touches_event].
Qed.

Lemma touches_commit l l0 :
  preserves (touches l) (n <- deref l0 ;; ledger_add (note_hash n)).
Proof.
  apply preserves_bind; [apply _ | apply preserves_deref, _|].
  intros n st. apply touches_same_heap.
  now destruct (ledger_add_run (note_hash n) st) as (_ & _ & _ & H & _).
Qed.

(** A worker that has its copy works on that object only, and no step
    gives it another one. *)
Lemma worker_step_touches (w : worker) st pc st' l :
  copy_of (w_pc w) = Some l ->
  worker_step w st = Some (pc, st') ->
  touches l st st' /\ (copy_of pc = Some l \/ copy_of pc = None).
Proof.
  unfold worker_step. intros Hcopy Hstep.
  assert (Hrun : forall A (m : M A) o st0 st1,
            preserves (touches l) m -> m st0 = (o, st1) -> touches l st0 st1).
  { intros A m o st0 st1 Hm Heq. specialize (Hm st0). now rewrite Heq in Hm. }
  destruct (w_pc w) as [|l0|l0|r l0 blocks attempt|l0|o|o];
    try discriminate Hcopy; injection Hcopy as ->.
  - destruct (check_ledger l st) as [[[|]|e] st1] eqn:Hd;
      injection Hstep as <- <-;
      (split; [exact (Hrun _ _ _ _ _ (touches_check_ledger _ _) Hd)|]);
      cbn [copy_of]; auto.
  - destruct (translate (w_root w) l (w_idx w) st) as [[[[r b]|]|e] st1] eqn:Hd;
      injection Hstep as <- <-;
      (split; [exact (Hrun _ _ _ _ _ (touches_translate _ _ _) Hd)|]);
      cbn [copy_of]; auto.
  - destruct (call_upload r l blocks st) as [[[]|e] st1] eqn:Hd.
    + injection Hstep as <- <-.
      split; [exact (Hrun _ _ _ _ _ (touches_call_upload _ _ _ _) Hd)|].
      cbn [copy_of]; auto.
    + pose proof (Hrun _ _ _ _ _ (touches_call_upload _ _ _ _) Hd) as H1.
      destruct (is_NoteUploadFail e);
        [destruct (attempt =? 4)%nat;
         [|destruct (retry_warning l st1) as [[[]|e'] st2] eqn:Hw]|];
        injection Hstep as <- <-; cbn [copy_of];
        (split; [|auto]); try exact H1;
        (etransitivity; [exact H1|]);
        exact (Hrun _ _ _ _ _ (touches_retry_warning _ _) Hw).
  - destruct ((n <- deref l ;; ledger_add (note_hash n)) st) as [o st1] eqn:Hd.
    injection Hstep as <- <-.
    split; [exact (Hrun _ _ _ _ _ (touches_commit _ _) Hd)|].
    cbn [copy_of]; auto.
Qed.

Lemma semaphore_release_heap k st : heap (semaphore_release k st).2 = heap st.
Proof.
  unfold semaphore_release.
  now destruct (BoundedSemaphore.release k (semaphore (self st))).
Qed.

Lemma semaphore_acquire_heap st st' :
  semaphore_acquire st = Some st' -> heap st' = heap st.
Proof.
  unfold semaphore_acquire.
  destruct (BoundedSemaphore.acquire (semaphore (self st))); [|discriminate].
  now intros [= <-].
Qed.

Lemma start_notebook_heap f st : heap (start_notebook f st).2 = heap st.
Proof.
  rewrite start_notebook_run. cbv zeta.
  destruct (import_root (self st)); [|reflexivity].
  destruct (if String.eqb _ _ then _ else _); reflexivity.
Qed.

(** The last step of a worker. *)
Lemma worker_step_release (w : worker) o st pc st' :
  w_pc w = WFinally o ->
  worker_step w st = Some (pc, st') ->
  heap st' = heap st /\ copy_of pc = None.
Proof.
  unfold worker_step. intros -> Hstep.
  pose proof (semaphore_release_heap 1 st) as Hh.
  destruct (semaphore_release 1 st) as [[[]|e] st1];
    injection Hstep as <- <-; auto.
Qed.

End Touches.

Section OrderInvariant.

Context `{C : Collab.t}.

Import Dispatch.

Lemma assigned_update root N st st' new j w pc :
  new !! j = Some w ->
  (forall k w', new !! k = Some w' ->
                heap st' !! w_note w' = heap st !! w_note w') ->
  assigned root N st new ->
  assigned root N st' (<[j := set_pc pc w]> new).
Proof.
  intros Hj Hkeep Hall i wi Hi.
  apply list_lookup_insert_Some in Hi as [(<- & <- & _) | (_ & Hi)].
  - destruct (Hall j w Hj) as (Hr & Hidx & n & Hn & Hh).
    cbn [set_pc w_root w_idx w_note]. rewrite (Hkeep j w Hj). eauto.
  - destruct (Hall i wi Hi) as (Hr & Hidx & n & Hn & Hh).
    rewrite (Hkeep i wi Hi). eauto.
Qed.

Lemma assigned_same root N st st' new :
  (forall k w', new !! k = Some w' ->
                heap st' !! w_note w' = heap st !! w_note w') ->
  assigned root N st new -> assigned root N st' new.
Proof.
  intros Hkeep Hall i wi Hi.
  destruct (Hall i wi Hi) as (Hr & Hidx & n & Hn & Hh).
  rewrite (Hkeep i wi Hi). eauto.
Qed.

(** The step of worker [j]: it keeps its copy, drops it, or makes a new
    one. *)
Lemma unshared_update st st' c new j w pc :
  new !! j = Some w ->
  (forall l, is_Some (heap st !! l) -> is_Some (heap st' !! l)) ->
  (forall k w', new !! k = Some w' -> is_Some (heap st !! w_note w')) ->
  (forall l, in_hand c = Some l -> is_Some (heap st !! l)) ->
  (forall l, copy_of pc = Some l ->
     copy_of (w_pc w) = Some l
     \/ (heap st !! l = None /\ is_Some (heap st' !! l))) ->
  unshared st c new ->
  unshared st' c (<[j := set_pc pc w]> new).
Proof.
  intros Hj Hmono Horig Hhand Hpc Hold i wi l Hi Hcopy.
  assert (Hfresh : heap st !! l = None ->
            in_hand c <> Some l
            /\ forall k w', new !! k = Some w' ->
                 w_note w' <> l /\ copy_of (w_pc w') <> Some l).
  { intros Hnone. split.
    - intros Hc. apply Hhand in Hc as [x Hx]. congruence.
    - intros k w' Hk. split.
      + intros <-. destruct (Horig k w' Hk) as [x Hx]. congruence.
      + intros Hc. destruct (Hold k w' l Hk Hc) as ([x Hx] & _). congruence. }
  apply list_lookup_insert_Some in Hi as [(<- & <- & _) | (Hne & Hi)].
  - cbn [set_pc w_pc] in Hcopy.
    destruct (Hpc l Hcopy) as [Hsame | [Hnone Hnew]].
    + destruct (Hold j w l Hj Hsame) as (Hl & Hh & Hothers).
      split; [auto|]. split; [exact Hh|].
      intros k w' Hk.
      apply list_lookup_insert_Some in Hk as [(<- & <- & _) | (Hkj & Hk)].
      * split; [apply (Hothers j w Hj) | congruence].
      * destruct (Hothers k w' Hk) as [H1 H2]. split; [exact H1|].
        intros _. apply H2. congruence.
    + destruct (Hfresh Hnone) as [Hh Hothers].
      split; [exact Hnew|]. split; [exact Hh|].
      intros k w' Hk.
      apply list_lookup_insert_Some in Hk as [(<- & <- & _) | (Hkj & Hk)].
      * split; [apply (Hothers j w Hj) | congruence].
      * destruct (Hothers k w' Hk) as [H1 H2]. auto.
  - destruct (Hold i wi l Hi Hcopy) as (Hl & Hh & Hothers).
    split; [auto|]. split; [exact Hh|].
    intros k w' Hk.
    apply list_lookup_insert_Some in Hk as [(<- & <- & _) | (Hkj & Hk)].
    + split; [apply (Hothers j w Hj)|].
      intros _ Hc. cbn [set_pc w_pc] in Hc.
      destruct (Hpc l Hc) as [Hsame | [Hnone _]].
      * now apply (Hothers j w Hj).
      * destruct Hl as [x Hx]. congruence.
    + apply (Hothers k w' Hk).
Qed.

(** A step of the main thread that starts no worker. *)
Lemma unshared_coord st st' c c' new :
  (forall l, is_Some (heap st !! l) -> is_Some (heap st' !! l)) ->
  (forall l, in_hand c' = Some l -> in_hand c = Some l \/ heap st !! l = None) ->
  unshared st c new -> unshared st' c' new.
Proof.
  intros Hmono Hhand Hold i w l Hi Hcopy.
  destruct (Hold i w l Hi Hcopy) as (Hl & Hh & Hothers).
  split; [auto|]. split; [|exact Hothers].
  intros Hc. destruct (Hhand l Hc) as [Hc' | Hnone]; [contradiction|].
  destruct Hl as [x Hx]. congruence.
Qed.

(** The main thread gives the object in its hands to a new worker. *)
Lemma unshared_spawn st c c' root l idx new :
  in_hand c = Some l -> in_hand c' = None ->
  unshared st c new ->
  unshared st c' (new ++ [mkWorker root l idx WStart]).
Proof.
  intros Hhand Hnone Hold i w l' Hi Hcopy.
  apply lookup_snoc_Some in Hi as [[Hlt Hi] | [_ <-]]; [|discriminate].
  destruct (Hold i w l' Hi Hcopy) as (Hl & Hh & Hothers).
  split; [exact Hl|]. split; [rewrite Hnone; discriminate|].
  intros k w' Hk.
  apply lookup_snoc_Some in Hk as [[_ Hk] | [_ <-]]; [now apply Hothers|].
  cbn [w_note w_pc copy_of]. split; [|discriminate].
  intros ->. now apply Hh.
Qed.

Lemma iterating_heap root N st st' c k :
  (forall f, c <> CStart f) ->
  (forall l, in_hand c = Some l -> heap st' !! l = heap st !! l) ->
  iterating root N st c k -> iterating root N st' c k.
Proof.
  intros Hc Hhand [Hk Hit]. split; [exact Hk|].
  destruct c as [f|r pending idx|r l pending idx|r l pending idx|i| |o];
    try exact Hit.
  - now destruct (Hc f).
  - destruct Hit as (Hr & Hi & n & Hd & Hl). rewrite <- (Hhand l eq_refl) in Hl.
    eauto.
  - destruct Hit as (Hr & Hi & n & Hd & Hl). rewrite <- (Hhand l eq_refl) in Hl.
    eauto.
Qed.

Lemma assigned_orig root N st new k w' :
  assigned root N st new -> new !! k = Some w' ->
  is_Some (heap st !! w_note w').
Proof. intros Hall Hk. destruct (Hall k w' Hk) as (_ & _ & n & _ & Hn). eauto. Qed.

Lemma iterating_hand root N st c k l :
  iterating root N st c k -> in_hand c = Some l -> is_Some (heap st !! l).
Proof.
  intros [_ Hit] Hc.
  destruct c; try discriminate Hc; injection Hc as ->;
    destruct Hit as (_ & _ & n & _ & Hn); eauto.
Qed.

(** A step of worker [j] of this call. *)
Lemma dispatched_worker_step root N st st' c new j w pc :
  assigned root N st new -> iterating root N st c (length new) ->
  unshared st c new ->
  new !! j = Some w ->
  worker_step w st = Some (pc, st') ->
  assigned root N st' (<[j := set_pc pc w]> new)
  /\ iterating root N st' c (length (<[j := set_pc pc w]> new))
  /\ unshared st' c (<[j := set_pc pc w]> new).
Proof.
  intros Hall Hit Hpriv Hj Hws.
  assert (Hgoal :
    (forall l, is_Some (heap st !! l) -> is_Some (heap st' !! l)) ->
    (forall l, is_Some (heap st !! l) -> copy_of (w_pc w) <> Some l ->
               heap st' !! l = heap st !! l) ->
    (forall l, copy_of pc = Some l ->
       copy_of (w_pc w) = Some l
       \/ (heap st !! l = None /\ is_Some (heap st' !! l))) ->
    assigned root N st' (<[j := set_pc pc w]> new)
    /\ iterating root N st' c (length (<[j := set_pc pc w]> new))
    /\ unshared st' c (<[j := set_pc pc w]> new)).
  { intros Hmono Hkeep Hpc.
    assert (Horig : forall k w', new !! k = Some w' ->
              heap st' !! w_note w' = heap st !! w_note w').
    { intros k w' Hk. apply Hkeep; [eapply assigned_orig; eassumption|].
      intros Hc. destruct (Hpriv j w _ Hj Hc) as (_ & _ & Ho).
      destruct (Ho k w' Hk) as [Hne _]. now apply Hne. }
    assert (Hhand : forall l, in_hand c = Some l ->
              heap st' !! l = heap st !! l).
    { intros l Hl. apply Hkeep; [eapply iterating_hand; eassumption|].
      intros Hc. destruct (Hpriv j w _ Hj Hc) as (_ & Hh & _).
      now apply Hh. }
    split; [now apply (assigned_update root N st)|]. split.
    - rewrite length_insert. apply (iterating_heap root N st); [|exact Hhand|exact Hit].
      intros f ->. destruct Hit as [_ (Hz & _)].
      apply lookup_lt_Some in Hj. lia.
    - apply (unshared_update st); auto.
      + intros k w' Hk. eapply assigned_orig; eassumption.
      + intros l Hl. eapply iterating_hand; eassumption. }
  destruct (copy_of (w_pc w)) as [l|] eqn:Hcopy.
  - destruct (worker_step_touches w st pc st' l Hcopy Hws)
      as [[Hother Hkeepl] Hpc].
    apply Hgoal.
    + intros l0 Hl0. destruct (decide (l0 = l)) as [->|Hne]; [auto|].
      now rewrite Hother.
    + intros l0 _ Hne. apply Hother. congruence.
    + intros l0 Hl0. left. destruct Hpc as [Hpc | Hpc]; congruence.
  - destruct (w_pc w) as [|l0|l0|r l0 blocks attempt|l0|o|o] eqn:Hpcw;
      try discriminate Hcopy.
    + destruct (Hall j w Hj) as (_ & _ & n & _ & Hn).
      destruct (worker_step_start w st pc st' n Hpcw Hn Hws) as [-> ->].
      pose proof (copy_loc_fresh st) as Hfresh.
      apply Hgoal; unfold copied_state; cbn [heap set_heap copy_of].
      * intros l [x Hx]. destruct (decide (l = copy_loc st)) as [->|Hne];
          [congruence|]. rewrite lookup_insert_ne by congruence. eauto.
      * intros l [x Hx] _. apply lookup_insert_ne. congruence.
      * intros l [= <-]. right. split; [exact Hfresh|].
        rewrite lookup_insert_eq. eauto.
    + assert (Hpcw' : w_pc w = WFinally o) by exact Hpcw.
      destruct (worker_step_release w o st pc st' Hpcw' Hws) as [Hh Hnone].
      apply Hgoal.
      * intros l. now rewrite Hh.
      * intros l _ _. now rewrite Hh.
      * intros l Hl. congruence.
    + unfold worker_step in Hws. rewrite Hpcw in Hws. discriminate.
Qed.

Lemma drop_cons_next (N : list EvernoteNote) k n pending :
  drop k N = n :: pending ->
  N !! k = Some n /\ drop (S k) N = pending /\ k < length N.
Proof.
  intros Hd.
  assert (Hn : N !! k = Some n).
  { rewrite <- (Nat.add_0_r k), <- lookup_drop, Hd. reflexivity. }
  split; [exact Hn|]. split.
  - rewrite (drop_S N n k Hn) in Hd. congruence.
  - eapply lookup_lt_Some; eassumption.
Qed.

(** Every step keeps [dispatched]. *)
Lemma dispatched_step root N ws0 s s' :
  dispatched root N ws0 s -> step s s' -> dispatched root N ws0 s'.
Proof.
  intros (Hold & new & Hws & Hall & Hit & Hpriv) [[|i] Hstep];
    (split; [exact Hold|]).
  - unfold step_thread, coord_step in Hstep.
    destruct s as [st c ws]. cbn [shared coord workers] in *. subst ws.
    destruct c as [f|r [|n pending] idx|r l pending idx
                   |r l pending idx|[|j]| |o].
    + destruct Hit as (Hk & Hz & HN & Hstart).
      pose proof (start_notebook_heap f st) as Hh.
      destruct (start_notebook f st) as [[root'|e] st1]; [|discriminate].
      injection Hstart as ->. injection Hstep as <-.
      exists new. cbn [shared coord workers snd] in *.
      split; [reflexivity|].
      split; [apply (assigned_same root N st); [intros; now rewrite Hh | exact Hall]|].
      split; [split; [exact Hk|]; rewrite Hz, drop_0; auto|].
      apply (unshared_coord st st1 (CStart f)); [intros l; now rewrite Hh | | exact Hpriv].
      discriminate.
    + injection Hstep as <-. exists new. cbn [shared coord workers].
      destruct Hit as (Hk & _ & _ & Hd).
      split; [reflexivity|]. split; [exact Hall|].
      split; [|apply (unshared_coord st st (CNext r [] idx));
               [auto | discriminate | exact Hpriv]].
      split; [exact Hk|].
      apply (f_equal length) in Hd. rewrite length_drop in Hd. cbn in Hd. lia.
    + injection Hstep as <-. exists new. cbn [shared coord workers].
      destruct Hit as (Hk & Hr & Hidx & Hd).
      pose proof (copy_loc_fresh st) as Hfresh. unfold copy_loc in Hfresh.
      assert (Hmono : forall l, is_Some (heap st !! l) ->
                heap (set_heap (<[fresh (dom (heap st)) := n]> (heap st)) st) !! l
                = heap st !! l).
      { intros l [x Hx]. cbn [heap set_heap]. apply lookup_insert_ne. congruence. }
      split; [reflexivity|].
      split; [apply (assigned_same root N st); [|exact Hall];
              intros k w' Hk'; apply Hmono; eapply assigned_orig; eassumption|].
      split.
      * split; [exact Hk|]. split; [exact Hr|]. split; [exact Hidx|].
        exists n. split; [exact Hd|]. cbn [heap set_heap].
        apply lookup_insert_eq.
      * apply (unshared_coord st _ (CNext r (n :: pending) idx));
          [| |exact Hpriv].
        -- intros l Hl. rewrite (Hmono l Hl). exact Hl.
        -- intros l [= <-]. now right.
    + destruct (semaphore_acquire st) as [st1|] eqn:Ha; [|discriminate].
      injection Hstep as <-. exists new. cbn [shared coord workers].
      apply semaphore_acquire_heap in Ha.
      split; [reflexivity|].
      split; [apply (assigned_same root N st); [intros; now rewrite Ha | exact Hall]|].
      split.
      * destruct Hit as (Hk & Hr & Hidx & n & Hd & Hl).
        split; [exact Hk|]. rewrite Ha. eauto 6.
      * apply (unshared_coord st st1 (CAcquire r l pending idx));
          [intros l0; now rewrite Ha | | exact Hpriv].
        intros l0 Hl0. now left.
    + injection Hstep as <-.
      exists (new ++ [mkWorker r l idx WStart]). cbn [shared coord workers].
      destruct Hit as (Hk & Hr & Hidx & n & Hd & Hl).
      apply drop_cons_next in Hd as (Hn & Hd & Hlt).
      split; [now rewrite app_assoc|]. split; [|split].
      * intros i w Hi.
        apply lookup_snoc_Some in Hi as [[_ Hi] | [-> <-]]; [now apply Hall|].
        cbn [w_root w_idx w_note]. eauto.
      * rewrite length_app. cbn [length]. rewrite Nat.add_1_r.
        split; [lia|]. split; [exact Hr|]. split; [now rewrite Hidx | exact Hd].
      * now apply (unshared_spawn st (CSpawn r l pending idx)).
    + injection Hstep as <-. exists new. cbn [shared coord workers].
      split; [reflexivity|]. split; [exact Hall|]. split; [exact Hit|].
      apply (unshared_coord st st (CDrain 0)); [auto | discriminate | exact Hpriv].
    + destruct (semaphore_acquire st) as [st1|] eqn:Ha; [|discriminate].
      injection Hstep as <-. exists new. cbn [shared coord workers].
      apply semaphore_acquire_heap in Ha.
      split; [reflexivity|].
      split; [apply (assigned_same root N st); [intros; now rewrite Ha | exact Hall]|].
      split; [exact Hit|].
      apply (unshared_coord st st1 (CDrain (S j)));
        [intros l0; now rewrite Ha | discriminate | exact Hpriv].
    + pose proof (semaphore_release_heap (parallelism (self st)) st) as Hh.
      destruct (semaphore_release (parallelism (self st)) st) as [o st1].
      injection Hstep as <-. exists new. cbn [shared coord workers snd] in *.
      split; [reflexivity|].
      split; [apply (assigned_same root N st); [intros; now rewrite Hh | exact Hall]|].
      split; [exact Hit|].
      apply (unshared_coord st st1 CRelease);
        [intros l0; now rewrite Hh | discriminate | exact Hpriv].
    + discriminate.
  - unfold step_thread in Hstep.
    destruct (workers s !! i) as [w|] eqn:Hw; [|discriminate].
    destruct (worker_step w (shared s)) as [[pc st1]|] eqn:Hstepw;
      [|discriminate].
    injection Hstep as <-. cbn [shared coord workers].
    rewrite Hws in Hw.
    destruct (decide (i < length ws0)) as [Hlt | Hge].
    { rewrite lookup_app_l in Hw by exact Hlt.
      rewrite Forall_lookup in Hold. specialize (Hold i w Hw).
      unfold active in Hold. unfold worker_step in Hstepw.
      destruct (w_pc w); discriminate. }
    rewrite lookup_app_r in Hw by lia.
    exists (<[i - length ws0 := set_pc pc w]> new).
    split; [rewrite Hws; apply insert_app_r_alt; lia|].
    now apply (dispatched_worker_step root N (shared s)).
Qed.

Lemma dispatched_reachable root N ws0 s s' :
  dispatched root N ws0 s -> reachable s s' -> dispatched root N ws0 s'.
Proof.
  intros Hinv Hreach. induction Hreach as [s|s1 s2 s3 Hstep _ IH].
  - exact Hinv.
  - apply IH. eapply dispatched_step; eassumption.
Qed.

Lemma dispatched_ready s0 f root :
  ready s0 -> coord s0 = CStart f ->
  (start_notebook f (shared s0)).1 = Return root ->
  dispatched root (Collab.iter_notes f) (workers s0) s0.
Proof.
  intros (_ & Hdone & _) Hc Hstart. split; [exact Hdone|].
  exists []. split; [now rewrite app_nil_r|].
  split; [intros i w Hi; discriminate|]. split.
  - rewrite Hc. split; [cbn; lia|]. auto.
  - intros i w l Hi. discriminate.
Qed.

End OrderInvariant.

Section OrderTheorems.

Context `{C : Collab.t}.

Import Dispatch.

(** X10: in a call of [upload_notebook] whose container lookup returns
    [root], however the threads interleave: the workers are started in
    the order of the notes in the notebook, the [i]-th of them (from 0)
    with the container [root], the index [i + 1] and the [i]-th note; the
    note object it was given stays as the iterator made it, since each
    worker changes its own copy only: no copy is a note object of the
    iterator, and no two workers have the same copy. When
    [upload_notebook] has returned, every note of the notebook has had
    its worker, and all these workers have ended. *)
Theorem X10_one_worker_per_note (s0 s : system) (f : string)
        (root : option Container) :
  ready s0 -> coord s0 = CStart f ->
  (start_notebook f (shared s0)).1 = Return root ->
  reachable s0 s ->
  let N := Collab.iter_notes f in
  exists new,
    workers s = workers s0 ++ new
    /\ length new <= length N
    /\ (forall i w, new !! i = Some w ->
          w_root w = root /\ w_idx w = S i
          /\ exists n, N !! i = Some n
                       /\ heap (shared s) !! w_note w = Some n)
    /\ (forall i j w w' l,
          new !! i = Some w -> new !! j = Some w' ->
          copy_of (w_pc w) = Some l ->
          w_note w' <> l /\ (j <> i -> copy_of (w_pc w') <> Some l))
    /\ (finished s ->
        length new = length N
        /\ Forall (fun w => active w = false) new).
Proof.
  intros Hready Hc Hstart Hreach N.
  pose proof (dispatched_reachable root N (workers s0) s0 s
                (dispatched_ready s0 f root Hready Hc Hstart) Hreach)
    as (_ & new & Hws & Hall & [Hk Hit] & Hpriv).
  exists new. split; [exact Hws|]. split; [exact Hk|]. split; [exact Hall|].
  split.
  - intros i j w w' l Hi Hj Hcopy.
    destruct (Hpriv i w l Hi Hcopy) as (_ & _ & Hothers). now apply Hothers.
  - intros [o Ho]. rewrite Ho in Hit. split; [exact Hit|].
    pose proof (slots_inv_reachable s0 s Hready Hreach) as (_ & _ & _ & Hz).
    rewrite Ho in Hz. apply active_count_zero in Hz.
    rewrite Hws in Hz. now apply Forall_app in Hz.
Qed.

Lemma calm_trans (a b c : State) : calm a b -> calm b c -> calm a c.
Proof.
  intros (Hh1 & Hd1 & Hf1 & Hi1 & Hr1 & e1 & Ht1 & He1)
         (Hh2 & Hd2 & Hf2 & Hi2 & Hr2 & e2 & Ht2 & He2).
  split; [intros l h H; apply Hh2, Hh1, H|].
  split; [congruence|]. split; [congruence|]. split; [congruence|].
  split; [congruence|].
  exists (e1 ++ e2). split; [now rewrite Ht2, Ht1, app_assoc|].
  apply Forall_app. auto.
Qed.

(** Without a container the translation stage never leads to the upload
    stage. *)
Lemma translate_dry l idx st :
  (translate None l idx st).1 = Return None
  \/ exists e, (translate None l idx st).1 = Raise e.
Proof.
  unfold translate, bind.
  destruct (EnexUploader.apply_tag_rule l st) as [[[]|e] st1]; [|eauto].
  destruct (deref l st1) as [[n|e] st2]; [|eauto].
  destruct (logger DEBUG _ st2) as [[[]|e] st3]; [|eauto].
  destruct (EnexUploader._parse_note l st3) as [[[|b bs]|e] st4]; [| |eauto].
  - destruct (logger DEBUG _ st4) as [[[]|e] st5]; [|eauto]. now left.
  - now left.
Qed.

Lemma rehearsal_step N ws0 st0 s s' :
  rehearsal N ws0 st0 s -> step s s' -> rehearsal N ws0 st0 s'.
Proof.
  intros (Hdisp & Hcalm & Hpcs) Hstep.
  split; [eapply dispatched_step; eassumption|].
  destruct Hdisp as (Hold & new & Hws & Hall & Hit & Hpriv).
  destruct Hstep as [[|i] Hstep].
  - unfold step_thread, coord_step in Hstep.
    destruct s as [st c ws]. cbn [shared coord workers] in *.
    destruct c as [f|r [|n pending] idx|r l pending idx
                   |r l pending idx|[|j]| |o].
    + pose proof (start_notebook_calm f st) as Hc.
      destruct (start_notebook f st) as [[root'|e] st1];
        injection Hstep as <-; cbn [shared workers snd] in *;
        (split; [eapply calm_trans; eassumption | exact Hpcs]).
    + injection Hstep as <-. split; assumption.
    + injection Hstep as <-. cbn [shared workers].
      split; [|exact Hpcs]. eapply calm_trans; [exact Hcalm|].
      apply (copied_state_calm 0 n st).
    + destruct (semaphore_acquire st) as [st1|] eqn:Ha; [|discriminate].
      injection Hstep as <-. cbn [shared workers].
      split; [|exact Hpcs]. eapply calm_trans; [exact Hcalm|].
      now apply semaphore_acquire_calm.
    + injection Hstep as <-. cbn [shared workers].
      split; [exact Hcalm|]. apply Forall_app. split; [exact Hpcs|].
      repeat constructor.
    + injection Hstep as <-. split; assumption.
    + destruct (semaphore_acquire st) as [st1|] eqn:Ha; [|discriminate].
      injection Hstep as <-. cbn [shared workers].
      split; [|exact Hpcs]. eapply calm_trans; [exact Hcalm|].
      now apply semaphore_acquire_calm.
    + pose proof (semaphore_release_calm (parallelism (self st)) st) as Hc.
      destruct (semaphore_release (parallelism (self st)) st) as [o st1].
      injection Hstep as <-. cbn [shared workers snd] in *.
      split; [eapply calm_trans; eassumption | exact Hpcs].
    + discriminate.
  - unfold step_thread in Hstep.
    destruct (workers s !! i) as [w|] eqn:Hw; [|discriminate].
    destruct (worker_step w (shared s)) as [[pc st1]|] eqn:Hstepw;
      [|discriminate].
    injection Hstep as <-. cbn [shared workers].
    assert (Hpcw : before_upload w)
      by (rewrite Forall_lookup in Hpcs; exact (Hpcs i w Hw)).
    assert (Hnew : new !! (i - length ws0) = Some w).
    { rewrite Hws in Hw.
      destruct (decide (i < length ws0)) as [Hlt | Hge];
        [|now rewrite lookup_app_r in Hw by lia].
      rewrite lookup_app_l in Hw by exact Hlt.
      rewrite Forall_lookup in Hold. specialize (Hold i w Hw).
      unfold active in Hold. unfold worker_step in Hstepw.
      destruct (w_pc w); discriminate. }
    destruct (Hall _ w Hnew) as (Hroot & _ & n & _ & Hn).
    assert (Hgoal : calm (shared s) st1 -> before_upload (set_pc pc w) ->
                    calm st0 st1
                    /\ Forall before_upload (<[i := set_pc pc w]> (workers s))).
    { intros H1 H2. split; [eapply calm_trans; eassumption|].
      now apply Forall_insert. }
    unfold before_upload in Hpcw. unfold before_upload at 1 in Hgoal.
    cbn [set_pc w_pc] in Hgoal.
    destruct (w_pc w) as [|l|l|r l blocks attempt|l|o|o] eqn:Hpc;
      try contradiction.
    + destruct (worker_step_start w _ _ _ n Hpc Hn Hstepw) as [-> ->].
      apply Hgoal; [apply copied_state_calm | exact I].
    + destruct (Hpriv _ w l Hnew) as ([m Hm] & _);
        [now rewrite Hpc|].
      destruct (worker_step_check w l _ _ _ m Hpc Hm Hstepw) as [Hq ->].
      apply Hgoal; [now apply quiet_calm|].
      now destruct (bool_decide _).
    + destruct (worker_step_parse w l _ _ _ Hpc Hstepw) as (Hq & _ & _).
      apply Hgoal; [now apply quiet_calm|].
      unfold worker_step in Hstepw. rewrite Hpc, Hroot in Hstepw.
      destruct (translate_dry l (w_idx w) (shared s)) as [Hd | [e Hd]];
        destruct (translate None l (w_idx w) (shared s)) as [o st2];
        cbn [fst] in Hd; subst o; injection Hstepw as <- _; exact I.
    + destruct (worker_step_finally w o _ _ _ Hpc Hstepw) as ([o' ->] & Hc & _).
      apply Hgoal; [exact Hc | exact I].
    + unfold worker_step in Hstepw. rewrite Hpc in Hstepw. discriminate.
Qed.

Lemma rehearsal_reachable N ws0 st0 s s' :
  rehearsal N ws0 st0 s -> reachable s s' -> rehearsal N ws0 st0 s'.
Proof.
  intros Hinv Hreach. induction Hreach as [s|s1 s2 s3 Hstep _ IH].
  - exact Hinv.
  - apply IH. eapply rehearsal_step; eassumption.
Qed.

(** X11: on an uploader without import root, a call of [upload_notebook]
    is a dry run as a whole, however the threads interleave: every worker
    is started without a container, none of them gets to the upload
    stage, the upload collaborator is never called, and the ledger and
    the files stay as they were. *)
Theorem X11_dry_run (s0 s : system) (f : string) :
  ready s0 -> coord s0 = CStart f ->
  import_root (self (shared s0)) = None ->
  reachable s0 s ->
  (exists new, workers s = workers s0 ++ new
               /\ Forall (fun w => w_root w = None) new)
  /\ Forall before_upload (workers s)
  /\ upload_attempts (trace (shared s)) = upload_attempts (trace (shared s0))
  /\ done_hashes (self (shared s)) = done_hashes (self (shared s0))
  /\ fs (shared s) = fs (shared s0).
Proof.
  intros Hready Hc Hroot Hreach.
  assert (Hstart : (start_notebook f (shared s0)).1 = Return None).
  { rewrite start_notebook_run. cbv zeta. now rewrite Hroot. }
  assert (Hinv0 : rehearsal (Collab.iter_notes f) (workers s0) (shared s0) s0).
  { split; [now apply (dispatched_ready s0 f None)|].
    split; [apply calm_refl|].
    destruct Hready as (_ & Hdone & _).
    eapply Forall_impl; [exact Hdone|].
    intros w Hw. unfold active in Hw. unfold before_upload.
    destruct (w_pc w); try discriminate; exact I. }
  destruct (rehearsal_reachable _ _ _ s0 s Hinv0 Hreach)
    as ((_ & new & Hws & Hall & _) & Hcalm & Hpcs).
  destruct Hcalm as (_ & Hd & Hf & _ & _ & evs & Htr & Hev).
  split; [|split; [exact Hpcs|split; [|split; assumption]]].
  - exists new. split; [exact Hws|]. apply Forall_lookup.
    intros i w Hi. now destruct (Hall i w Hi).
  - rewrite Htr, upload_attempts_app, (no_upload_events evs Hev). lia.
Qed.

End OrderTheorems.

(** ** The semaphore released once too often *)

Section OverRelease.

Context `{C : Collab.t}.

Lemma upload_note_semaphore root l idx n st :
  heap st !! l = Some n ->
  semaphore (self (EnexUploader.upload_note root l idx st).2)
  = semaphore (self st).
Proof.
  intros Hl. destruct (decide (note_hash n ∈ tokens st)) as [Hin | Hnew].
  - now rewrite (upload_note_done_run root l idx n st Hl Hin).
  - destruct (upload_note_shape root l idx n st Hl Hnew)
      as (evs & _ & _ & _ & _ & [(Hs & _) | (c & b & bs & H)]).
    + now rewrite Hs.
    + now destruct H as (_ & _ & _ & _ & _ & _ & _ & Hsem).
Qed.

(** X12: [upload_note_with_release] releases a slot that it has not
    acquired itself. Called while the semaphore is full (not from
    [upload_notebook], which acquires first), the [finally] clause makes
    [BoundedSemaphore.release] raise [ValueError], and this exception
    replaces the result of [upload_note], also when the note was uploaded
    and its token added to the ledger: all that [upload_note] did stays
    done, and the semaphore is left as it was. *)
Theorem X12_release_without_acquire root l idx n st :
  heap st !! l = Some n ->
  BoundedSemaphore.value (semaphore (self st))
  = BoundedSemaphore.initial_value (semaphore (self st)) ->
  let body := EnexUploader.upload_note root (copy_loc st) idx
                (copied_state l n st) in
  let wr := EnexUploader.upload_note_with_release root l idx st in
  wr.1 = Raise (ValueError "Semaphore released too many times")
  /\ wr.2 = body.2
  /\ semaphore (self wr.2) = semaphore (self st).
Proof.
  intros Hl Hfull body wr.
  assert (Hsem : semaphore (self body.2) = semaphore (self st)).
  { unfold body. rewrite (upload_note_semaphore _ _ _ n); [reflexivity|].
    apply lookup_insert_eq. }
  unfold wr. rewrite (upload_note_with_release_run root l idx n st Hl).
  unfold try_finally. fold body. destruct body as [o st1]. cbn [snd] in *.
  rewrite semaphore_release_run. cbv zeta. rewrite Hsem.
  destruct (Nat.ltb_spec (BoundedSemaphore.initial_value (semaphore (self st)))
              (BoundedSemaphore.value (semaphore (self st)) + 1)); [|lia].
  cbn [fst snd]. auto.
Qed.

End OverRelease.

(** ** The upload calls of a notebook *)

Section UploadBudget.

Context `{C : Collab.t}.

Import Dispatch.

Lemma budget_insert (ws : list worker) (i : nat) (w w' : worker) :
  ws !! i = Some w ->
  sum_list_with upload_budget (<[i := w']> ws) + upload_budget w
  = sum_list_with upload_budget ws + upload_budget w'.
Proof.
  revert i. induction ws as [|x ws IH]; intros [|i] Hi; try discriminate.
  - change (Some x = Some w) in Hi. injection Hi as ->.
    change (<[0 := w']> (w :: ws)) with (w' :: ws).
    cbn [sum_list_with]. lia.
  - change (ws !! i = Some w) in Hi.
    change (<[S i := w']> (x :: ws)) with (x :: <[i := w']> ws).
    cbn [sum_list_with]. specialize (IH i Hi). lia.
Qed.

Lemma budget_ended (ws : list worker) :
  Forall (fun w => active w = false) ws ->
  sum_list_with upload_budget ws = 0.
Proof.
  induction 1 as [|w ws Hw _ IH]; [reflexivity|].
  cbn [sum_list_with]. rewrite IH. unfold active in Hw. unfold upload_budget.
  destruct (w_pc w); try discriminate. reflexivity.
Qed.

Lemma calm_uploads st st' :
  calm st st' -> upload_attempts (trace st') = upload_attempts (trace st).
Proof.
  intros (_ & _ & _ & _ & _ & evs & -> & Hev).
  rewrite upload_attempts_app, (no_upload_events evs Hev). lia.
Qed.

Lemma quiet_uploads {A} (m : M A) st :
  preserves quiet m ->
  upload_attempts (trace (m st).2) = upload_attempts (trace st).
Proof. intros Hm. apply calm_uploads, quiet_calm, Hm. Qed.

(** One upload call at most, and none when the note object is missing. *)
Lemma call_upload_count r l blocks st :
  upload_attempts (trace (call_upload r l blocks st).2)
  <= upload_attempts (trace st) + 1.
Proof.
  unfold call_upload, bind, deref.
  destruct (heap st !! l) as [n|]; cbn [snd trace set_trace]; [|lia].
  rewrite upload_attempts_app, upload_attempts_cons, upload_attempts_nil.
  cbn. lia.
Qed.

(** A step of a worker: an upload call made is taken from its budget. *)
Lemma worker_step_budget (w : worker) (st st' : State) (pc : worker_pc) :
  attempt_ok w ->
  worker_step w st = Some (pc, st') ->
  upload_attempts (trace st') + upload_budget (set_pc pc w)
  <= upload_attempts (trace st) + upload_budget w.
Proof.
  unfold attempt_ok, worker_step, upload_budget. cbn [set_pc w_pc].
  destruct (w_pc w) as [|l|l|r l blocks attempt|l|o|o];
    intros Hok Hstep; [..|discriminate].
  - pose proof (quiet_uploads _ st (quiet_deepcopy (w_note w))) as Hq.
    destruct (deepcopy (w_note w) st) as [[]];
      injection Hstep as <- <-; cbn [snd] in Hq; lia.
  - pose proof (quiet_uploads _ st (quiet_check_ledger l)) as Hq.
    destruct (check_ledger l st) as [[[|]|]];
      injection Hstep as <- <-; cbn [snd] in Hq; lia.
  - pose proof (quiet_uploads _ st (quiet_translate (w_root w) l (w_idx w)))
      as Hq.
    destruct (translate (w_root w) l (w_idx w) st) as [[[[]|]|]];
      injection Hstep as <- <-; cbn [snd] in Hq; lia.
  - pose proof (call_upload_count r l blocks st) as Hq.
    destruct (call_upload r l blocks st) as [[|e] st1]; cbn [snd] in Hq.
    + injection Hstep as <- <-. lia.
    + pose proof (quiet_uploads _ st1 (quiet_retry_warning l)) as Hq2.
      destruct (is_NoteUploadFail e);
        [destruct (Nat.eqb_spec attempt 4);
         [|destruct (retry_warning l st1) as [[]]]|];
        injection Hstep as <- <-; cbn [snd] in Hq2; lia.
  - assert (Hq : trace ((n <- deref l ;; ledger_add (note_hash n)) st).2
                 = trace st).
    { unfold bind, deref. destruct (heap st !! l) as [n|]; [|reflexivity].
      now destruct (ledger_add_run (note_hash n) st) as (_ & _ & _ & _ & H & _). }
    destruct ((n <- deref l ;; ledger_add (note_hash n)) st).
    injection Hstep as <- <-. cbn [snd] in Hq. rewrite Hq. lia.
  - pose proof (calm_uploads _ _ (semaphore_release_calm 1 st)) as Hq.
    destruct (semaphore_release 1 st) as [[]];
      injection Hstep as <- <-; cbn [snd] in Hq; lia.
Qed.

(** No step makes the bound larger. *)
Lemma step_budget (s s' : system) :
  Forall attempt_ok (workers s) -> step s s' ->
  Forall attempt_ok (workers s') /\ upload_bound s' <= upload_bound s.
Proof.
  intros Hok [[|i] Hstep]; unfold upload_bound.
  - unfold step_thread, coord_step in Hstep.
    destruct s as [st c ws]. cbn [shared coord workers] in *.
    destruct c as [f|root [|n pending] idx|root l pending idx
                   |root l pending idx|[|j]| |o].
    + pose proof (calm_uploads _ _ (start_notebook_calm f st)) as Hq.
      destruct (start_notebook f st) as [[root|e] st1];
        injection Hstep as <-; cbn [shared coord workers snd iterator_budget] in *;
        (split; [exact Hok | lia]).
    + injection Hstep as <-. cbn [shared coord workers iterator_budget length].
      split; [exact Hok | lia].
    + injection Hstep as <-. cbn [shared coord workers iterator_budget length].
      split; [exact Hok|]. state_simpl. lia.
    + destruct (semaphore_acquire st) as [st1|] eqn:Ha; [|discriminate].
      injection Hstep as <-. cbn [shared coord workers iterator_budget].
      apply semaphore_acquire_calm in Ha as [_ ->]. split; [exact Hok | lia].
    + injection Hstep as <-. cbn [shared coord workers iterator_budget].
      split; [apply Forall_app; split; [exact Hok | repeat constructor]|].
      rewrite sum_list_with_app. cbn [sum_list_with upload_budget w_pc]. lia.
    + injection Hstep as <-. cbn [shared coord workers iterator_budget].
      split; [exact Hok | lia].
    + destruct (semaphore_acquire st) as [st1|] eqn:Ha; [|discriminate].
      injection Hstep as <-. cbn [shared coord workers iterator_budget].
      apply semaphore_acquire_calm in Ha as [_ ->]. split; [exact Hok | lia].
    + pose proof (calm_uploads _ _
                    (semaphore_release_calm (parallelism (self st)) st)) as Hq.
      destruct (semaphore_release (parallelism (self st)) st) as [o st1].
      injection Hstep as <-. cbn [shared coord workers snd iterator_budget] in *.
      split; [exact Hok | lia].
    + discriminate.
  - unfold step_thread in Hstep.
    destruct (workers s !! i) as [w|] eqn:Hw; [|discriminate].
    destruct (worker_step w (shared s)) as [[pc st1]|] eqn:Hws;
      [|discriminate].
    injection Hstep as <-. cbn [shared coord workers].
    assert (Hokw : attempt_ok w)
      by (rewrite Forall_lookup in Hok; exact (Hok i w Hw)).
    split.
    + apply Forall_insert; [exact Hok|].
      exact (proj2 (worker_step_fuel w _ _ _ Hokw Hws)).
    + pose proof (worker_step_budget w _ _ _ Hokw Hws) as Hb.
      pose proof (budget_insert (workers s) i w (set_pc pc w) Hw) as Hins.
      lia.
Qed.

Lemma reachable_budget (s s' : system) :
  Forall attempt_ok (workers s) -> reachable s s' ->
  upload_bound s' <= upload_bound s.
Proof.
  intros Hok Hreach. induction Hreach as [s|s1 s2 s3 Hstep _ IH]; [lia|].
  destruct (step_budget s1 s2 Hok Hstep) as [Hok2 Hle].
  specialize (IH Hok2). lia.
Qed.

(** X13: a call of [upload_notebook] on a notebook of [k] notes makes at
    most [5 k] calls of the upload collaborator, whatever the
    collaborators do and however the threads interleave; and in every
    state of the run the calls made and those that the notes still in
    work or to come can get add up to no more than that. *)
Theorem X13_upload_calls_bounded (s0 s : system) (f : string) :
  ready s0 -> coord s0 = CStart f ->
  reachable s0 s ->
  upload_attempts (trace (shared s))
  <= upload_attempts (trace (shared s0)) + 5 * length (Collab.iter_notes f)
  /\ upload_bound s
     <= upload_attempts (trace (shared s0)) + 5 * length (Collab.iter_notes f).
Proof.
  intros (_ & Hdone & _) Hc Hreach.
  pose proof (reachable_budget s0 s (attempt_ok_ended _ Hdone) Hreach) as Hle.
  assert (Hstart : upload_bound s0
                   = upload_attempts (trace (shared s0))
                     + 5 * length (Collab.iter_notes f)).
  { unfold upload_bound. rewrite Hc, budget_ended by exact Hdone.
    cbn [iterator_budget]. lia. }
  rewrite Hstart in Hle. split; [|exact Hle].
  unfold upload_bound in Hle. lia.
Qed.

End UploadBudget.

(** ** A new uploader *)



Section NewUploader.

Context `{C : Collab.t}.

Import Dispatch.



End NewUploader.

(** ** Progress of a notebook when some notes fail *)

#[local] Instance same_heap_preorder : PreOrder same_heap.
Proof.
  split; [intros st; reflexivity|].
  intros a b c H1 H2. unfold same_heap in *. congruence.
Qed.

#[local] Instance grows_preorder : PreOrder grows.
Proof.
  split.
  - intros st. split; reflexivity.
  - intros a b c [H1 K1] [H2 K2]. split; [congruence|].
    etransitivity; eassumption.
Qed.

Section Progress.

Context `{C : Collab.t}.

Import Dispatch.

Lemma step_grows (s s' : system) :
  step s s' -> grows (shared s) (shared s').
Proof.
  apply step_frame; try apply _; try (intros; split; reflexivity).
  intros st h. destruct (ledger_add_run h st) as (_ & Htok & _).
  split; [|rewrite Htok; apply union_subseteq_r].
  now destruct (config_ledger_add h st) as (_ & _ & Hr & _).
Qed.

Lemma check_ledger_heap l st : heap (check_ledger l st).2 = heap st.
Proof.
  assert (H : preserves same_heap (check_ledger l)).
  { apply frame_check_ledger; [apply _ | intros st0 e _; reflexivity]. }
  exact (H st).
Qed.

(** Lines 84-98 in closed form. *)
Lemma translate_run root l idx n st :
  heap st !! l = Some n ->
  let n' := with_tag (rules (self st)) n in
  let st1 := parsed_state l n st in
  translate root l idx st
  = match Collab.parse_note n' (rules (self st)) with
    | Return [] => (Return None, add_trace [Log DEBUG (skip_empty_msg n)] st1)
    | Return (b :: bs) =>
        match root with
        | None => (Return None, st1)
        | Some r =>
            (Return (Some (r, b :: bs)),
             add_trace
               [Log INFO (uploading_msg idx (notebook_notes_count (self st)) n)]
               st1)
        end
    | Raise e =>
        if is_Exception e
        then (Return None,
              add_trace [Log ERROR (parse_fail_msg n); Log DEBUG (exn_str e);
                         Log DEBUG (skip_empty_msg n)] st1)
        else (Raise e, st1)
    end.
Proof.
  intros Hl n' st1. unfold translate.
  unfold bind at 1. rewrite (apply_tag_rule_run l n) by exact Hl.
  set (st0 := set_heap _ st).
  assert (Hl0 : heap st0 !! l = Some n') by apply lookup_insert_eq.
  unfold bind at 1. rewrite (deref_Some l n') by exact Hl0.
  unfold bind at 1. rewrite logger_run.
  unfold bind at 1.
  rewrite (_parse_note_run l n') by exact Hl0.
  change (rules (self (add_trace _ st0))) with (rules (self st)).
  assert (Hst1 : add_trace [CallParse n' (rules (self st))]
                   (add_trace
                      [Log DEBUG ("Parsing note '" +:+ title n' +:+ "'")] st0)
                 = st1).
  { rewrite add_trace_add_trace. unfold st1, parsed_state, parsing_msg, n'.
    now rewrite title_with_tag. }
  destruct (Collab.parse_note n' (rules (self st))) as [[|b bs]|e].
  - rewrite Hst1. unfold bind. rewrite logger_run.
    unfold ret, skip_empty_msg, n'. now rewrite title_with_tag.
  - rewrite Hst1. destruct root as [r|]; [|reflexivity].
    unfold bind. cbv beta. rewrite logger_run.
    change (notebook_notes_count (self st1))
      with (notebook_notes_count (self st)).
    unfold ret, uploading_msg, n'. now rewrite title_with_tag.
  - destruct (is_Exception e); [|now rewrite Hst1].
    change [CallParse n' (rules (self st)); Log ERROR (parse_fail_msg n');
            Log DEBUG (exn_str e)]
      with ([CallParse n' (rules (self st))]
            ++ [Log ERROR (parse_fail_msg n'); Log DEBUG (exn_str e)]).
    rewrite <- add_trace_add_trace, Hst1. cbv beta iota.
    unfold bind. rewrite logger_run, add_trace_add_trace.
    unfold ret, parse_fail_msg, skip_empty_msg, n'. now rewrite title_with_tag.
Qed.

(** The translation step of a worker that has a container. *)
Lemma worker_step_translate (w : worker) l n c st pc st' :
  w_pc w = WParse l -> heap st !! l = Some n -> w_root w = Some c ->
  worker_step w st = Some (pc, st') ->
  heap st' = <[l := with_tag (rules (self st)) n]> (heap st)
  /\ self st' = self st
  /\ (if uploadable (rules (self st)) n
      then exists blocks, pc = WUpload c l blocks 0
      else exists o, pc = WFinally o).
Proof.
  intros Hpc Hl Hroot. unfold worker_step, uploadable.
  rewrite Hpc, Hroot, (translate_run (Some c) l (w_idx w) n st Hl). cbv zeta.
  destruct (Collab.parse_note _ (rules (self st))) as [[|b bs]|e];
    [| |destruct (is_Exception e)];
    intros [= <- <-]; (split; [reflexivity|]); (split; [reflexivity|]); eauto.
Qed.

(** A step of the main thread: no upload call, the ledger as it was, the
    note objects as they were, at most one worker more. *)
Lemma coord_step_calm (s s' : system) :
  coord_step s = Some s' ->
  calm (shared s) (shared s')
  /\ (forall l, is_Some (heap (shared s) !! l) ->
                heap (shared s') !! l = heap (shared s) !! l)
  /\ (workers s' = workers s
      \/ exists root l idx,
           workers s' = workers s ++ [mkWorker root l idx WStart]).
Proof.
  unfold coord_step. intros Hstep.
  destruct s as [st c ws]. cbn [shared coord workers] in *.
  destruct c as [f|r [|n pending] idx|r l pending idx
                 |r l pending idx|[|j]| |o].
  - pose proof (start_notebook_calm f st) as Hc.
    pose proof (start_notebook_heap f st) as Hh.
    destruct (start_notebook f st) as [[root'|e] st1];
      injection Hstep as <-; cbn [shared workers snd] in *;
      (split; [exact Hc|]); (split; [intros; now rewrite Hh | now left]).
  - injection Hstep as <-. cbn [shared workers].
    split; [apply calm_refl|]. split; [auto | now left].
  - injection Hstep as <-. cbn [shared workers].
    split; [apply (copied_state_calm 0 n st)|]. split; [|now left].
    intros l [x Hx]. cbn [heap set_heap]. apply lookup_insert_ne.
    pose proof (copy_loc_fresh st) as Hfresh. unfold copy_loc in Hfresh.
    congruence.
  - destruct (semaphore_acquire st) as [st1|] eqn:Ha; [|discriminate].
    injection Hstep as <-. cbn [shared workers].
    split; [now apply semaphore_acquire_calm|].
    apply semaphore_acquire_heap in Ha.
    split; [intros; now rewrite Ha | now left].
  - injection Hstep as <-. cbn [shared workers].
    split; [apply calm_refl|]. split; [auto | right; eauto].
  - injection Hstep as <-. cbn [shared workers].
    split; [apply calm_refl|]. split; [auto | now left].
  - destruct (semaphore_acquire st) as [st1|] eqn:Ha; [|discriminate].
    injection Hstep as <-. cbn [shared workers].
    split; [now apply semaphore_acquire_calm|].
    apply semaphore_acquire_heap in Ha.
    split; [intros; now rewrite Ha | now left].
  - pose proof (semaphore_release_calm (parallelism (self st)) st) as Hc.
    pose proof (semaphore_release_heap (parallelism (self st)) st) as Hh.
    destruct (semaphore_release (parallelism (self st)) st) as [o st1].
    injection Hstep as <-. cbn [shared workers snd] in *.
    split; [exact Hc|]. split; [intros; now rewrite Hh | now left].
  - discriminate.
Qed.

Lemma worker_progress_keep r st st' w n :
  (forall l, copy_of (w_pc w) = Some l -> heap st' !! l = heap st !! l) ->
  tokens st ⊆ tokens st' ->
  worker_progress r st w n -> worker_progress r st' w n.
Proof.
  unfold worker_progress. intros Hcopy Hmono.
  destruct (w_pc w) as [|l|l|r0 l blocks a|l|o|o]; cbn [copy_of] in Hcopy;
    try rewrite (Hcopy l eq_refl); auto.
Qed.

(** The step of a worker leaves the copies of the other workers alone. *)
Lemma worker_step_others root N st st' c new j w pc :
  assigned root N st new -> unshared st c new ->
  new !! j = Some w ->
  worker_step w st = Some (pc, st') ->
  forall k w' l, k <> j -> new !! k = Some w' ->
    copy_of (w_pc w') = Some l -> heap st' !! l = heap st !! l.
Proof.
  intros Hall Hpriv Hj Hws k w' l Hk Hw' Hcopy.
  destruct (Hpriv k w' l Hw' Hcopy) as ([x Hx] & _ & Hothers).
  destruct (Hothers j w Hj) as [_ Hne]. specialize (Hne (not_eq_sym Hk)).
  destruct (copy_of (w_pc w)) as [lj|] eqn:Hcj.
  - destruct (worker_step_touches w st pc st' lj Hcj Hws) as [[Hother _] _].
    apply Hother. congruence.
  - destruct (w_pc w) as [|l0|l0|r0 l0 blocks a|l0|o|o] eqn:Hpcw;
      try discriminate Hcj.
    + destruct (Hall j w Hj) as (_ & _ & n & _ & Hn).
      destruct (worker_step_start w st pc st' n Hpcw Hn Hws) as [_ ->].
      unfold copied_state. cbn [heap set_heap]. apply lookup_insert_ne.
      pose proof (copy_loc_fresh st). congruence.
    + assert (Hpcw' : w_pc w = WFinally o) by exact Hpcw.
      destruct (worker_step_release w o st pc st' Hpcw' Hws) as [Hh _].
      now rewrite Hh.
    + unfold worker_step in Hws. rewrite Hpcw in Hws. discriminate.
Qed.

(** The step of the worker of note [n] itself. *)
Lemma worker_progress_own r c st st' w pc n :
  rules (self st) = r -> w_root w = Some c ->
  heap st !! w_note w = Some n ->
  worker_progress r st w n ->
  worker_step w st = Some (pc, st') ->
  worker_progress r st' (set_pc pc w) n
  /\ (tokens st' = tokens st
      \/ (uploadable r n = true /\ tokens st' = {[note_hash n]} ∪ tokens st)).
Proof.
  intros Hr Hroot Hn Hprog Hws. unfold worker_progress in *.
  cbn [set_pc w_pc].
  destruct (w_pc w) as [|l|l|r0 l blocks a|l|o|o] eqn:Hpc.
  - destruct (worker_step_start w st pc st' n Hpc Hn Hws) as [-> ->].
    split; [apply lookup_insert_eq | now left].
  - destruct (worker_step_check w l st pc st' n Hpc Hprog Hws)
      as [(_ & Hself & _) ->].
    assert (Hh : heap st' = heap st).
    { pose proof (check_ledger_heap l st) as Hh. unfold worker_step in Hws.
      rewrite Hpc in Hws.
      destruct (check_ledger l st) as [[[|]|e] st1];
        injection Hws as _ <-; exact Hh. }
    assert (Ht : tokens st' = tokens st) by (unfold tokens; now rewrite Hself).
    split; [|now left].
    case_bool_decide as Hin; [intros _ _; now rewrite Ht | now rewrite Hh].
  - destruct (worker_step_translate w l n c st pc st' Hpc Hprog Hroot Hws)
      as (Hh & Hself & Hnext).
    rewrite Hr in Hh, Hnext.
    assert (Ht : tokens st' = tokens st) by (unfold tokens; now rewrite Hself).
    split; [|now left].
    destruct (uploadable r n) eqn:Hu.
    + destruct Hnext as [blocks' ->]. split; [|reflexivity].
      rewrite Hh. apply lookup_insert_eq.
    + destruct Hnext as [o ->]. intros _ Hfalse. discriminate.
  - destruct Hprog as [Hl Hu].
    destruct (worker_step_upload w r0 l blocks a st pc st' _ Hpc Hl Hws)
      as ((evs & -> & _) & Hnext & Hok).
    split; [|now left].
    destruct Hnext as [-> | [[a' ->] | [o ->]]]; [now split | now split |].
    intros Hall _. specialize (Hok (Hall _ _ _ _)). discriminate.
  - destruct Hprog as [Hl Hu].
    rewrite (worker_step_commit w l _ st Hpc Hl) in Hws.
    injection Hws as <- <-.
    destruct (ledger_add_run (note_hash (with_tag r n)) st) as (_ & Htok & _).
    rewrite note_hash_with_tag in *. rewrite Htok.
    split; [|right; now split].
    intros _ _. apply elem_of_union_l, elem_of_singleton. reflexivity.
  - destruct (worker_step_finally w o st pc st' Hpc Hws)
      as ([o' ->] & Hcalm & _).
    rewrite (tokens_calm _ _ Hcalm). split; [exact Hprog | now left].
  - unfold worker_step in Hws. rewrite Hpc in Hws. discriminate.
Qed.

(** Every step keeps [progress]. *)
Lemma progress_step c r L0 N ws0 s s' :
  dispatched (Some c) N ws0 s ->
  progress r L0 N (length ws0) s -> step s s' ->
  progress r L0 N (length ws0) s'.
Proof.
  intros (Hold & new & Hws & Hall & Hit & Hpriv) (Hr & Hlow & Hup & Hw) Hstep.
  destruct (step_grows s s' Hstep) as [Hr' Hmono].
  assert (Hnew : forall i, workers s !! (length ws0 + i) = new !! i).
  { intros i. rewrite Hws, lookup_app_r by lia. f_equal. lia. }
  split; [congruence|]. split; [etransitivity; eassumption|].
  destruct Hstep as [[|j] Hstep].
  - destruct (coord_step_calm s s' Hstep) as (Hcalm & Hext & Hworkers).
    rewrite (tokens_calm _ _ Hcalm). split; [exact Hup|].
    assert (Hkeep : forall i w n,
              workers s !! (length ws0 + i) = Some w -> N !! i = Some n ->
              worker_progress r (shared s') w n).
    { intros i w n Hi Hn.
      apply (worker_progress_keep r (shared s)); [|exact Hmono | now apply (Hw i)].
      intros l Hl. apply Hext. rewrite Hnew in Hi.
      now destruct (Hpriv i w l Hi Hl). }
    intros i w n Hi Hn.
    destruct Hworkers as [Heq | (root & l & idx & Heq)]; rewrite Heq in Hi.
    + now apply (Hkeep i).
    + apply lookup_snoc_Some in Hi as [[_ Hi] | [_ <-]];
        [now apply (Hkeep i) | exact I].
  - unfold step_thread in Hstep.
    destruct (workers s !! j) as [w|] eqn:Hwj; [|discriminate].
    destruct (worker_step w (shared s)) as [[pc st1]|] eqn:Hstepw;
      [|discriminate].
    injection Hstep as <-. cbn [shared workers] in *.
    assert (Hge : length ws0 <= j).
    { destruct (decide (j < length ws0)) as [Hlt | Hge]; [|lia].
      rewrite Hws, lookup_app_l in Hwj by exact Hlt.
      rewrite Forall_lookup in Hold. specialize (Hold j w Hwj).
      unfold active in Hold. unfold worker_step in Hstepw.
      destruct (w_pc w); discriminate. }
    assert (Hj : new !! (j - length ws0) = Some w).
    { rewrite <- Hnew. rewrite <- Hwj. f_equal. lia. }
    destruct (Hall _ w Hj) as (Hroot & _ & n & Hn & Hheap).
    assert (Hprog : worker_progress r (shared s) w n).
    { apply (Hw (j - length ws0)); [|exact Hn]. rewrite Hnew. exact Hj. }
    destruct (worker_progress_own r c (shared s) st1 w pc n Hr Hroot Hheap
                Hprog Hstepw) as [Hown Htok].
    split.
    + destruct Htok as [-> | [Hu ->]]; [exact Hup|].
      apply union_least; [|exact Hup].
      apply singleton_subseteq_l, elem_of_union_r.
      apply note_hashes_elem, list_elem_of_filter.
      split; [exact Hu | eapply list_elem_of_lookup_2; exact Hn].
    + intros i w' n' Hi Hn'.
      apply list_lookup_insert_Some in Hi as [(Hij & <- & _) | (Hij & Hi)].
      * assert (i = j - length ws0) as -> by lia.
        rewrite Hn in Hn'. injection Hn' as <-. exact Hown.
      * apply (worker_progress_keep r (shared s));
          [|exact Hmono | now apply (Hw i)].
        intros l Hl. rewrite Hnew in Hi.
        apply (worker_step_others (Some c) N (shared s) st1 (coord s) new
                 (j - length ws0) w pc Hall Hpriv Hj Hstepw i w' l);
          [lia | exact Hi | exact Hl].
Qed.

Lemma progress_reachable c r L0 N ws0 s s' :
  dispatched (Some c) N ws0 s ->
  progress r L0 N (length ws0) s -> reachable s s' ->
  progress r L0 N (length ws0) s'.
Proof.
  intros Hdisp Hinv Hreach.
  induction Hreach as [s|s1 s2 s3 Hstep _ IH]; [exact Hinv|].
  apply IH.
  - eapply dispatched_step; eassumption.
  - eapply progress_step; eassumption.
Qed.

(** X15: a notebook in which the translation of some notes fails, gives
    no blocks or is interrupted still makes progress. In a call of
    [upload_notebook] with a destination container, however the threads
    interleave: the ledger keeps the tokens it had, and the only tokens
    that are added are those of notes of the notebook whose translation
    (with the tag rule applied) gives blocks; and when the store takes
    every upload, the ledger holds exactly the tokens it had and the
    tokens of all these notes when [upload_notebook] has returned. *)
Theorem X15_partial_progress (s0 s : system) (f : string) (c : Container) :
  ready s0 -> coord s0 = CStart f ->
  (start_notebook f (shared s0)).1 = Return (Some c) ->
  reachable s0 s ->
  let r := rules (self (shared s0)) in
  let good := filter (fun n => uploadable r n = true) (Collab.iter_notes f) in
  tokens (shared s0) ⊆ tokens (shared s)
  /\ tokens (shared s) ⊆ tokens (shared s0) ∪ note_hashes good
  /\ (uploads_succeed -> finished s ->
      tokens (shared s) = tokens (shared s0) ∪ note_hashes good).
Proof.
  intros Hready Hc Hstart Hreach r good.
  pose proof (dispatched_ready s0 f (Some c) Hready Hc Hstart) as Hdisp0.
  assert (Hinv0 : progress r (tokens (shared s0)) (Collab.iter_notes f)
                    (length (workers s0)) s0).
  { split; [reflexivity|]. split; [reflexivity|].
    split; [apply union_subseteq_l|].
    intros i w n Hi _. apply lookup_lt_Some in Hi. lia. }
  destruct (progress_reachable c r _ _ _ s0 s Hdisp0 Hinv0 Hreach)
    as (_ & Hlow & Hup & Hw).
  split; [exact Hlow|]. split; [exact Hup|].
  intros Hall [o Ho].
  apply (anti_symm (⊆)); [exact Hup|].
  apply union_least; [exact Hlow|].
  intros h Hh. apply elem_of_list_to_set, list_elem_of_fmap in Hh
    as (n & -> & Hn).
  apply list_elem_of_filter in Hn as [Hu Hn].
  apply list_elem_of_lookup_1 in Hn as [i Hi].
  destruct (dispatched_reachable _ _ _ s0 s Hdisp0 Hreach)
    as (_ & new & Hws & _ & [_ Hit] & _).
  rewrite Ho in Hit.
  assert (Hlt : i < length new)
    by (rewrite Hit; eapply lookup_lt_Some; exact Hi).
  apply lookup_lt_is_Some in Hlt as [w Hwi].
  assert (Hwi' : workers s !! (length (workers s0) + i) = Some w).
  { rewrite Hws, lookup_app_r by lia. rewrite <- Hwi. f_equal. lia. }
  specialize (Hw i w n Hwi' Hi).
  pose proof (slots_inv_reachable s0 s Hready Hreach) as (_ & _ & _ & Hz).
  rewrite Ho in Hz. apply active_count_zero in Hz.
  rewrite Forall_lookup in Hz. specialize (Hz _ w Hwi').
  unfold active in Hz. unfold worker_progress in Hw.
  destruct (w_pc w); try discriminate. now apply Hw.
Qed.

End Progress.

(** ** The result of [upload_notebook] *)

Section NormalReturn.

Context `{C : Collab.t}.

Import Dispatch.

Lemma returns_normally_step root N ws0 p s s' :
  0 < p -> dispatched root N ws0 s -> slots_inv p s ->
  returns_normally s -> step s s' -> returns_normally s'.
Proof.
  intros Hp (_ & new & _ & _ & [_ Hit] & _) (Hpar & Hini & Hsum & _) Hret
         [[|i] Hstep] o Ho.
  - unfold step_thread, coord_step in Hstep.
    destruct (coord s) as [f|r [|n pending] idx|r l pending idx
                           |r l pending idx|[|j]| |o'] eqn:Hc.
    + destruct Hit as (_ & _ & Hstart).
      destruct (start_notebook f (shared s)) as [[root'|e] st1];
        [|discriminate Hstart].
      injection Hstep as <-. discriminate Ho.
    + injection Hstep as <-. discriminate Ho.
    + injection Hstep as <-. discriminate Ho.
    + destruct (semaphore_acquire (shared s)); [|discriminate].
      injection Hstep as <-. discriminate Ho.
    + injection Hstep as <-. discriminate Ho.
    + injection Hstep as <-. discriminate Ho.
    + destruct (semaphore_acquire (shared s)); [|discriminate].
      injection Hstep as <-. discriminate Ho.
    + cbn [held] in Hsum.
      unfold semaphore_release, BoundedSemaphore.release in Hstep.
      rewrite Hpar in Hstep.
      destruct (Nat.ltb_spec p 1); [lia|].
      destruct (Nat.ltb_spec
                  (BoundedSemaphore.initial_value (semaphore (self (shared s))))
                  (BoundedSemaphore.value (semaphore (self (shared s))) + p));
        [lia|].
      injection Hstep as <-. cbn [coord] in Ho. congruence.
    + discriminate.
  - apply step_thread_frame in Hstep as (Hc & _). rewrite Hc in Ho.
    now apply Hret.
Qed.

Lemma returns_normally_reachable root N ws0 p s s' :
  0 < p -> dispatched root N ws0 s -> slots_inv p s ->
  returns_normally s -> reachable s s' -> returns_normally s'.
Proof.
  intros Hp Hdisp Hslots Hret Hreach.
  induction Hreach as [s|s1 s2 s3 Hstep _ IH]; [exact Hret|].
  apply IH.
  - eapply dispatched_step; eassumption.
  - eapply slots_inv_step; eassumption.
  - eapply returns_normally_step; eassumption.
Qed.

(** X16: the exceptions of the workers do not reach the main thread. In
    a call of [upload_notebook] with at least one slot whose container
    lookup does not raise, the call returns normally in every run that
    gets to its end, whatever happens in the workers: their exceptions
    end their own threads only. *)
Theorem X16_returns_normally (s0 s : system) (f : string)
        (root : option Container) :
  ready s0 -> coord s0 = CStart f ->
  (start_notebook f (shared s0)).1 = Return root ->
  0 < parallelism (self (shared s0)) ->
  reachable s0 s ->
  returns_normally s
  /\ (finished s -> coord s = CDone (Return tt)).
Proof.
  intros Hready Hc Hstart Hp Hreach.
  assert (Hret : returns_normally s).
  { apply (returns_normally_reachable root (Collab.iter_notes f) (workers s0)
             (parallelism (self (shared s0))) s0 s Hp);
      [now apply (dispatched_ready s0 f) | now apply slots_inv_ready | | exact Hreach].
    intros o Ho. rewrite Hc in Ho. discriminate. }
  split; [exact Hret|]. intros [o Ho]. now rewrite Ho, (Hret o Ho).
Qed.

End NormalReturn.

(** ** One slot: one note at a time *)

Section OneSlot.

Context `{C : Collab.t}.

Import Dispatch.

Lemma one_at_a_time_step (s s' : system) :
  slots_inv 1 s -> one_at_a_time s -> step s s' -> one_at_a_time s'.
Proof.
  intros (_ & _ & Hsum & _) Hseq [[|j] Hstep] i w Hi Hact.
  - unfold step_thread, coord_step in Hstep.
    destruct (coord s) as [f|r [|n pending] idx|r l pending idx
                           |r l pending idx|[|k]| |o] eqn:Hc;
      repeat match type of Hstep with
             | match ?x with _ => _ end = _ => destruct x
             | (let (_, _) := ?x in _) = _ => destruct x
             end;
      try discriminate; injection Hstep as <-; cbn [workers] in *;
      try (now apply (Hseq i w)).
    apply lookup_snoc_Some in Hi as [[_ Hi] | [-> _]].
    + cbn [held] in Hsum.
      assert (Hz : active_count (workers s) = 0) by lia.
      apply active_count_zero in Hz. rewrite Forall_lookup in Hz.
      specialize (Hz i w Hi). congruence.
    + rewrite length_app. cbn [length]. lia.
  - unfold step_thread in Hstep.
    destruct (workers s !! j) as [w0|] eqn:Hw0; [|discriminate].
    destruct (worker_step w0 (shared s)) as [[pc st1]|] eqn:Hws;
      [|discriminate].
    injection Hstep as <-. cbn [workers] in *. rewrite length_insert.
    destruct (worker_step_slots w0 _ _ _ Hws) as (Hact0 & _).
    apply list_lookup_insert_Some in Hi as [(<- & _ & _) | (_ & Hi)].
    + now apply (Hseq j w0).
    + now apply (Hseq i w).
Qed.

(** X17: with [parallelism = 1] the notes are worked on one at a time,
    in the order of the notebook: in every state of a run every worker
    but the one started last has ended, so that a worker is started only
    when the worker of the note before it has released its slot. *)
Theorem X17_one_slot_sequential (s0 s : system) :
  ready s0 -> parallelism (self (shared s0)) = 1 ->
  reachable s0 s ->
  one_at_a_time s
  /\ active_count (workers s) <= 1
  /\ forall i j w w', i < j ->
       workers s !! i = Some w -> workers s !! j = Some w' ->
       active w = false.
Proof.
  intros Hready Hp Hreach.
  assert (Hseq0 : one_at_a_time s0).
  { intros i w Hi Hact. destruct Hready as (_ & Hdone & _).
    rewrite Forall_lookup in Hdone. specialize (Hdone i w Hi). congruence. }
  pose proof (slots_inv_ready s0 Hready) as Hslots0. rewrite Hp in Hslots0.
  assert (Hinv : slots_inv 1 s /\ one_at_a_time s).
  { clear Hready Hp. induction Hreach as [s|s1 s2 s3 Hstep _ IH]; [now split|].
    apply IH.
    - eapply one_at_a_time_step; eassumption.
    - eapply slots_inv_step; eassumption. }
  destruct Hinv as [(_ & _ & Hsum & _) Hseq].
  split; [exact Hseq|]. split; [lia|].
  intros i j w w' Hij Hi Hj.
  destruct (active w) eqn:Hact; [|reflexivity].
  specialize (Hseq i w Hi Hact). apply lookup_lt_Some in Hj. lia.
Qed.

End OneSlot.

(** ** Resuming a notebook from the ledger file *)

Section ResumeInvariant.

Context `{C : Collab.t}.

Import Dispatch.

Variables (r : Rules) (c : Container) (p : string) (N : list EvernoteNote).

Hypothesis N_uploadable : Forall (fun n => uploadable r n = true) N.
Hypothesis N_accepted : Forall (upload_accepted r c) N.
Hypothesis N_clean :
  Forall (fun n => PyStr.clean_token (note_hash n) = true) N.

Lemma worker_resume_keep st st' w n :
  (forall l, copy_of (w_pc w) = Some l -> heap st' !! l = heap st !! l) ->
  tokens st ⊆ tokens st' ->
  worker_resume r c st w n -> worker_resume r c st' w n.
Proof.
  unfold worker_resume. intros Hcopy Hmono.
  destruct (w_pc w) as [|l|l|r0 l blocks a|l|o|o]; cbn [copy_of] in Hcopy;
    try rewrite (Hcopy l eq_refl); auto.
Qed.

(** The step of the worker of a note [n] of [N]: it goes on to the upload
    and to the commit, which returns, and the ledger stays in step with
    its file. *)
Lemma worker_resume_own st st' w pc n :
  rules (self st) = r -> w_root w = Some c ->
  heap st !! w_note w = Some n -> n ∈ N ->
  coherent p st ->
  worker_resume r c st w n ->
  worker_step w st = Some (pc, st') ->
  worker_resume r c st' (set_pc pc w) n /\ coherent p st'.
Proof.
  intros Hr Hroot Hn HnN Hcoh Hprog Hws. unfold worker_resume in *.
  cbn [set_pc w_pc].
  rewrite Forall_forall in N_uploadable, N_accepted, N_clean.
  destruct (w_pc w) as [|l|l|r0 l blocks a|l|o|o] eqn:Hpc.
  - destruct (worker_step_start w st pc st' n Hpc Hn Hws) as [-> ->].
    split; [apply lookup_insert_eq|].
    eapply coherent_calm; [apply (copied_state_calm (w_note w) n st) | exact Hcoh].
  - destruct (worker_step_check w l st pc st' n Hpc Hprog Hws) as [Hq ->].
    assert (Hh : heap st' = heap st).
    { pose proof (check_ledger_heap l st) as Hh. unfold worker_step in Hws.
      rewrite Hpc in Hws.
      destruct (check_ledger l st) as [[[|]|e] st1];
        injection Hws as _ <-; exact Hh. }
    apply quiet_calm in Hq.
    split; [|eapply coherent_calm; eassumption].
    case_bool_decide as Hin;
      [now rewrite (tokens_calm _ _ Hq) | now rewrite Hh].
  - specialize (N_uploadable n HnN). unfold uploadable in N_uploadable.
    destruct (Collab.parse_note (with_tag r n) r) as [[|b bs]|e] eqn:Hparse;
      try discriminate.
    destruct (worker_step_translate w l n c st pc st' Hpc Hprog Hroot Hws)
      as (Hh & _ & _).
    destruct (worker_step_parse w l st pc st' Hpc Hws) as (Hq & _ & Hnext).
    rewrite Hr in Hh. rewrite (Hnext n c b bs Hprog Hroot)
      by (now rewrite Hr).
    split; [|eapply coherent_calm; [apply quiet_calm|]; eassumption].
    split; [reflexivity|]. split; [|reflexivity].
    rewrite Hh. apply lookup_insert_eq.
  - destruct Hprog as (-> & Hl & Hparse).
    destruct (worker_step_upload w c l blocks a st pc st' _ Hpc Hl Hws)
      as ((evs & -> & _) & _ & Hok).
    rewrite (Hok (N_accepted n HnN _ blocks Hparse)).
    split; [exact Hl|]. eapply coherent_same; [| |exact Hcoh]; reflexivity.
  - rewrite (worker_step_commit w l _ st Hpc Hprog) in Hws.
    injection Hws as <- <-. rewrite note_hash_with_tag.
    destruct (ledger_add_run (note_hash n) st) as (_ & Htok & _).
    destruct (coherent_add p (note_hash n) st (N_clean n HnN) Hcoh)
      as [Hcoh' _].
    split; [|exact Hcoh'].
    rewrite Htok. apply elem_of_union_l, elem_of_singleton. reflexivity.
  - destruct (worker_step_finally w o st pc st' Hpc Hws)
      as ([o' ->] & Hcalm & _).
    rewrite (tokens_calm _ _ Hcalm).
    split; [exact Hprog | eapply coherent_calm; eassumption].
  - unfold worker_step in Hws. rewrite Hpc in Hws. discriminate.
Qed.

(** Every step keeps [resuming]. *)
Lemma resuming_step ws0 s s' :
  dispatched (Some c) N ws0 s ->
  resuming r c p N (length ws0) s -> step s s' ->
  resuming r c p N (length ws0) s'.
Proof.
  intros (Hold & new & Hws & Hall & Hit & Hpriv) (Hr & Hcoh & Hw) Hstep.
  destruct (step_grows s s' Hstep) as [Hr' Hmono].
  assert (Hnew : forall i, workers s !! (length ws0 + i) = new !! i).
  { intros i. rewrite Hws, lookup_app_r by lia. f_equal. lia. }
  split; [congruence|].
  destruct Hstep as [[|j] Hstep].
  - destruct (coord_step_calm s s' Hstep) as (Hcalm & Hext & Hworkers).
    split; [eapply coherent_calm; eassumption|].
    assert (Hkeep : forall i w n,
              workers s !! (length ws0 + i) = Some w -> N !! i = Some n ->
              worker_resume r c (shared s') w n).
    { intros i w n Hi Hn.
      apply (worker_resume_keep (shared s)); [|exact Hmono | now apply (Hw i)].
      intros l Hl. apply Hext. rewrite Hnew in Hi.
      now destruct (Hpriv i w l Hi Hl). }
    intros i w n Hi Hn.
    destruct Hworkers as [Heq | (root & l & idx & Heq)]; rewrite Heq in Hi.
    + now apply (Hkeep i).
    + apply lookup_snoc_Some in Hi as [[_ Hi] | [_ <-]];
        [now apply (Hkeep i) | exact I].
  - unfold step_thread in Hstep.
    destruct (workers s !! j) as [w|] eqn:Hwj; [|discriminate].
    destruct (worker_step w (shared s)) as [[pc st1]|] eqn:Hstepw;
      [|discriminate].
    injection Hstep as <-. cbn [shared workers] in *.
    assert (Hge : length ws0 <= j).
    { destruct (decide (j < length ws0)) as [Hlt | Hge]; [|lia].
      rewrite Hws, lookup_app_l in Hwj by exact Hlt.
      rewrite Forall_lookup in Hold. specialize (Hold j w Hwj).
      unfold active in Hold. unfold worker_step in Hstepw.
      destruct (w_pc w); discriminate. }
    assert (Hj : new !! (j - length ws0) = Some w).
    { rewrite <- Hnew. rewrite <- Hwj. f_equal. lia. }
    destruct (Hall _ w Hj) as (Hroot & _ & n & Hn & Hheap).
    assert (Hprog : worker_resume r c (shared s) w n).
    { apply (Hw (j - length ws0)); [|exact Hn]. rewrite Hnew. exact Hj. }
    destruct (worker_resume_own (shared s) st1 w pc n Hr Hroot Hheap
                (list_elem_of_lookup_2 _ _ _ Hn) Hcoh Hprog Hstepw)
      as [Hown Hcoh'].
    split; [exact Hcoh'|].
    intros i w' n' Hi Hn'.
    apply list_lookup_insert_Some in Hi as [(Hij & <- & _) | (Hij & Hi)].
    + assert (i = j - length ws0) as -> by lia.
      rewrite Hn in Hn'. injection Hn' as <-. exact Hown.
    + apply (worker_resume_keep (shared s));
        [|exact Hmono | now apply (Hw i)].
      intros l Hl. rewrite Hnew in Hi.
      apply (worker_step_others (Some c) N (shared s) st1 (coord s) new
               (j - length ws0) w pc Hall Hpriv Hj Hstepw i w' l);
        [lia | exact Hi | exact Hl].
Qed.

Lemma resuming_reachable ws0 s s' :
  dispatched (Some c) N ws0 s ->
  resuming r c p N (length ws0) s -> reachable s s' ->
  resuming r c p N (length ws0) s'.
Proof.
  intros Hdisp Hinv Hreach.
  induction Hreach as [s|s1 s2 s3 Hstep _ IH]; [exact Hinv|].
  apply IH.
  - eapply dispatched_step; eassumption.
  - eapply resuming_step; eassumption.
Qed.

End ResumeInvariant.

Section ResumeClaim.

Context `{C : Collab.t}.

Import Dispatch.

(** The container that [upload_notebook] gets depends on the import root
    and the mode only. *)
Lemma root_lookup_same title st st0 :
  import_root (self st) = import_root (self st0) ->
  mode (self st) = mode (self st0) ->
  (EnexUploader._get_notebook_root title st).1
  = (EnexUploader._get_notebook_root title st0).1.
Proof.
  intros Hi Hm. unfold EnexUploader._get_notebook_root. rewrite Hi, Hm.
  destruct (import_root (self st0)) as [rt|]; [|reflexivity].
  now destruct (if String.eqb _ _ then _ else _).
Qed.

Lemma root_lookup_start f st st0 o :
  import_root (self st) = import_root (self st0) ->
  mode (self st) = mode (self st0) ->
  (EnexUploader._get_notebook_root (Collab.stem f) st0).1 = o ->
  (start_notebook f st).1 = o.
Proof.
  intros Hi Hm <-. rewrite start_notebook_run.
  unfold EnexUploader._get_notebook_root. rewrite Hi, Hm.
  destruct (import_root (self st0)) as [rt|]; [|reflexivity].
  now destruct (if String.eqb _ _ then _ else _).
Qed.

(** A call of [upload_notebook] on a new uploader, when every note of the
    notebook gets uploaded and the ledger file can be written: the ledger
    stays what a reload of its file gives, and at the end it holds the
    token of every note. *)
Lemma uploaded_run root mode p r par file fs0 c s :
  let N := Collab.iter_notes file in
  let s0 := process_start root mode p r par file fs0 in
  (EnexUploader._get_notebook_root (Collab.stem file) (shared s0)).1
  = Return (Some c) ->
  Forall (fun n => uploadable r n = true) N ->
  Forall (upload_accepted r c) N ->
  Forall (fun n => PyStr.clean_token (note_hash n) = true) N ->
  PyStr.ends_line (default EmptyString (fs0 !! p)) ->
  missing_dir p fs0 = false ->
  reachable s0 s ->
  coherent p (shared s)
  /\ (finished s -> note_hashes N ⊆ tokens (shared s)).
Proof.
  intros N s0 Hroot Hparse Hupload Hclean Hend Hdir Hreach.
  pose proof (process_start_ready root mode p r par file fs0) as Hready.
  fold s0 in Hready.
  assert (Hstart : (start_notebook file (shared s0)).1 = Return (Some c))
    by (now apply (root_lookup_start file _ (shared s0))).
  pose proof (dispatched_ready s0 file (Some c) Hready eq_refl Hstart)
    as Hdisp0.
  assert (Hinv0 : resuming r c p N (length (workers s0)) s0).
  { split; [reflexivity|]. split.
    - exists (DoneFile.init p fs0). split; [reflexivity|].
      split; [apply init_path|]. split; [exact Hdir|].
      split; [exact Hend | apply init_load].
    - intros i w n Hi. discriminate Hi. }
  destruct (resuming_reachable r c p N Hparse Hupload Hclean _ s0 s
              Hdisp0 Hinv0 Hreach) as (_ & Hcoh & Hw).
  split; [exact Hcoh|]. intros [o Ho] h Hh.
  apply elem_of_list_to_set, list_elem_of_fmap in Hh as (n & -> & Hn).
  apply list_elem_of_lookup_1 in Hn as [i Hi].
  destruct (dispatched_reachable _ _ _ s0 s Hdisp0 Hreach)
    as (_ & new & Hws & _ & [_ Hit] & _).
  rewrite Ho in Hit.
  assert (Hlt : i < length new)
    by (rewrite Hit; eapply lookup_lt_Some; exact Hi).
  apply lookup_lt_is_Some in Hlt as [w Hwi].
  assert (Hwi' : workers s !! (length (workers s0) + i) = Some w).
  { rewrite Hws, lookup_app_r by lia. rewrite <- Hwi. f_equal. lia. }
  specialize (Hw i w n Hwi' Hi).
  pose proof (slots_inv_reachable s0 s Hready Hreach) as (_ & _ & _ & Hz).
  rewrite Ho in Hz. apply active_count_zero in Hz.
  rewrite Forall_lookup in Hz. specialize (Hz _ w Hwi').
  unfold active in Hz. unfold worker_resume in Hw.
  destruct (w_pc w); try discriminate. exact Hw.
Qed.

(** C6 (amended): a note set processed twice against the same ledger file,
    in any interleaving of the threads: the second run makes no upload
    call for a note whose token the reloaded ledger holds; and when every
    note of the set is uploaded in the first run (a destination container
    is found for the notebook, the translation of every note of the set
    gives at least one block and every upload call for a note of the set
    returns), the tokens are clean lines, and the log can be opened for
    appending and is missing or ends in a newline, then after the first
    run the ledger holds the tokens it began with and the tokens of the
    note set, the ledger reloaded for the second run is that same set, the
    second run makes no upload call at all, and its ledger, in memory and
    in the file, is still that set. *)
Theorem C6_idempotent_resume root mode p r par file fs0 s1 s2 :
  let N := Collab.iter_notes file in
  let before := DoneFile.done_hashes (DoneFile.init p fs0) in
  let resumed := DoneFile.done_hashes (DoneFile.init p (fs (shared s1))) in
  let s0 := process_start root mode p r par file fs0 in
  reachable s0 s1 ->
  finished s1 ->
  reachable (process_start root mode p r par file (fs (shared s1))) s2 ->
  Forall (not_reuploaded resumed) (trace (shared s2))
  /\ (forall c,
        (EnexUploader._get_notebook_root (Collab.stem file) (shared s0)).1
        = Return (Some c) ->
        Forall (fun n => uploadable r n = true) N ->
        Forall (upload_accepted r c) N ->
        Forall (fun n => PyStr.clean_token (note_hash n) = true) N ->
        PyStr.ends_line (default EmptyString (fs0 !! p)) ->
        missing_dir p fs0 = false ->
        tokens (shared s1) = before ∪ note_hashes N
        /\ resumed = before ∪ note_hashes N
        /\ upload_attempts (trace (shared s2)) = 0
        /\ tokens (shared s2) = before ∪ note_hashes N
        /\ DoneFile.done_hashes (DoneFile.init p (fs (shared s2)))
           = before ∪ note_hashes N).
Proof.
  intros N before resumed s0 Hreach1 Hdone1 Hreach2.
  pose proof (run_inv_rtc _ _ _ _
                (process_start_run_inv root mode p r par file (fs (shared s1)))
                Hreach2) as Hrun2.
  fold resumed in Hrun2. pose proof Hrun2 as (HL2 & Hbound2 & _ & _ & Htr2).
  split.
  - eapply Forall_impl; [exact Htr2|].
    intros [lv msg|m rl|c m b]; cbn; tauto.
  - intros c Hroot Hparse Hupload Hclean Hend Hdir.
    pose proof (run_inv_rtc _ _ _ _
                  (process_start_run_inv root mode p r par file fs0) Hreach1)
      as (HL1 & Hbound1 & _).
    fold before N in HL1, Hbound1.
    destruct (uploaded_run root mode p r par file fs0 c s1
                Hroot Hparse Hupload Hclean Hend Hdir Hreach1)
      as ((d1 & Hled1 & Hp1 & Hdir1 & Hend1 & Hload1) & Hall1).
    assert (Htok1 : tokens (shared s1) = before ∪ note_hashes N).
    { apply (anti_symm (⊆)); [exact Hbound1|].
      apply union_least; [exact HL1 | now apply Hall1]. }
    assert (Hres : resumed = before ∪ note_hashes N).
    { unfold resumed. rewrite init_load, <- Hload1, <- Htok1.
      unfold tokens. now rewrite Hled1. }
    assert (Hroot2 : (EnexUploader._get_notebook_root (Collab.stem file)
                        (shared (process_start root mode p r par file
                                   (fs (shared s1))))).1
                     = Return (Some c)).
    { rewrite <- Hroot. now apply root_lookup_same. }
    destruct (uploaded_run root mode p r par file (fs (shared s1)) c s2
                Hroot2 Hparse Hupload Hclean Hend1 Hdir1 Hreach2)
      as ((d2 & Hled2 & Hp2 & Hdir2 & Hend2 & Hload2) & _).
    assert (Htok2 : tokens (shared s2) = before ∪ note_hashes N).
    { apply (anti_symm (⊆)).
      - etransitivity; [exact Hbound2|]. fold N. rewrite Hres.
        apply union_least; [reflexivity | apply union_subseteq_r].
      - now rewrite <- Hres. }
    split; [exact Htok1|]. split; [exact Hres|]. split; [|split; [exact Htok2|]].
    + apply no_upload_events. eapply Forall_impl; [exact Htr2|].
      intros [lv msg|m rl|c' m b]; cbn; try reflexivity.
      intros [Hin Hout]. exfalso. apply Hout. fold N in Hin. rewrite Hres.
      now apply elem_of_union_r.
    + rewrite init_load, <- Hload2, <- Htok2. unfold tokens. now rewrite Hled2.
Qed.

End ResumeClaim.

Lemma C6_idempotent_resume_witness :
  let start := process_start (Some "root") "DB" "done.txt" Sample.forced 2
                 "notebook.enex" in
  let s1 := Dispatch.run_schedule (C := Sample.flaky 0) (Sample.round_robin 30)
              (start Sample.seeded_fs) in
  let s2 := Dispatch.run_schedule (C := Sample.flaky 0) (Sample.round_robin 30)
              (start (fs (Dispatch.shared s1))) in
  tokens (Dispatch.shared s1)
  = DoneFile.done_hashes (DoneFile.init "done.txt" Sample.seeded_fs)
    ∪ note_hashes [Sample.note1; Sample.note2; Sample.note3]
  /\ upload_attempts (trace (Dispatch.shared s2)) = 0
  /\ tokens (Dispatch.shared s2)
     = DoneFile.done_hashes (DoneFile.init "done.txt" Sample.seeded_fs)
       ∪ note_hashes [Sample.note1; Sample.note2; Sample.note3]
  /\ DoneFile.done_hashes
       (DoneFile.init "done.txt" (fs (Dispatch.shared s2)))
     = DoneFile.done_hashes (DoneFile.init "done.txt" Sample.seeded_fs)
       ∪ note_hashes [Sample.note1; Sample.note2; Sample.note3].
Proof.
  cbv zeta.
  destruct (C6_idempotent_resume (C := Sample.flaky 0)
              (Some "root") "DB" "done.txt" Sample.forced 2 "notebook.enex"
              Sample.seeded_fs
              (Dispatch.run_schedule (C := Sample.flaky 0) (Sample.round_robin 30)
                 (process_start (Some "root") "DB" "done.txt" Sample.forced 2
                    "notebook.enex" Sample.seeded_fs))
              (Dispatch.run_schedule (C := Sample.flaky 0) (Sample.round_robin 30)
                 (process_start (Some "root") "DB" "done.txt" Sample.forced 2
                    "notebook.enex"
                    (fs (Dispatch.shared
                           (Dispatch.run_schedule (C := Sample.flaky 0)
                              (Sample.round_robin 30)
                              (process_start (Some "root") "DB" "done.txt"
                                 Sample.forced 2 "notebook.enex"
                                 Sample.seeded_fs)))))))
    as (_ & Hall).
  - apply run_schedule_reachable.
  - exists (Return tt). vm_compute. reflexivity.
  - apply run_schedule_reachable.
  - destruct (Hall (Database "notebook.enex")) as (Htok1 & _ & Hup & Htok & Hfile).
    + reflexivity.
    + repeat constructor.
    + repeat constructor; intros i blocks _; reflexivity.
    + repeat constructor.
    + right. exists "9f86d081". reflexivity.
    + reflexivity.
    + split; [exact Htok1|]. split; [exact Hup|].
      split; [exact Htok | exact Hfile].
Defined.

(** ** The further properties at concrete inputs *)

Lemma X1_loaded_tokens_clean_witness :
  PyStr.clean_token "2c26b46b" = true
  /\ DoneFile.contains " 2c26b46b" (DoneFile.init "done.txt" Scenario.cut_fs)
     = false.
Proof.
  destruct (X1_loaded_tokens_clean "done.txt" Scenario.cut_fs) as [Hclean Hpad].
  split.
  - apply Hclean. apply (bool_decide_unpack _). vm_compute. exact I.
  - apply Hpad. reflexivity.
Defined.

Lemma X2_line_endings_witness :
  DoneFile.done_hashes
    (DoneFile.init "done.txt"
       {[ "done.txt" := write_lines Scenario.mixed_lines ]})
  = list_to_set (map fst Scenario.mixed_lines).
Proof.
  apply (X2_line_endings "done.txt" _ Scenario.mixed_lines).
  - reflexivity.
  - repeat first [apply Forall_nil_2
                 | apply Forall_cons_2; [split; [reflexivity | discriminate]|]].
Defined.

Lemma X3_unterminated_last_line_witness :
  let d := DoneFile.init "done.txt" Scenario.cut_fs in
  "2c26b46b" ∈ DoneFile.done_hashes d
  /\ (DoneFile.add "fcde2b2e" d Scenario.cut_fs).1 = Return tt
  /\ "fcde2b2e"
     ∈ DoneFile.done_hashes (DoneFile.add "fcde2b2e" d Scenario.cut_fs).2.1
  /\ ("fcde2b2e" ∉ DoneFile.done_hashes
                     (DoneFile.init "done.txt"
                        (DoneFile.add "fcde2b2e" d Scenario.cut_fs).2.2))
  /\ ("2c26b46b" ∉ DoneFile.done_hashes
                     (DoneFile.init "done.txt"
                        (DoneFile.add "fcde2b2e" d Scenario.cut_fs).2.2)).
Proof.
  destruct (X3_unterminated_last_line
              (DoneFile.init "done.txt" Scenario.cut_fs) Scenario.cut_fs
              ("9f86d081" +:+ String PyStr.LF EmptyString) "2c26b46b" "fcde2b2e")
    as (Hbefore & Hret & Hmem & _ & Hlost1 & Hlost2).
  - reflexivity.
  - right. exists "9f86d081". reflexivity.
  - split; [reflexivity | discriminate].
  - split; [reflexivity | discriminate].
  - cbv zeta. split; [|split; [exact Hret | split; [exact Hmem | split]]].
    + change (DoneFile.path (DoneFile.init "done.txt" Scenario.cut_fs))
        with "done.txt" in Hbefore.
      rewrite Hbefore. apply elem_of_union_r, elem_of_singleton. reflexivity.
    + apply Hlost2. apply (bool_decide_unpack _). vm_compute. exact I.
    + apply Hlost1. apply (bool_decide_unpack _). vm_compute. exact I.
Defined.

Lemma X4_base_exception_not_absorbed_witness :
  let st := Sample.running Sample.no_rules Sample.note1 in
  let wr := EnexUploader.upload_note_with_release (C := Scenario.interrupted)
              (Some (Page "nb")) 0 1 st in
  wr.1 = Raise (SystemExiting "KeyboardInterrupt")
  /\ BoundedSemaphore.value (semaphore (self wr.2)) = 1 + 1
  /\ logs_at ERROR (trace wr.2) = logs_at ERROR (trace st)
  /\ tokens wr.2 = tokens st.
Proof.
  destruct (X4_base_exception_not_absorbed (C := Scenario.interrupted)
              (Some (Page "nb")) 0 1 Sample.note1
              (SystemExiting "KeyboardInterrupt")
              (Sample.running Sample.no_rules Sample.note1))
    as (_ & _ & Hw).
  - reflexivity.
  - apply (bool_decide_unpack _). vm_compute. exact I.
  - reflexivity.
  - reflexivity.
  - destruct Hw as (Ho & Hv & He & _ & Ht & _); [cbn; lia|].
    cbv zeta. split; [exact Ho|]. split; [exact Hv|]. split; [exact He | exact Ht].
Defined.



Lemma X7_root_lookup_failure_witness :
  let s0 := Sample.first_call Sample.no_rules 2 ∅ in
  exists s1,
    Dispatch.step (C := Scenario.no_root) s0 s1
    /\ Dispatch.coord s1 = Dispatch.CDone (Raise (OtherException "NotionError"))
    /\ Dispatch.workers s1 = [].
Proof.
  cbv zeta.
  destruct (X7_root_lookup_failure (C := Scenario.no_root)
              (Sample.first_call Sample.no_rules 2 ∅) "notebook.enex" "root"
              (OtherException "NotionError"))
    as (Hstep & _).
  - split; [now exists "notebook.enex"|]. split; [constructor|].
    split; reflexivity.
  - reflexivity.
  - reflexivity.
  - reflexivity.
  - eexists. split; [exact Hstep|]. split; reflexivity.
Defined.

Lemma X8_no_slot_witness :
  let s0 := Sample.first_call Sample.no_rules 0 ∅ in
  let s := Dispatch.run_schedule (C := Sample.flaky 0) (Sample.round_robin 30) s0 in
  ~ Dispatch.finished s /\ Dispatch.workers s = [].
Proof.
  cbv zeta.
  destruct (X8_no_slot (C := Sample.flaky 0)
              (Sample.first_call Sample.no_rules 0 ∅) "notebook.enex"
              (Some (Database "notebook.enex")))
    as (Hws & Hblock & _).
  - split; [now exists "notebook.enex"|]. split; [constructor|].
    split; reflexivity.
  - reflexivity.
  - reflexivity.
  - reflexivity.
  - destruct Hblock as [Hnever _]; [discriminate|].
    split.
    + apply Hnever. apply run_schedule_reachable.
    + apply (Hws _ (run_schedule_reachable _ _)).
Defined.

Lemma X9_every_run_ends_witness :
  let s0 := Sample.first_call Sample.forced 2 ∅ in
  let s := Dispatch.run_schedule (C := Sample.flaky 2) (Sample.round_robin 30) s0 in
  exists n, nsteps (Dispatch.step (C := Sample.flaky 2)) n s0 s /\ n <= 13 * 3 + 2 + 4.
Proof.
  cbv zeta.
  destruct (run_schedule_nsteps (C := Sample.flaky 2) (Sample.round_robin 30)
              (Sample.first_call Sample.forced 2 ∅)) as (n & _ & Hrun).
  exists n. split; [exact Hrun|].
  destruct (X9_every_run_ends (C := Sample.flaky 2)
              (Sample.first_call Sample.forced 2 ∅)
              (Dispatch.run_schedule (C := Sample.flaky 2)
                 (Sample.round_robin 30) (Sample.first_call Sample.forced 2 ∅))
              "notebook.enex" n)
    as (_ & Hbound & _).
  - split; [now exists "notebook.enex"|]. split; [constructor|].
    split; reflexivity.
  - reflexivity.
  - exact Hrun.
  - exact Hbound.
Defined.

Lemma X10_one_worker_per_note_witness :
  let s0 := Sample.first_call Sample.forced 2 ∅ in
  let s := Dispatch.run_schedule (C := Sample.flaky 0) (Sample.round_robin 30) s0 in
  exists new,
    Dispatch.workers s = [] ++ new /\ length new = 3
    /\ Forall (fun w => Dispatch.active w = false) new.
Proof.
  cbv zeta.
  destruct (X10_one_worker_per_note (C := Sample.flaky 0)
              (Sample.first_call Sample.forced 2 ∅)
              (Dispatch.run_schedule (C := Sample.flaky 0)
                 (Sample.round_robin 30) (Sample.first_call Sample.forced 2 ∅))
              "notebook.enex" (Some (Database "notebook.enex")))
    as (new & Hws & _ & _ & _ & Hfin).
  - split; [now exists "notebook.enex"|]. split; [constructor|].
    split; reflexivity.
  - reflexivity.
  - reflexivity.
  - apply run_schedule_reachable.
  - exists new. split; [exact Hws|]. apply Hfin.
    exists (Return tt). vm_compute. reflexivity.
Defined.

Lemma X11_dry_run_witness :
  let s := Dispatch.run_schedule (C := Sample.reliable) (Sample.round_robin 30)
             (Scenario.dry 2 ∅) in
  upload_attempts (trace (Dispatch.shared s)) = 0
  /\ fs (Dispatch.shared s) = ∅.
Proof.
  cbv zeta.
  destruct (X11_dry_run (C := Sample.reliable) (Scenario.dry 2 ∅)
              (Dispatch.run_schedule (C := Sample.reliable)
                 (Sample.round_robin 30) (Scenario.dry 2 ∅))
              "notebook.enex")
    as (_ & _ & Hup & _ & Hfs).
  - split; [now exists "notebook.enex"|]. split; [constructor|].
    split; reflexivity.
  - reflexivity.
  - reflexivity.
  - apply run_schedule_reachable.
  - split; [exact Hup | exact Hfs].
Defined.

Lemma X12_release_without_acquire_witness :
  let st := Sample.start Sample.no_rules 2 Sample.note1 in
  let wr := EnexUploader.upload_note_with_release (C := Sample.flaky 0)
              (Some (Page "nb")) 0 1 st in
  wr.1 = Raise (ValueError "Semaphore released too many times")
  /\ semaphore (self wr.2) = semaphore (self st).
Proof.
  destruct (X12_release_without_acquire (C := Sample.flaky 0)
              (Some (Page "nb")) 0 1 Sample.note1
              (Sample.start Sample.no_rules 2 Sample.note1))
    as (Ho & _ & Hsem).
  - reflexivity.
  - reflexivity.
  - cbv zeta. split; [exact Ho | exact Hsem].
Defined.

Lemma X13_upload_calls_bounded_witness :
  let s0 := Sample.first_call Sample.forced 2 ∅ in
  let s := Dispatch.run_schedule (C := Sample.flaky 2) (Sample.round_robin 30) s0 in
  upload_attempts (trace (Dispatch.shared s)) <= 0 + 5 * 3.
Proof.
  cbv zeta.
  destruct (X13_upload_calls_bounded (C := Sample.flaky 2)
              (Sample.first_call Sample.forced 2 ∅)
              (Dispatch.run_schedule (C := Sample.flaky 2)
                 (Sample.round_robin 30) (Sample.first_call Sample.forced 2 ∅))
              "notebook.enex")
    as (Hbound & _).
  - split; [now exists "notebook.enex"|]. split; [constructor|].
    split; reflexivity.
  - reflexivity.
  - apply run_schedule_reachable.
  - exact Hbound.
Defined.


Lemma X15_partial_progress_witness :
  let s0 := Sample.first_call Sample.no_rules 2 ∅ in
  let s := Dispatch.run_schedule (C := Scenario.mixed) (Scenario.round_robin4 40) s0 in
  tokens (Dispatch.shared s)
  = tokens (Dispatch.shared s0)
    ∪ note_hashes
        (filter (fun n => uploadable (C := Scenario.mixed) Sample.no_rules n = true)
                [Sample.note1; Sample.broken_note; Sample.empty_note;
                 Sample.note2]).
Proof.
  cbv zeta.
  destruct (X15_partial_progress (C := Scenario.mixed)
              (Sample.first_call Sample.no_rules 2 ∅)
              (Dispatch.run_schedule (C := Scenario.mixed)
                 (Scenario.round_robin4 40)
                 (Sample.first_call Sample.no_rules 2 ∅))
              "notebook.enex" (Database "notebook.enex"))
    as (_ & _ & Hall).
  - split; [now exists "notebook.enex"|]. split; [constructor|].
    split; reflexivity.
  - reflexivity.
  - reflexivity.
  - apply run_schedule_reachable.
  - apply Hall.
    + intros i c m blocks. reflexivity.
    + exists (Return tt). vm_compute. reflexivity.
Defined.

Lemma X16_returns_normally_witness :
  let s0 := Sample.first_call Sample.forced 2 ∅ in
  let s := Dispatch.run_schedule (C := Sample.flaky 5) (Sample.round_robin 40) s0 in
  Dispatch.coord s = Dispatch.CDone (Return tt).
Proof.
  cbv zeta.
  destruct (X16_returns_normally (C := Sample.flaky 5)
              (Sample.first_call Sample.forced 2 ∅)
              (Dispatch.run_schedule (C := Sample.flaky 5)
                 (Sample.round_robin 40) (Sample.first_call Sample.forced 2 ∅))
              "notebook.enex" (Some (Database "notebook.enex")))
    as (_ & Hfin).
  - split; [now exists "notebook.enex"|]. split; [constructor|].
    split; reflexivity.
  - reflexivity.
  - reflexivity.
  - cbn. lia.
  - apply run_schedule_reachable.
  - apply Hfin. exists (Return tt). vm_compute. reflexivity.
Defined.

Lemma X17_one_slot_sequential_witness :
  let s0 := Sample.first_call Sample.forced 1 ∅ in
  let s := Dispatch.run_schedule (C := Sample.flaky 0) (Sample.round_robin 5) s0 in
  one_at_a_time s /\ Dispatch.active_count (Dispatch.workers s) <= 1.
Proof.
  cbv zeta.
  destruct (X17_one_slot_sequential (C := Sample.flaky 0)
              (Sample.first_call Sample.forced 1 ∅)
              (Dispatch.run_schedule (C := Sample.flaky 0)
                 (Sample.round_robin 5) (Sample.first_call Sample.forced 1 ∅)))
    as (Hseq & Hone & _).
  - split; [now exists "notebook.enex"|]. split; [constructor|].
    split; reflexivity.
  - reflexivity.
  - apply run_schedule_reachable.
  - split; [exact Hseq | exact Hone].
Defined.
